(** * PodClaw: script -> speech -> subtitles -> video pipeline

    A shallow embedding of the core of the [podclaw] Python package
    ([config.py], [script.py], [tts.py], [subtitles.py], [generator.py],
    [cli.py])
    and the properties of its documented behaviour.

    Conventions of the embedding.
    - Python [int] is [Z]; [//] is [Z.div] and [%] is [Z.modulo] (both floor
      towards minus infinity for a positive divisor, as in Python).
    - Python [str] is [string]; the model covers ASCII text (one character
      per code point), for which [str.split], [str.strip], [str.lower] and
      [str.isalnum] are written out below.
    - A [dict] used as an open record (a script segment) is a
      [gmap string value]; a [dict] used as a map is a [gmap] too.
    - An exception is a value of [exn]; a function that may raise returns a
      [result]. *)

From Stdlib Require Import ZArith QArith Ascii.
From stdpp Require Import base gmap strings list fin_maps pretty.

Local Open Scope Z_scope.

(* ===================================================================== *)
(** * Python primitives used by the package                               *)
(* ===================================================================== *)

Module Py.

(** [str.isspace] on one ASCII character: TAB, LF, VT, FF, CR, the four
    separators FS GS RS US, and SPACE. *)
Definition isspace (c : ascii) : bool :=
  let n := nat_of_ascii c in
  ((9 <=? n)%nat && (n <=? 13)%nat) || ((28 <=? n)%nat && (n <=? 32)%nat).

Definition isupper (c : ascii) : bool :=
  let n := nat_of_ascii c in (65 <=? n)%nat && (n <=? 90)%nat.

Definition isalnum_c (c : ascii) : bool :=
  let n := nat_of_ascii c in
  ((48 <=? n)%nat && (n <=? 57)%nat) || ((65 <=? n)%nat && (n <=? 90)%nat)
  || ((97 <=? n)%nat && (n <=? 122)%nat).

Definition lower_c (c : ascii) : ascii :=
  if isupper c then ascii_of_nat (nat_of_ascii c + 32) else c.

(** [len(s)] *)
Definition len (s : string) : Z := Z.of_nat (String.length s).

(** [s.lower()] *)
Fixpoint lower (s : string) : string :=
  match s with
  | EmptyString => EmptyString
  | String c s' => String (lower_c c) (lower s')
  end.

(** [sep.join(l)] *)
Definition join (sep : string) (l : list string) : string :=
  String.concat sep l.

(** [s.split()]: the maximal runs of non-whitespace characters. *)
Fixpoint split (s : string) : list string :=
  match s with
  | EmptyString => []
  | String c s' =>
      if isspace c then split s'
      else match s' with
           | EmptyString => [String c EmptyString]
           | String c' _ =>
               if isspace c' then String c EmptyString :: split s'
               else match split s' with
                    | w :: ws => String c w :: ws
                    | [] => [String c EmptyString]
                    end
           end
  end.

(** [s.split(sep)] for a one-character separator: never empty. *)
Fixpoint split_on (sep : ascii) (s : string) : list string :=
  match s with
  | EmptyString => [EmptyString]
  | String c s' =>
      if decide (c = sep) then EmptyString :: split_on sep s'
      else match split_on sep s' with
           | h :: t => String c h :: t
           | [] => [String c EmptyString]
           end
  end.

Fixpoint lstrip (s : string) : string :=
  match s with
  | EmptyString => EmptyString
  | String c s' => if isspace c then lstrip s' else s
  end.

Fixpoint rstrip (s : string) : string :=
  match s with
  | EmptyString => EmptyString
  | String c s' =>
      match rstrip s' with
      | EmptyString => if isspace c then EmptyString else String c EmptyString
      | r => String c r
      end
  end.

(** [s.strip()] *)
Definition strip (s : string) : string := rstrip (lstrip s).

(** [s.startswith(c)] for a one-character prefix. *)
Definition startswith_c (c : ascii) (s : string) : bool :=
  match s with
  | String c' _ => bool_decide (c' = c)
  | EmptyString => false
  end.

(** [s.index(c)]: position of the first [c]; [None] where Python raises
    [ValueError]. [c in s] is [is_Some (index_c c s)]. *)
Fixpoint index_c (c : ascii) (s : string) : option nat :=
  match s with
  | EmptyString => None
  | String c' s' =>
      if decide (c' = c) then Some 0%nat else S <$> index_c c s'
  end.

Definition contains_c (c : ascii) (s : string) : bool :=
  bool_decide (is_Some (index_c c s)).

(** [s[i:j]] and [s[i:]] for [0 <= i <= j]. *)
Fixpoint drop (n : nat) (s : string) : string :=
  match n, s with
  | O, _ => s
  | S n', String _ s' => drop n' s'
  | S _, EmptyString => EmptyString
  end.

Fixpoint take (n : nat) (s : string) : string :=
  match n, s with
  | S n', String c s' => String c (take n' s')
  | _, _ => EmptyString
  end.

Definition slice (i j : nat) (s : string) : string := take (j - i) (drop i s).

(** [s.replace(old, new)]: every non-overlapping occurrence of a
    non-empty [old], scanning from the left. The fuel is the length of
    the text still to scan. *)
Fixpoint replace_go (fuel : nat) (old new s : string) : string :=
  match fuel with
  | O => s
  | S fuel' =>
      match s with
      | EmptyString => EmptyString
      | String c s' =>
          if String.prefix old s
          then new +:+ replace_go (fuel' - (String.length old - 1)) old new
                         (drop (String.length old) s)
          else String c (replace_go fuel' old new s')
      end
  end.

Definition replace (old new s : string) : string :=
  replace_go (String.length s) old new s.

(** [f"{n:0{width}d}"]: decimal, sign first, zero-padded to [width]. *)
Fixpoint zeros (n : nat) : string :=
  match n with O => EmptyString | S n' => String "0"%char (zeros n') end.

Definition fmt_0d (width : nat) (n : Z) : string :=
  let digits := pretty (Z.abs n) in
  let sign := if n <? 0 then "-" else "" in
  sign +:+ zeros (width - String.length sign - String.length digits) +:+ digits.

(** [f"{n}"] for an [int]. *)
Definition fmt_d (n : Z) : string := fmt_0d 0 n.

End Py.

(** ** Exceptions and results *)

Inductive exn : Type :=
  | KeyError (key : string)
  | TypeError
  | ZeroDivisionError
  | IndexError
  | ValueError (msg : string)
  | RuntimeError (msg : string)
  | HTTPError
  | CalledProcessError
  | OSError.

Inductive result (A : Type) : Type :=
  | Ok (a : A)
  | Raise (e : exn).
Arguments Ok {A} a.
Arguments Raise {A} e.

Global Instance result_ret : MRet result := fun A a => Ok a.

Global Instance result_bind : MBind result := fun A B k r =>
  match r with
  | Ok a => k a
  | Raise e => Raise e
  end.

(** [for x in l: acc = f(acc, x)] where the body may raise. *)
Fixpoint rfold {A B} (f : B -> A -> result B) (acc : B) (l : list A) : result B :=
  match l with
  | [] => Ok acc
  | x :: l' => acc' ← f acc x; rfold f acc' l'
  end.

Example split_ex : Py.split "  ab  c d " = ["ab"; "c"; "d"].
Proof. reflexivity. Qed.

(* ===================================================================== *)
(** * config.py                                                           *)
(* ===================================================================== *)

Inductive Format : Type :=
  | DEBATE | MONOLOGUE | NEWS_RECAP | INTERVIEW | STORYTELLING.

Global Instance Format_eq_dec : EqDecision Format.
Proof. solve_decision. Defined.

(** The [Voice] dataclass. The [float] fields hold the exact binary
    fractions 0.5, 0.75 and 0.0 by default; they are kept as rationals in
    lowest terms. *)
Record Voice : Type := mkVoice {
  name : string;
  voice_id : string;
  description : string;
  model_id : string;
  stability : Q;
  similarity_boost : Q;
  style : Q;
  use_speaker_boost : bool;
}.

Global Instance Q_eq_dec : EqDecision Q.
Proof. solve_decision. Defined.

Global Instance Voice_eq_dec : EqDecision Voice.
Proof. solve_decision. Defined.

(** [Voice(name=n, voice_id=i, description=d)] with the dataclass defaults. *)
Definition mk_voice (n i d : string) : Voice :=
  {| name := n; voice_id := i; description := d;
     model_id := "eleven_multilingual_v2";
     stability := 1 # 2; similarity_boost := 3 # 4; style := 0;
     use_speaker_boost := true |}.

(** Built-in voice presets. *)
Definition VOICES : gmap string Voice :=
  <["roger" := mk_voice "Roger" "CwhRBWXzGAHq8TQ4Fs17"
                 "Laid-back, casual, resonant male"]>
  (<["george" := mk_voice "George" "JBFqnCBsd6RMkjVDRZzb"
                 "Warm storyteller, British male"]>
  (<["callum" := mk_voice "Callum" "N2lVS1w4EtoT3dr4eOWO"
                 "Husky trickster male"]> ∅)).

Record PodclawConfig : Type := mkConfig {
  topic : string;
  format : Format;
  duration_seconds : Z;
  custom_script : option string;
  voices : list string;
  custom_voices : gmap string Voice;
  width : Z;
  height : Z;
  background_color : Z * Z * Z;
  accent_color : Z * Z * Z;
  text_color : Z * Z * Z;
  show_waveform : bool;
  show_subtitles : bool;
  subtitle_font_size : Z;
  subtitle_margin_v : Z;
  subtitle_outline : Z;
  output_dir : string;
  output_filename : option string;
  elevenlabs_api_key : option string;
  tts_model : string;
  audio_bitrate : string;
}.

(** [PodclawConfig()] with every field at its default. *)
Definition default_config : PodclawConfig :=
  {| topic := ""; format := DEBATE; duration_seconds := 120;
     custom_script := None;
     voices := ["roger"; "george"]; custom_voices := ∅;
     width := 1920; height := 1080;
     background_color := (10, 22, 40); accent_color := (218, 165, 32);
     text_color := (255, 253, 240);
     show_waveform := true; show_subtitles := true;
     subtitle_font_size := 28; subtitle_margin_v := 60; subtitle_outline := 3;
     output_dir := "."; output_filename := None;
     elevenlabs_api_key := None; tts_model := "eleven_multilingual_v2";
     audio_bitrate := "192k" |}.

Definition with_voices (vs : list string) (c : PodclawConfig) : PodclawConfig :=
  {| topic := topic c; format := format c;
     duration_seconds := duration_seconds c; custom_script := custom_script c;
     voices := vs; custom_voices := custom_voices c;
     width := width c; height := height c;
     background_color := background_color c; accent_color := accent_color c;
     text_color := text_color c;
     show_waveform := show_waveform c; show_subtitles := show_subtitles c;
     subtitle_font_size := subtitle_font_size c;
     subtitle_margin_v := subtitle_margin_v c;
     subtitle_outline := subtitle_outline c;
     output_dir := output_dir c; output_filename := output_filename c;
     elevenlabs_api_key := elevenlabs_api_key c; tts_model := tts_model c;
     audio_bitrate := audio_bitrate c |}.

Definition with_custom_voices (cv : gmap string Voice) (c : PodclawConfig)
  : PodclawConfig :=
  {| topic := topic c; format := format c;
     duration_seconds := duration_seconds c; custom_script := custom_script c;
     voices := voices c; custom_voices := cv;
     width := width c; height := height c;
     background_color := background_color c; accent_color := accent_color c;
     text_color := text_color c;
     show_waveform := show_waveform c; show_subtitles := show_subtitles c;
     subtitle_font_size := subtitle_font_size c;
     subtitle_margin_v := subtitle_margin_v c;
     subtitle_outline := subtitle_outline c;
     output_dir := output_dir c; output_filename := output_filename c;
     elevenlabs_api_key := elevenlabs_api_key c; tts_model := tts_model c;
     audio_bitrate := audio_bitrate c |}.

Definition with_topic (t : string) (c : PodclawConfig) : PodclawConfig :=
  {| topic := t; format := format c;
     duration_seconds := duration_seconds c; custom_script := custom_script c;
     voices := voices c; custom_voices := custom_voices c;
     width := width c; height := height c;
     background_color := background_color c; accent_color := accent_color c;
     text_color := text_color c;
     show_waveform := show_waveform c; show_subtitles := show_subtitles c;
     subtitle_font_size := subtitle_font_size c;
     subtitle_margin_v := subtitle_margin_v c;
     subtitle_outline := subtitle_outline c;
     output_dir := output_dir c; output_filename := output_filename c;
     elevenlabs_api_key := elevenlabs_api_key c; tts_model := tts_model c;
     audio_bitrate := audio_bitrate c |}.

(** [PodclawConfig.get_voice]: resolve a voice name to a [Voice]. *)
Definition get_voice (self : PodclawConfig) (name : string) : Voice :=
  let name_lower := Py.lower name in
  match custom_voices self !! name_lower with
  | Some v => v
  | None =>
      match VOICES !! name_lower with
      | Some v => v
      | None => mk_voice name name "Custom voice ID"
      end
  end.

(** [PodclawConfig.get_all_voices] *)
Definition get_all_voices (self : PodclawConfig) : list Voice :=
  get_voice self <$> voices self.

(* ===================================================================== *)
(** * script.py                                                           *)
(* ===================================================================== *)

(** Values stored in a segment dict: text ([speaker], [text],
    [audio_path]) or a [Voice] object ([voice]). *)
Inductive value : Type :=
  | VStr (s : string)
  | VVoice (v : Voice).

Global Instance value_eq_dec : EqDecision value.
Proof. solve_decision. Defined.

(** A script segment: the dict [{"speaker": .., "text": .., ...}]. *)
Abbreviation segment := (gmap string value).

(** [{"speaker": speaker, "text": text}] *)
Definition mk_segment (speaker text : string) : segment :=
  <["speaker" := VStr speaker]> (<["text" := VStr text]> ∅).

(** [seg[k]] *)
Definition getitem (seg : segment) (k : string) : result value :=
  match seg !! k with
  | Some v => Ok v
  | None => Raise (KeyError k)
  end.

(** [seg[k]] used where the code needs a [str]. *)
Definition getitem_str (seg : segment) (k : string) : result string :=
  v ← getitem seg k;
  match v with
  | VStr s => Ok s
  | VVoice _ => Raise TypeError
  end.

(** [seg[k]] used where the code needs a [Voice]. *)
Definition getitem_voice (seg : segment) (k : string) : result Voice :=
  v ← getitem seg k;
  match v with
  | VVoice v => Ok v
  | VStr _ => Raise TypeError
  end.

Definition nl : string := String "010"%char EmptyString.

Definition truthy (s : string) : bool :=
  match s with EmptyString => false | _ => true end.

Definition nonempty {A} (l : list A) : bool :=
  match l with [] => false | _ => true end.

Definition SPEAKER_ROLES (f : Format) : list string :=
  match f with
  | DEBATE => ["HOST_A"; "HOST_B"]
  | MONOLOGUE => ["HOST"]
  | NEWS_RECAP => ["ANCHOR"; "CORRESPONDENT"]
  | INTERVIEW => ["INTERVIEWER"; "GUEST"]
  | STORYTELLING => ["NARRATOR"; "COLOR"]
  end.

(** State of the scan in [parse_script]. *)
Record parse_state : Type := mkParse {
  segments : list segment;
  current_speaker : option string;
  current_text : list string;
}.

Definition speaker_truthy (sp : option string) : bool :=
  match sp with Some s => truthy s | None => false end.

(** [if current_speaker and current_text: segments.append(..)], and
    [current_text = []] where the loop body resets it. *)
Definition flush (reset : bool) (st : parse_state) : parse_state :=
  match current_speaker st with
  | Some sp =>
      if truthy sp && nonempty (current_text st) then
        {| segments := segments st ++
                       [mk_segment sp (Py.strip (Py.join " " (current_text st)))];
           current_speaker := current_speaker st;
           current_text := if reset then [] else current_text st |}
      else st
  | None => st
  end.

(** The tag test of the loop: [line.startswith("[") and "]" in line]. *)
Definition is_tag_line (line : string) : bool :=
  Py.startswith_c "[" line && Py.contains_c "]" line.

(** One iteration of the loop over the lines. *)
Definition parse_line (st : parse_state) (raw_line : string) : parse_state :=
  let line := Py.strip raw_line in
  if negb (truthy line) then st
  else if is_tag_line line then
    let st1 := flush true st in
    match Py.index_c "]" line with
    | Some bracket_end =>
        let speaker := Py.strip (Py.slice 1 bracket_end line) in
        let remaining := Py.strip (Py.drop (bracket_end + 1) line) in
        {| segments := segments st1;
           current_speaker := Some speaker;
           current_text := if truthy remaining
                           then current_text st1 ++ [remaining]
                           else current_text st1 |}
    | None => st1
    end
  else if speaker_truthy (current_speaker st) then
    {| segments := segments st;
       current_speaker := current_speaker st;
       current_text := current_text st ++ [line] |}
  else st.

(** [parse_script]: a tagged script to its list of segments. *)
Definition parse_script (raw_script : string) : list segment :=
  let st0 := {| segments := []; current_speaker := None; current_text := [] |} in
  let st := fold_left parse_line (Py.split_on "010" (Py.strip raw_script)) st0 in
  segments (flush false st).

(** A dict key must be hashable: a [str] is, a [Voice] (a dataclass with
    [eq] and without [frozen]) is not. *)
Definition speaker_key (seg : segment) : result string :=
  v ← getitem seg "speaker";
  match v with
  | VStr s => Ok s
  | VVoice _ => Raise TypeError
  end.

(** First loop of [assign_voices]: one step of building
    [speaker_to_voice]. *)
Definition assign_step (voices : list Voice) (speaker_to_voice : gmap string Voice)
    (seg : segment) : result (gmap string Voice) :=
  speaker ← speaker_key seg;
  match speaker_to_voice !! speaker with
  | Some _ => Ok speaker_to_voice
  | None =>
      match length voices with
      | O => Raise ZeroDivisionError
      | S _ =>
          let voice_index := (size speaker_to_voice `mod` length voices)%nat in
          match voices !! voice_index with
          | Some v => Ok (<[speaker := v]> speaker_to_voice)
          | None => Raise IndexError
          end
      end
  end.

(** Second loop of [assign_voices]: [{**seg, "voice": speaker_to_voice[..]}]. *)
Definition attach_voice (speaker_to_voice : gmap string Voice) (seg : segment)
  : result segment :=
  speaker ← speaker_key seg;
  match speaker_to_voice !! speaker with
  | Some v => Ok (<["voice" := VVoice v]> seg)
  | None => Raise (KeyError speaker)
  end.

(** [for x in l: result.append(f(x))] where [f] may raise. *)
Fixpoint rmap {A B} (f : A -> result B) (l : list A) : result (list B) :=
  match l with
  | [] => Ok []
  | x :: l' => y ← f x; ys ← rmap f l'; Ok (y :: ys)
  end.

Definition speaker_map (voices : list Voice) (segs : list segment)
  : result (gmap string Voice) :=
  rfold (assign_step voices) ∅ segs.

(** [assign_voices] *)
Definition assign_voices (segs : list segment) (config : PodclawConfig)
  : result (list segment) :=
  let voices := get_all_voices config in
  speaker_to_voice ← speaker_map voices segs;
  rmap (attach_voice speaker_to_voice) segs.

(** [generate_demo_script] *)
Definition generate_demo_script (config : PodclawConfig) : string :=
  let t := topic config in
  let roles := SPEAKER_ROLES (format config) in
  match format config with
  | MONOLOGUE => Py.join nl [
      "[HOST] Welcome to the show! Today we're diving deep into " +:+ t +:+ ".";
      "[HOST] This is one of those topics that everyone has an opinion on, but very few people actually understand.";
      "[HOST] So let me break it down for you.";
      "[HOST] First off, let's talk about why " +:+ t +:+ " matters right now.";
      "[HOST] The world is changing fast, and this is at the center of it.";
      "[HOST] Here's what most people get wrong about it.";
      "[HOST] They think it's simple. It's not. It's layers upon layers of complexity.";
      "[HOST] But here's the good news - once you understand the core principle, everything else clicks.";
      "[HOST] And that core principle? It all comes down to one thing.";
      "[HOST] Incentives. Follow the incentives, and you'll understand " +:+ t +:+ ".";
      "[HOST] That's all for today. Thanks for listening, and I'll catch you in the next one." ]
  | NEWS_RECAP => Py.join nl [
      "[ANCHOR] Good evening! Top stories tonight - major developments in " +:+ t +:+ ".";
      "[CORRESPONDENT] That's right. We've been tracking this all week, and things are heating up.";
      "[ANCHOR] Give us the rundown.";
      "[CORRESPONDENT] Three big developments. First, the landscape has shifted dramatically.";
      "[ANCHOR] How so?";
      "[CORRESPONDENT] New players are entering the space, and the old guard isn't happy about it.";
      "[ANCHOR] And the second development?";
      "[CORRESPONDENT] The numbers are in, and they're surprising everyone. Way higher than expected.";
      "[ANCHOR] That's significant. And the third?";
      "[CORRESPONDENT] Perhaps most importantly - the regulatory picture is changing.";
      "[ANCHOR] What does this mean for the average person?";
      "[CORRESPONDENT] It means " +:+ t +:+ " is about to affect everyone, whether they're paying attention or not.";
      "[ANCHOR] That's all the time we have. Stay informed, stay sharp." ]
  | _ =>
      let a := default "" (roles !! 0%nat) in
      let b := if (1 <? length roles)%nat then default "" (roles !! 1%nat) else a in
      let A := "[" +:+ a +:+ "] " in
      let B := "[" +:+ b +:+ "] " in
      Py.join nl [
      A +:+ "Welcome to the show! Today we're tackling " +:+ t +:+ ".";
      B +:+ "Oh, this is going to be good. I have STRONG opinions on this one.";
      A +:+ "I know you do. So let's get right into it. Where do you stand?";
      B +:+ "Here's the thing - most people are looking at " +:+ t +:+ " completely wrong.";
      A +:+ "Wrong how? Walk me through it.";
      B +:+ "They're focused on the surface level. The flashy stuff. But the real story is underneath.";
      A +:+ "Okay, I'll push back on that. The surface level matters because that's what people experience.";
      B +:+ "Sure, but if you only look at what's visible, you miss the entire mechanism driving it.";
      A +:+ "Fair point. So what's the mechanism?";
      B +:+ "It comes down to three things. Money, power, and timing.";
      A +:+ "The holy trinity.";
      B +:+ "Exactly. And right now, the timing couldn't be more critical.";
      A +:+ "This has been a fantastic discussion. Thanks for tuning in everyone!";
      B +:+ "Peace!" ]
  end.

(* ===================================================================== *)
(** * subtitles.py                                                        *)
(* ===================================================================== *)

(** A timing dict [{"start_ms", "end_ms", "path"}] as built by
    [concatenate_audio]; [generate_srt] reads the first two keys. *)
Record Timing : Type := mkTiming {
  start_ms : Z;
  end_ms : Z;
  path : string;
}.

(** [_format_srt_time]: milliseconds as [HH:MM:SS,mmm]. *)
Definition _format_srt_time (ms : Z) : string :=
  let hours := ms / 3600000 in
  let minutes := (ms mod 3600000) / 60000 in
  let seconds := (ms mod 60000) / 1000 in
  let millis := ms mod 1000 in
  Py.fmt_0d 2 hours +:+ ":" +:+ Py.fmt_0d 2 minutes +:+ ":" +:+
  Py.fmt_0d 2 seconds +:+ "," +:+ Py.fmt_0d 3 millis.

(** Loop state of [_split_long_text]. *)
Record wrap_state : Type := mkWrap {
  lines : list string;
  current : list string;
  current_len : Z;
}.

(** Body of [for word in words]. *)
Definition wrap_step (max_chars : Z) (st : wrap_state) (word : string) : wrap_state :=
  if (current_len st + Py.len word + 1 >? max_chars) && nonempty (current st) then
    {| lines := lines st ++ [Py.join " " (current st)];
       current := [word];
       current_len := Py.len word |}
  else
    {| lines := lines st;
       current := current st ++ [word];
       current_len := current_len st + Py.len word + 1 |}.

Definition wrap_finish (st : wrap_state) : list string :=
  if nonempty (current st) then lines st ++ [Py.join " " (current st)]
  else lines st.

(** [_split_long_text]: split long text into subtitle-friendly chunks. *)
Definition _split_long_text (text : string) (max_chars : Z) : list string :=
  if Py.len text <=? max_chars then [text]
  else
    let words := Py.split text in
    wrap_finish
      (fold_left (wrap_step max_chars) words
                 {| lines := []; current := []; current_len := 0 |}).

(** What one element of [srt_entries] is formatted from. *)
Record CaptionEntry : Type := mkEntry {
  entry_index : Z;
  entry_start : Z;
  entry_end : Z;
  entry_text : string;
}.

(** The f-string appended to [srt_entries]. *)
Definition render_entry (e : CaptionEntry) : string :=
  Py.fmt_d (entry_index e) +:+ nl +:+
  _format_srt_time (entry_start e) +:+ " --> " +:+ _format_srt_time (entry_end e) +:+ nl +:+
  entry_text e +:+ nl.

(** [enumerate(l)] *)
Definition enumerate {A} (l : list A) : list (nat * A) :=
  zip (seq 0 (length l)) l.

(** Body of [for i, chunk in enumerate(chunks)]; the state is
    [(srt_entries, entry_index)]. *)
Definition emit_chunk (timing : Timing) (ms_per_chunk : Z) (n_chunks : nat)
    (st : list CaptionEntry * Z) (ic : nat * string) : list CaptionEntry * Z :=
  let '(srt_entries, entry_index) := st in
  let '(i, chunk) := ic in
  let start := start_ms timing + Z.of_nat i * ms_per_chunk in
  let end_ := if Z.of_nat i =? Z.of_nat n_chunks - 1 then end_ms timing
              else start_ms timing + (Z.of_nat i + 1) * ms_per_chunk in
  (srt_entries ++ [mkEntry entry_index start end_ chunk], entry_index + 1).

(** The text shown for a segment. A speaker that is not a [str] is outside
    the model. *)
Definition display_text (show_speaker_names : bool) (seg : segment) : result string :=
  text ← getitem_str seg "text";
  if show_speaker_names then
    speaker ← getitem_str seg "speaker";
    Ok ("[" +:+ speaker +:+ "] " +:+ text)
  else Ok text.

(** Body of [for seg, timing in zip(segments, timings)]. *)
Definition emit_segment (max_chars_per_line : Z) (show_speaker_names : bool)
    (st : list CaptionEntry * Z) (st_in : segment * Timing)
  : result (list CaptionEntry * Z) :=
  let '(seg, timing) := st_in in
  text ← display_text show_speaker_names seg;
  let chunks := _split_long_text text max_chars_per_line in
  let total_ms := end_ms timing - start_ms timing in
  let ms_per_chunk := total_ms / Z.max (Z.of_nat (length chunks)) 1 in
  Ok (fold_left (emit_chunk timing ms_per_chunk (length chunks)) (enumerate chunks) st).

(** The entries [generate_srt] formats, in order. *)
Definition caption_entries (segs : list segment) (timings : list Timing)
    (max_chars_per_line : Z) (show_speaker_names : bool)
  : result (list CaptionEntry) :=
  st ← rfold (emit_segment max_chars_per_line show_speaker_names) ([], 1)
             (zip segs timings);
  Ok st.1.

(** The text [generate_srt] writes to [output_path]. *)
Definition srt_text (segs : list segment) (timings : list Timing)
    (max_chars_per_line : Z) (show_speaker_names : bool) : result string :=
  es ← caption_entries segs timings max_chars_per_line show_speaker_names;
  Ok (Py.join nl (render_entry <$> es)).

(* ===================================================================== *)
(** * The outside world: files, services, callbacks                       *)
(* ===================================================================== *)

(** Which directory tree a [Path] was built from: the scratch directory of
    [tempfile.mkdtemp], or the configured destination [output_dir]. *)
Inductive location : Type := Scratch | Output.

Global Instance location_eq_dec : EqDecision location.
Proof. solve_decision. Defined.

(** A [pathlib.Path]: a base directory and the components joined to it. *)
Record Path : Type := mkPath {
  loc : location;
  base : string;
  parts : list string;
}.

Global Instance Path_eq_dec : EqDecision Path.
Proof. solve_decision. Defined.

(** [p / name] *)
Definition pdiv (p : Path) (name : string) : Path :=
  mkPath (loc p) (base p) (parts p ++ [name]).

(** [p.parent] *)
Definition parent (p : Path) : Path :=
  mkPath (loc p) (base p) (removelast (parts p)).

(** [str(p)], for a base directory in the form [pathlib] prints it and
    components that are plain names. [pathlib] rewrites other strings
    when it parses them (it drops a trailing [/], empty components and
    [.] components); that is not modelled, and the statements about path
    strings are made for directories and names in that form only. *)
Definition path_str (p : Path) : string :=
  if decide (base p = ".") then
    match parts p with [] => "." | _ => Py.join "/" (parts p) end
  else Py.join "/" (base p :: parts p).

Inductive content : Type :=
  | Text (s : string)
  | Binary.

(** The operations through which the package touches the outside world. *)
Inductive op : Type :=
  | Notify (stage msg : string)
      (* the caller's [on_progress(stage, message)] *)
  | NotifySegment (current total : Z) (seg : segment)
      (* the caller's [on_progress(current, total, segment)] *)
  | Mkdtemp (p : Path)
  | Mkdir (p : Path)
  | WriteFile (p : Path) (c : content)
  | HttpPost (voice_id text : string)
      (* the speech synthesis request, with [raise_for_status] *)
  | Ffprobe (audio_path : string)
  | FfmpegSilence (out : Path) (gap_ms : Z)
  | FfmpegConcat (list_path out : Path)
  | Unlink (p : Path)
  | RenderBackground (out : Path)
  | FfmpegAssemble (background audio out : Path) (srt : option Path)
  | Copy2 (src dst : Path)
  | Rmtree (p : Path).

(** What happened, in order: an operation that completed, or one that
    raised. *)
Inductive event : Type :=
  | Done (o : op)
  | Failed (o : op) (e : exn).

Abbreviation trace := (list event).

(** The files an operation creates or replaces. *)
Definition writes (o : op) : list Path :=
  match o with
  | WriteFile p _ => [p]
  | FfmpegSilence out _ => [out]
  | FfmpegConcat _ out => [out]
  | RenderBackground out => [out]
  | FfmpegAssemble _ _ out _ => [out]
  | Copy2 _ dst => [dst]
  | _ => []
  end.

Definition op_of (e : event) : op :=
  match e with Done o => o | Failed o _ => o end.

(** The event creates, replaces, or tried to create a file under the
    destination output directory. *)
Definition touches_output (e : event) : bool :=
  bool_decide (Exists (fun p => loc p = Output) (writes (op_of e))).

(** The files under the destination directory that the events of a trace
    may have left there. *)
Definition output_files (tr : trace) : list Path :=
  filter (fun p => loc p = Output) (tr ≫= (fun e => writes (op_of e))).

(** [p.exists()] after the events of [tr]. *)
Fixpoint file_exists (tr : trace) (p : Path) (before : bool) : bool :=
  match tr with
  | [] => before
  | Done (Unlink q) :: tr' =>
      file_exists tr' p (if decide (q = p) then false else before)
  | Done o :: tr' =>
      file_exists tr' p (if decide (p ∈ writes o) then true else before)
  | Failed _ _ :: tr' => file_exists tr' p before
  end.

(** The environment of one run. Whether an operation raises, and what a
    probe measures, may depend on everything that happened before. *)
Record World : Type := mkWorld {
  mkdtemp : string;
      (* the directory [tempfile.mkdtemp(prefix="podclaw_")] returns *)
  environ_api_key : option string;
      (* [os.environ.get("ELEVENLABS_API_KEY")] *)
  raises : trace -> op -> option exn;
  duration_ms : trace -> string -> Z;
      (* [int(float(stdout) * 1000)] of the [ffprobe] call *)
  duration_s : trace -> string -> Q;
      (* [float(stdout)] of the [ffprobe] call *)
}.

(** A computation of the package: it extends the trace and returns or
    raises. *)
Definition M (A : Type) : Type := trace -> trace * result A.

Global Instance M_ret : MRet M := fun A a tr => (tr, Ok a).

Global Instance M_bind : MBind M := fun A B k m tr =>
  match m tr with
  | (tr', Ok a) => k a tr'
  | (tr', Raise e) => (tr', Raise e)
  end.

Definition raise {A} (e : exn) : M A := fun tr => (tr, Raise e).

Definition lift {A} (r : result A) : M A := fun tr => (tr, r).

(** Carry out one operation in world [w]. *)
Definition perform (w : World) (o : op) : M unit := fun tr =>
  match raises w tr o with
  | Some e => (tr ++ [Failed o e], Raise e)
  | None => (tr ++ [Done o], Ok tt)
  end.

(** An operation that cannot raise ([ignore_errors=True], [missing_ok=True]
    on a path the run owns). *)
Definition perform_quiet (o : op) : M unit := fun tr => (tr ++ [Done o], Ok tt).

(** Read an observation of the world at the current point of the run. *)
Definition observe {A} (f : trace -> A) : M A := fun tr => (tr, Ok (f tr)).

(** [try: body finally: cleanup] *)
Definition try_finally {A} (body : M A) (cleanup : M unit) : M A := fun tr =>
  match body tr with
  | (tr', r) =>
      match cleanup tr' with
      | (tr'', Ok _) => (tr'', r)
      | (tr'', Raise e) => (tr'', Raise e)
      end
  end.

(** [for x in l: body(x)], collecting what the body returns. *)
Fixpoint mmap {A B} (f : A -> M B) (l : list A) : M (list B) :=
  match l with
  | [] => mret []
  | x :: l' => y ← f x; ys ← mmap f l'; mret (y :: ys)
  end.

(** [for x in l: acc = body(acc, x)] *)
Fixpoint mfold {A B} (f : B -> A -> M B) (acc : B) (l : list A) : M B :=
  match l with
  | [] => mret acc
  | x :: l' => acc' ← f acc x; mfold f acc' l'
  end.

(* ===================================================================== *)
(** * tts.py                                                              *)
(* ===================================================================== *)

(** [_get_api_key]: [config_key or os.environ.get("ELEVENLABS_API_KEY")]. *)
Definition _get_api_key (w : World) (config_key : option string) : result string :=
  let key := match config_key with
             | Some k => if truthy k then Some k else environ_api_key w
             | None => environ_api_key w
             end in
  match key with
  | Some k =>
      if truthy k then Ok k
      else Raise (ValueError "ElevenLabs API key not found. Set ELEVENLABS_API_KEY environment variable or pass it in config.")
  | None =>
      Raise (ValueError "ElevenLabs API key not found. Set ELEVENLABS_API_KEY environment variable or pass it in config.")
  end.

(** [synthesize_segment]: one request to the speech service, saved to
    [output_path]. *)
Definition synthesize_segment (w : World) (text : string) (voice : Voice)
    (api_key : string) (output_path : Path) : M Path :=
  _ ← perform w (HttpPost (voice_id voice) text);
  _ ← perform w (Mkdir (parent output_path));
  _ ← perform w (WriteFile output_path Binary);
  mret output_path.

(** A caller-supplied [on_progress(current, total, segment)]. *)
Abbreviation segment_callback := (Z -> Z -> segment -> M unit).

(** Body of [for i, seg in enumerate(segments)]. *)
Definition synthesize_one (w : World) (api_key : string) (work_dir : Path)
    (on_progress : option segment_callback) (total : nat)
    (iseg : nat * segment) : M segment :=
  let '(i, seg) := iseg in
  let audio_path := pdiv work_dir ("segment_" +:+ Py.fmt_0d 4 (Z.of_nat i) +:+ ".mp3") in
  _ ← match on_progress with
      | Some cb => cb (Z.of_nat i + 1) (Z.of_nat total) seg
      | None => mret tt
      end;
  text ← lift (getitem_str seg "text");
  voice ← lift (getitem_voice seg "voice");
  _ ← synthesize_segment w text voice api_key audio_path;
  mret (<["audio_path" := VStr (path_str audio_path)]> seg).

(** [synthesize_all_segments] *)
Definition synthesize_all_segments (w : World) (segs : list segment)
    (api_key : string) (work_dir : Path)
    (on_progress : option segment_callback) : M (list segment) :=
  _ ← perform w (Mkdir work_dir);
  mmap (synthesize_one w api_key work_dir on_progress (length segs)) (enumerate segs).

(** [_get_duration_ms] *)
Definition _get_duration_ms (w : World) (audio_path : string) : M Z :=
  _ ← perform w (Ffprobe audio_path);
  observe (fun tr => duration_ms w tr audio_path).

(** Body of [for path in segment_paths]; the state is
    [(timings, current_ms)]. *)
Definition timeline_step (w : World) (gap_ms : Z) (st : list Timing * Z)
    (path : string) : M (list Timing * Z) :=
  let '(timings, current_ms) := st in
  duration_ms ← _get_duration_ms w path;
  mret (timings ++ [mkTiming current_ms (current_ms + duration_ms) path],
        current_ms + duration_ms + gap_ms).

(** The text of the concat list file. *)
Definition concat_list (segment_paths : list string) (silence_path : Path) : string :=
  String.concat ""
    ((fun '(i, path) =>
        "file '" +:+ path +:+ "'" +:+ nl +:+
        (if (Z.of_nat i <? Z.of_nat (length segment_paths) - 1)
         then "file '" +:+ path_str silence_path +:+ "'" +:+ nl else ""))
     <$> enumerate segment_paths).

(** [concatenate_audio] *)
Definition concatenate_audio (w : World) (segment_paths : list string)
    (output_path : Path) (gap_ms : Z) : M (Path * list Timing) :=
  _ ← perform w (Mkdir (parent output_path));
  st ← mfold (timeline_step w gap_ms) ([], 0) segment_paths;
  let timings := st.1 in
  let silence_path := pdiv (parent output_path) "_silence.mp3" in
  _ ← perform w (FfmpegSilence silence_path gap_ms);
  let list_path := pdiv (parent output_path) "_concat_list.txt" in
  _ ← perform w (WriteFile list_path (Text (concat_list segment_paths silence_path)));
  _ ← perform w (FfmpegConcat list_path output_path);
  _ ← perform w (Unlink silence_path);
  _ ← perform w (Unlink list_path);
  mret (output_path, timings).

(** * subtitles.py, the file part *)

(** [generate_srt] *)
Definition generate_srt (w : World) (segs : list segment) (timings : list Timing)
    (output_path : Path) (max_chars_per_line : Z) (show_speaker_names : bool)
  : M Path :=
  _ ← perform w (Mkdir (parent output_path));
  text ← lift (srt_text segs timings max_chars_per_line show_speaker_names);
  _ ← perform w (WriteFile output_path (Text text));
  mret output_path.

(** * video.py, as far as the pipeline sees it *)

(** [create_background]: the rendering itself is the image library's. *)
Definition create_background (w : World) (output_path : Path) : M Path :=
  _ ← perform w (Mkdir (parent output_path));
  _ ← perform w (RenderBackground output_path);
  mret output_path.

(** [assemble_video]: one [ffmpeg] run writing [output_path]; a non-zero
    exit status raises. *)
Definition assemble_video (w : World) (background_path audio_path output_path : Path)
    (srt_path : option Path) : M Path :=
  _ ← perform w (Mkdir (parent output_path));
  has_subtitles ← observe (fun tr =>
      match srt_path with
      | Some p => if file_exists tr p false then Some p else None
      | None => None
      end);
  _ ← perform w (FfmpegAssemble background_path audio_path output_path has_subtitles);
  mret output_path.

(** [get_audio_duration] *)
Definition get_audio_duration (w : World) (audio_path : string) : M Q :=
  _ ← perform w (Ffprobe audio_path);
  observe (fun tr => duration_s w tr audio_path).

(* ===================================================================== *)
(** * generator.py                                                        *)
(* ===================================================================== *)

(** The dict [generate] returns. *)
Record Manifest : Type := mkManifest {
  video : string;
  audio : string;
  subtitles : string;
  script : string;
  background : string;
  manifest_duration_seconds : Q;
  segment_count : Z;
}.

(** A caller-supplied [on_progress(stage, message)]. *)
Abbreviation stage_callback := (string -> string -> M unit).

(** The nested [progress] helper of [_run_pipeline]. *)
Definition progress (on_progress : option stage_callback) (stage msg : string) : M unit :=
  match on_progress with
  | Some cb => cb stage msg
  | None => mret tt
  end.

Definition opt_truthy (s : option string) : bool :=
  match s with Some s => truthy s | None => false end.

Fixpoint filter_chars (f : ascii -> bool) (s : string) : string :=
  match s with
  | EmptyString => EmptyString
  | String c s' => if f c then String c (filter_chars f s') else filter_chars f s'
  end.

(** The output file name of step 5. *)
Definition output_name_of (config : PodclawConfig) : string :=
  match output_filename config with
  | Some n =>
      if truthy n then n
      else
        let safe_topic :=
          Py.take 50 (Py.replace " " "_" (Py.strip
            (filter_chars (fun c => Py.isalnum_c c
                                    || bool_decide (c = " "%char)
                                    || bool_decide (c = "-"%char)
                                    || bool_decide (c = "_"%char))
                          (topic config)))) in
        "podclaw_" +:+ safe_topic +:+ ".mp4"
  | None =>
      let safe_topic :=
        Py.take 50 (Py.replace " " "_" (Py.strip
          (filter_chars (fun c => Py.isalnum_c c
                                  || bool_decide (c = " "%char)
                                  || bool_decide (c = "-"%char)
                                  || bool_decide (c = "_"%char))
                        (topic config)))) in
      "podclaw_" +:+ safe_topic +:+ ".mp4"
  end.

(** The script text of step 1: the [script] argument, else the configured
    [custom_script], else the demo script. *)
Definition select_script (config : PodclawConfig) (script : option string) : string :=
  if opt_truthy script then default "" script
  else if opt_truthy (custom_script config) then default "" (custom_script config)
  else generate_demo_script config.

(** Steps 1 to 3 and the background of [_run_pipeline]: everything before
    the final video is assembled. *)
Definition prepare (w : World) (config : PodclawConfig) (work_dir : Path)
    (script : option string) (on_progress : option stage_callback)
  : M (list segment * Path * Path * Path * Path) :=
  (* Step 1: script *)
  _ ← progress on_progress "script" "Generating script...";
  let raw_script := select_script config script in
  let script_path := pdiv work_dir "script.txt" in
  _ ← perform w (WriteFile script_path (Text raw_script));
  let segs := parse_script raw_script in
  if negb (nonempty segs) then
    raise (ValueError "Script parsing produced no segments. Check format.")
  else
  segs ← lift (assign_voices segs config);
  _ ← progress on_progress "script"
        ("Script ready: " +:+ Py.fmt_d (Z.of_nat (length segs)) +:+ " segments");
  (* Step 2: speech synthesis *)
  _ ← progress on_progress "tts" "Synthesizing speech...";
  api_key ← lift (_get_api_key w (elevenlabs_api_key config));
  let tts_dir := pdiv work_dir "tts" in
  let tts_progress : segment_callback := fun current total seg =>
    speaker ← lift (getitem_str seg "speaker");
    progress on_progress "tts"
      ("Synthesizing segment " +:+ Py.fmt_d current +:+ "/" +:+ Py.fmt_d total
       +:+ " [" +:+ speaker +:+ "]") in
  segs ← synthesize_all_segments w segs api_key tts_dir (Some tts_progress);
  _ ← progress on_progress "audio" "Concatenating audio...";
  audio_paths ← lift (rmap (fun seg => getitem_str seg "audio_path") segs);
  ct ← concatenate_audio w audio_paths (pdiv work_dir "combined.mp3") 400;
  let '(combined_audio, timings) := ct in
  _ ← progress on_progress "audio" "Audio ready";
  (* Step 3: subtitles *)
  _ ← progress on_progress "subtitles" "Generating subtitles...";
  srt_path ← generate_srt w segs timings (pdiv work_dir "subtitles.srt") 80 false;
  _ ← progress on_progress "subtitles" "Subtitles ready";
  (* Step 4: background *)
  _ ← progress on_progress "video" "Creating background...";
  bg_path ← create_background w (pdiv work_dir "background.png");
  _ ← progress on_progress "video" "Background ready";
  mret (segs, script_path, combined_audio, srt_path, bg_path).

(** Step 5 and the copies of [_run_pipeline]. *)
Definition deliver (w : World) (config : PodclawConfig)
    (on_progress : option stage_callback)
    (prepared : list segment * Path * Path * Path * Path) : M Manifest :=
  let '(segs, script_path, combined_audio, srt_path, bg_path) := prepared in
  _ ← progress on_progress "video" "Assembling final video...";
  let output_name := output_name_of config in
  let out_dir := mkPath Output (output_dir config) [] in
  let output_path := pdiv out_dir output_name in
  audio_duration ← get_audio_duration w (path_str combined_audio);
  _ ← assemble_video w bg_path combined_audio output_path
        (if show_subtitles config then Some srt_path else None);
  _ ← progress on_progress "done" ("Episode complete: " +:+ path_str output_path);
  (* Copy artifacts to output directory *)
  let final_audio := pdiv out_dir (Py.replace ".mp4" ".mp3" output_name) in
  let final_srt := pdiv out_dir (Py.replace ".mp4" ".srt" output_name) in
  let final_script := pdiv out_dir (Py.replace ".mp4" "_script.txt" output_name) in
  let final_bg := pdiv out_dir (Py.replace ".mp4" "_bg.png" output_name) in
  _ ← perform w (Copy2 combined_audio final_audio);
  _ ← perform w (Copy2 srt_path final_srt);
  _ ← perform w (Copy2 script_path final_script);
  _ ← perform w (Copy2 bg_path final_bg);
  mret {| video := path_str output_path;
          audio := path_str final_audio;
          subtitles := path_str final_srt;
          script := path_str final_script;
          background := path_str final_bg;
          manifest_duration_seconds := audio_duration;
          segment_count := Z.of_nat (length segs) |}.

(** [PodcastGenerator._run_pipeline] *)
Definition _run_pipeline (w : World) (config : PodclawConfig) (work_dir : Path)
    (script : option string) (on_progress : option stage_callback) : M Manifest :=
  prepared ← prepare w config work_dir script on_progress;
  deliver w config on_progress prepared.

(** [PodcastGenerator.generate] *)
Definition generate (w : World) (self_config : PodclawConfig)
    (topic_arg script : option string) (on_progress : option stage_callback)
  : M Manifest :=
  let config := if opt_truthy topic_arg
                then with_topic (default "" topic_arg) self_config
                else self_config in
  if negb (truthy (topic config)) && negb (opt_truthy script)
     && negb (opt_truthy (custom_script config))
  then raise (ValueError "Must provide a topic or script.")
  else
  let work_dir := mkPath Scratch (mkdtemp w) [] in
  _ ← perform w (Mkdtemp work_dir);
  _ ← perform w (Mkdir (mkPath Output (output_dir config) []));
  try_finally (_run_pipeline w config work_dir script on_progress)
              (perform_quiet (Rmtree work_dir)).

(** The callback of the examples: hand every notification to the caller. *)
Definition notify (w : World) : stage_callback :=
  fun stage msg => perform w (Notify stage msg).

(** The callback of a caller of [synthesize_all_segments]. *)
Definition notify_segment (w : World) : segment_callback :=
  fun current total seg => perform w (NotifySegment current total seg).

(** The caller's [on_progress] argument: absent, or a callback that hands
    every notification to the caller. *)
Definition caller_progress (w : World) (observed : bool) : option stage_callback :=
  if observed then Some (notify w) else None.

(** A world in which nothing fails, every clip lasts [ms] milliseconds and
    the API key comes from the environment. *)
Definition calm_world (ms : Z) : World :=
  {| mkdtemp := "/tmp/podclaw_0";
     environ_api_key := Some "key";
     raises := fun _ _ => None;
     duration_ms := fun _ _ => ms;
     duration_s := fun _ _ => (inject_Z ms / 1000)%Q |}.

(* ===================================================================== *)
(** * Vocabulary of the statements                                       *)
(* ===================================================================== *)

(** A word: non-empty, no whitespace inside. *)
Fixpoint no_space (s : string) : bool :=
  match s with
  | EmptyString => true
  | String c s' => negb (Py.isspace c) && no_space s'
  end.

Definition is_word (w : string) : bool := truthy w && no_space w.

(** The entries one segment contributes: chunk [k] of [chunks], numbered
    from [idx]. *)
Definition segment_block (timing : Timing) (idx : Z) (chunks : list string)
  : list CaptionEntry :=
  let n := Z.of_nat (length chunks) in
  let ms_per_chunk := (end_ms timing - start_ms timing) / Z.max n 1 in
  imap (fun k chunk =>
          mkEntry (idx + Z.of_nat k)
                  (start_ms timing + Z.of_nat k * ms_per_chunk)
                  (if Z.of_nat k =? n - 1 then end_ms timing
                   else start_ms timing + (Z.of_nat k + 1) * ms_per_chunk)
                  chunk) chunks.

(** Numbering invariant of the loop state [(srt_entries, entry_index)]. *)
Definition numbered (st : list CaptionEntry * Z) : Prop :=
  st.2 = Z.of_nat (length st.1) + 1
  ∧ ∀ j e, st.1 !! j = Some e → entry_index e = Z.of_nat j + 1.

(** A text of two words of fifty letters each. *)
Definition two_long_words : string :=
  "aaaaaaaaaaaaaaaaaaaaaaaaaaaaaaaaaaaaaaaaaaaaaaaaaa bbbbbbbbbbbbbbbbbbbbbbbbbbbbbbbbbbbbbbbbbbbbbbbbbb".

(** The keys [generate_srt] reads from a segment, holding text. *)
Definition has_text (show_speaker_names : bool) (seg : segment) : Prop :=
  (∃ t, seg !! "text" = Some (VStr t))
  ∧ (show_speaker_names = true → ∃ s, seg !! "speaker" = Some (VStr s)).

(** Sum of a list of durations. *)
Definition Zsum (l : list Z) : Z := foldr Z.add 0 l.

(** The timeline laid out from cursor [cur] for measured durations. *)
Fixpoint timeline_of (cur gap : Z) (pds : list (string * Z)) : list Timing :=
  match pds with
  | [] => []
  | (p, d) :: rest => mkTiming cur (cur + d) p :: timeline_of (cur + d + gap) gap rest
  end.

(** [d] is what the probe measured for [p] at some point of the run. *)
Definition measured (w : World) (p : string) (d : Z) : Prop :=
  ∃ tr0 : trace, d = duration_ms w tr0 p.

(** Nothing the world is asked to do raises. *)
Definition never_raises (w : World) : Prop := ∀ tr o, raises w tr o = None.

(** A custom roster keyed by a mixed-case name. *)
Definition mixed_case_config : PodclawConfig :=
  with_custom_voices {[ "MyVoice" := mk_voice "My Voice" "abc123" "" ]} default_config.

(** The segment's [speaker] entry is the string [sp]. *)
Definition has_speaker (seg : segment) (sp : string) : Prop :=
  seg !! "speaker" = Some (VStr sp).

(** The distinct labels of [l] in the order they are first seen, after the
    ones already [seen]. *)
Fixpoint first_seen (seen l : list string) : list string :=
  match l with
  | [] => seen
  | x :: l' => first_seen (if decide (x ∈ seen) then seen else seen ++ [x]) l'
  end.

Definition distinct_speakers (speakers : list string) : list string :=
  first_seen [] speakers.

(** The [voice] entry of a segment, if it holds a [Voice]. *)
Definition voice_of (seg : segment) : option Voice :=
  match seg !! "voice" with
  | Some (VVoice v) => Some v
  | _ => None
  end.

(** The voices that occur in a list of segments. *)
Definition voices_used (segs : list segment) : list Voice := omap voice_of segs.

(** What [speaker_to_voice] holds once the labels [seen] have been met. *)
Definition round_robin (roster : list Voice) (m : gmap string Voice)
    (seen : list string) : Prop :=
  NoDup seen
  ∧ size m = length seen
  ∧ (∀ sp, is_Some (m !! sp) ↔ sp ∈ seen)
  ∧ (∀ (i : nat) sp, seen !! i = Some sp →
       m !! sp = roster !! (i `mod` length roster)%nat).

(** No line of the script is a speaker tag line. *)
Definition no_tag_lines (raw_script : string) : Prop :=
  Forall (fun line => is_tag_line (Py.strip line) = false)
         (Py.split_on "010" (Py.strip raw_script)).

(** The event leaves the destination output directory alone. *)
Definition quiet_event (e : event) : Prop := touches_output e = false.

(** The computation only extends the trace, and by quiet events. *)
Definition quiet {A} (m : M A) : Prop :=
  ∀ tr, ∃ ext, (m tr).1 = tr ++ ext ∧ Forall quiet_event ext.

(** Every write under the output directory is the video assembly itself,
    or a copy made once the assembly has completed. *)
Fixpoint well_gated (assembled : bool) (tr : trace) : bool :=
  match tr with
  | [] => true
  | ev :: tr' =>
      match ev with
      | Done (FfmpegAssemble _ _ _ _) => well_gated true tr'
      | Failed (FfmpegAssemble _ _ _ _) _ => well_gated assembled tr'
      | Done (Copy2 _ _) | Failed (Copy2 _ _) _ =>
          (negb (touches_output ev) || assembled) && well_gated assembled tr'
      | _ => negb (touches_output ev) && well_gated assembled tr'
      end
  end.

(** The event is a run of the video assembly, completed or not. *)
Definition is_assembly (e : event) : bool :=
  match op_of e with FfmpegAssemble _ _ _ _ => true | _ => false end.

(** The event is a completed run of the video assembly. *)
Definition assembly_done (e : event) : bool :=
  match e with Done (FfmpegAssemble _ _ _ _) => true | _ => false end.

Definition is_copy (e : event) : bool :=
  match op_of e with Copy2 _ _ => true | _ => false end.

(** The files under the destination directory written by the operations
    that completed. *)
Definition delivered_files (tr : trace) : list Path :=
  filter (fun p => loc p = Output)
         (tr ≫= (fun e => match e with Done o => writes o | Failed _ _ => [] end)).

(** The computation only extends the trace, and every write under the
    output directory it makes is gated, given whether the assembly had
    completed before. *)
Definition gated_from {A} (assembled : bool) (m : M A) : Prop :=
  ∀ tr, ∃ ext, (m tr).1 = tr ++ ext ∧ well_gated assembled ext = true.

(** A world whose disk fills up: the second copy into the output
    directory fails, everything else succeeds. *)
Definition disk_full_world : World :=
  {| mkdtemp := "/tmp/podclaw_0";
     environ_api_key := Some "key";
     raises := fun tr o =>
       match o with
       | Copy2 _ _ =>
           if existsb (fun e => match e with Done (Copy2 _ _) => true | _ => false end) tr
           then Some OSError else None
       | _ => None
       end;
     duration_ms := fun _ _ => 1000;
     duration_s := fun _ _ => 1%Q |}.

(** The segment is ready for synthesis: it has its text and its voice. *)
Definition ready (seg : segment) : Prop :=
  ∃ text voice, seg !! "text" = Some (VStr text) ∧ seg !! "voice" = Some (VVoice voice).

Definition seg_text (seg : segment) : string :=
  match seg !! "text" with Some (VStr t) => t | _ => "" end.

Definition seg_voice_id (seg : segment) : string :=
  match seg !! "voice" with Some (VVoice v) => voice_id v | _ => "" end.

(** Where the audio of segment [i] is saved. *)
Definition segment_audio_path (work_dir : Path) (i : nat) : Path :=
  pdiv work_dir ("segment_" +:+ Py.fmt_0d 4 (Z.of_nat i) +:+ ".mp3").

(** The operations of one loop iteration of [synthesize_all_segments], in
    the order the code performs them, when the caller observes progress. *)
Definition synth_ops (work_dir : Path) (total : nat) (iseg : nat * segment) : list op :=
  [ NotifySegment (Z.of_nat iseg.1 + 1) (Z.of_nat total) iseg.2;
    HttpPost (seg_voice_id iseg.2) (seg_text iseg.2);
    Mkdir (parent (segment_audio_path work_dir iseg.1));
    WriteFile (segment_audio_path work_dir iseg.1) Binary ].

(** The whole schedule of [synthesize_all_segments]. *)
Definition synth_schedule (work_dir : Path) (segs : list segment) : list op :=
  Mkdir work_dir :: (enumerate segs ≫= synth_ops work_dir (length segs)).

(** The segment the loop appends for [(i, seg)]. *)
Definition with_audio_path (work_dir : Path) (iseg : nat * segment) : segment :=
  <["audio_path" := VStr (path_str (segment_audio_path work_dir iseg.1))]> iseg.2.

(** Carry out a list of operations in order, stopping at the first that
    raises. *)
Fixpoint perform_all (w : World) (ops : list op) : M unit :=
  match ops with
  | [] => mret tt
  | o :: ops' => _ ← perform w o; perform_all w ops'
  end.

(** One segment ready for synthesis, and a directory for its audio. *)
Definition hello_segment : segment :=
  <["voice" := VVoice (get_voice default_config "roger")]> (mk_segment "HOST" "Hello").

Definition example_tts_dir : Path := mkPath Scratch "/tmp/w" ["tts"].

(** A speech service that is down: every request fails. *)
Definition tts_down_world : World :=
  {| mkdtemp := "/tmp/podclaw_0";
     environ_api_key := Some "key";
     raises := fun _ o => match o with HttpPost _ _ => Some HTTPError | _ => None end;
     duration_ms := fun _ _ => 1000;
     duration_s := fun _ _ => 1%Q |}.

(** A run of the pipeline against the speech service that is down, and
    one against the disk that fills up. *)
Definition tts_down_run : trace * result Manifest :=
  generate tts_down_world default_config (Some "x") (Some "[A] hi")
           (caller_progress tts_down_world true) [].

Definition disk_full_run : trace * result Manifest :=
  generate disk_full_world default_config (Some "x") (Some "[A] hi")
           (caller_progress disk_full_world true) [].

(** A run with a topic and the empty text as its script. *)
Definition empty_script_run : trace * result Manifest :=
  generate (calm_world 1000) default_config (Some "x") (Some "")
           (caller_progress (calm_world 1000) false) [].

(* ===================================================================== *)
(** * cli.py                                                              *)
(* ===================================================================== *)

(** The value of a decimal digit character. *)
Definition digit_value (c : ascii) : option Z :=
  let n := nat_of_ascii c in
  if (48 <=? n)%nat && (n <=? 57)%nat then Some (Z.of_nat n - 48) else None.

(** The digits of a base-10 literal, read from the left: single
    underscores may separate digits. [after_digit] tells whether the
    character before was a digit. *)
Fixpoint int_digits (acc : Z) (after_digit : bool) (s : string) : option Z :=
  match s with
  | EmptyString => if after_digit then Some acc else None
  | String c s' =>
      match digit_value c with
      | Some d => int_digits (10 * acc + d) true s'
      | None =>
          if bool_decide (c = "_"%char) && after_digit
          then int_digits acc false s'
          else None
      end
  end.

(** The number of digit characters of [s]: what the limit of [int] on the
    length of a literal counts. *)
Fixpoint count_digits (s : string) : nat :=
  match s with
  | EmptyString => 0
  | String c s' => (if digit_value c is Some _ then 1 else 0) + count_digits s'
  end.

(** [s.endswith(c)] for a one-character suffix. *)
Fixpoint endswith_c (c : ascii) (s : string) : bool :=
  match s with
  | EmptyString => false
  | String c' s' =>
      match s' with
      | EmptyString => bool_decide (c' = c)
      | String _ _ => endswith_c c s'
      end
  end.

(** [s[:-1]] *)
Fixpoint drop_last (s : string) : string :=
  match s with
  | EmptyString => EmptyString
  | String c s' =>
      match s' with
      | EmptyString => EmptyString
      | String _ _ => String c (drop_last s')
      end
  end.

(** The whitespace [int] skips around an ASCII literal: TAB, LF, VT, FF,
    CR and SPACE. Unlike [str.strip], it does not skip the separators FS,
    GS, RS and US. *)
Definition int_isspace (c : ascii) : bool :=
  let n := nat_of_ascii c in
  ((9 <=? n)%nat && (n <=? 13)%nat) || (n =? 32)%nat.

Fixpoint int_lstrip (s : string) : string :=
  match s with
  | EmptyString => EmptyString
  | String c s' => if int_isspace c then int_lstrip s' else s
  end.

Fixpoint int_rstrip (s : string) : string :=
  match s with
  | EmptyString => EmptyString
  | String c s' =>
      match int_rstrip s' with
      | EmptyString => if int_isspace c then EmptyString else String c EmptyString
      | r => String c r
      end
  end.

(** [int(s)] for a [str], in base 10: whitespace around the literal is
    skipped, a sign may come first, single underscores may separate
    digits, and a literal of more than 4300 digits is refused. [None]
    where Python raises [ValueError]. *)
Definition int_of_str (s : string) : option Z :=
  let t := int_rstrip (int_lstrip s) in
  let '(negative, body) :=
    match t with
    | String c r =>
        if bool_decide (c = "-"%char) then (true, r)
        else if bool_decide (c = "+"%char) then (false, r)
        else (false, t)
    | EmptyString => (false, t)
    end in
  if (4300 <? count_digits body)%nat then None
  else (fun v => if negative then - v else v) <$> int_digits 0 false body.

(** [_parse_duration]: a duration such as ['2m'], ['90s'], ['1m30s'] in
    seconds. [None] where [int] raises [ValueError]; the lookup
    [parts[1]] cannot fail, since ["m"] is in [s]. *)
Definition _parse_duration (s : string) : option Z :=
  let s := Py.lower (Py.strip s) in
  if endswith_c "s" s && negb (Py.contains_c "m" s) then int_of_str (drop_last s)
  else if endswith_c "m" s && negb (Py.contains_c "s" s) then
    n ← int_of_str (drop_last s); Some (n * 60)
  else if Py.contains_c "m" s then
    let parts := Py.split_on "m" s in
    p0 ← parts !! 0%nat;
    n ← int_of_str p0;
    let total := 0 + n * 60 in
    rest ← parts !! 1%nat;
    let rest := if endswith_c "s" rest then drop_last rest else rest in
    if truthy rest then r ← int_of_str rest; Some (total + r)
    else Some total
  else int_of_str s.

(* ===================================================================== *)
(** * subtitles.py, captions from plain text                              *)
(* ===================================================================== *)

(** Body of [for line in full_text.strip().split("\n")]; [line.index("]")]
    finds the bracket that [is_tag_line] saw. *)
Definition sentence_step (sentences : list string) (line : string) : list string :=
  let line := Py.strip line in
  if negb (truthy line) then sentences
  else
    let line :=
      if is_tag_line line then
        match Py.index_c "]" line with
        | Some i => Py.strip (Py.drop (i + 1) line)
        | None => line
        end
      else line in
    if truthy line then sentences ++ [line] else sentences.

(** The [sentences] of [generate_srt_from_text]. *)
Definition sentences_of (full_text : string) : list string :=
  fold_left sentence_step (Py.split_on "010" (Py.strip full_text)) [].

(** Body of [for j, chunk in enumerate(chunks)]. *)
Definition text_chunk (start end_ ms_per_sentence : Z) (n_chunks : nat)
    (entries : list CaptionEntry) (jc : nat * string) : list CaptionEntry :=
  let '(j, chunk) := jc in
  let chunk_start :=
    start + Z.of_nat j * (ms_per_sentence / Z.max (Z.of_nat n_chunks) 1) in
  let chunk_end :=
    if Z.of_nat j =? Z.of_nat n_chunks - 1 then end_
    else start + (Z.of_nat j + 1) * (ms_per_sentence / Z.max (Z.of_nat n_chunks) 1) in
  entries ++ [mkEntry (Z.of_nat (length entries) + 1) chunk_start chunk_end chunk].

(** Body of [for i, sentence in enumerate(sentences)]. *)
Definition text_sentence (ms_per_sentence : Z) (entries : list CaptionEntry)
    (isent : nat * string) : list CaptionEntry :=
  let '(i, sentence) := isent in
  let start := Z.of_nat i * ms_per_sentence in
  let end_ := (Z.of_nat i + 1) * ms_per_sentence - 100 in
  let chunks := _split_long_text sentence 80 in
  fold_left (text_chunk start end_ ms_per_sentence (length chunks)) (enumerate chunks)
            entries.

(** The entries [generate_srt_from_text] formats when there is at least
    one sentence. *)
Definition text_entries (sentences : list string) (total_duration_ms : Z)
  : list CaptionEntry :=
  let ms_per_sentence := total_duration_ms / Z.of_nat (length sentences) in
  fold_left (text_sentence ms_per_sentence) (enumerate sentences) [].


(* ===================================================================== *)
(** * Vocabulary of the further properties                                *)
(* ===================================================================== *)

(** The first character of [s] is not whitespace ([s] is not empty). *)
Definition head_nonspace (s : string) : bool :=
  match s with
  | EmptyString => false
  | String c _ => negb (Py.isspace c)
  end.

(** The last character of [s] is not whitespace; [prev] answers for the
    empty string. *)
Fixpoint last_nonspace (prev : bool) (s : string) : bool :=
  match s with
  | EmptyString => prev
  | String c s' => last_nonspace (negb (Py.isspace c)) s'
  end.

(** A line of text as [parse_script] keeps it: not empty, no line break
    inside, no whitespace at either end. *)
Definition plain_line (l : string) : Prop :=
  l ≠ "" ∧ Py.strip l = l ∧ Py.contains_c "010" l = false.

(** One speaker turn of a tagged script: the tag line [[speaker] first]
    and the untagged lines that continue it. *)
Record Turn : Type := mkTurn {
  turn_speaker : string;
  turn_first : string;
  turn_more : list string;
}.

(** The lines of a turn as the script spells them. *)
Definition turn_lines (t : Turn) : list string :=
  ("[" +:+ turn_speaker t +:+ "] " +:+ turn_first t) :: turn_more t.

(** The script that spells the turns out, one line after the other. *)
Definition script_of (turns : list Turn) : string :=
  Py.join nl (turns ≫= turn_lines).

(** The segment a turn stands for. *)
Definition turn_segment (t : Turn) : segment :=
  mk_segment (turn_speaker t) (Py.join " " (turn_first t :: turn_more t)).

(** A turn whose lines come back unchanged from the parser: plain lines,
    no closing bracket in the speaker, no continuation line that looks
    like a tag. *)
Definition well_formed_turn (t : Turn) : Prop :=
  plain_line (turn_speaker t)
  ∧ Py.contains_c "]" (turn_speaker t) = false
  ∧ plain_line (turn_first t)
  ∧ Forall (fun l => plain_line l ∧ is_tag_line l = false) (turn_more t).

(** What [parse_script] promises of a segment it returns. *)
Definition parsed_segment (seg : segment) : Prop :=
  ∃ sp text, seg = mk_segment sp text
             ∧ sp ≠ "" ∧ text ≠ "" ∧ Py.strip sp = sp ∧ Py.strip text = text.

(** The state the scan of [parse_script] starts from. *)
Definition st0 : parse_state :=
  {| segments := []; current_speaker := None; current_text := [] |}.

(** The state of the scan inside turn [t], with [segs] flushed before. *)
Definition in_turn (segs : list segment) (t : Turn) (seen : list string) : parse_state :=
  {| segments := segs; current_speaker := Some (turn_speaker t);
     current_text := turn_first t :: seen |}.

(** The invariant of the scan in [parse_script]. *)
Definition scan_ok (st : parse_state) : Prop :=
  Forall parsed_segment (segments st)
  ∧ (∀ sp, current_speaker st = Some sp → Py.strip sp = sp)
  ∧ Forall (fun l => l ≠ "" ∧ Py.strip l = l) (current_text st).

(** The speakers of [n] lines that take the roles in turn. *)
Definition roles_in_turn (roles : list string) (n : nat) : list string :=
  (fun i => default "" (roles !! (i `mod` length roles)%nat)) <$> seq 0 n.

(** The number of lines of the demo script. *)
Definition demo_lines (f : Format) : nat :=
  match f with MONOLOGUE => 11 | NEWS_RECAP => 13 | _ => 14 end.

(** Every character is a decimal digit. *)
Fixpoint all_digits (s : string) : bool :=
  match s with
  | EmptyString => true
  | String c s' => bool_decide (is_Some (digit_value c)) && all_digits s'
  end.

(** No whitespace and no upper-case letter. *)
Fixpoint plain_chars (s : string) : bool :=
  match s with
  | EmptyString => true
  | String c s' => negb (Py.isspace c) && negb (Py.isupper c) && plain_chars s'
  end.

(** Every character of [s] passes [f]. *)
Fixpoint all_chars (f : ascii -> bool) (s : string) : bool :=
  match s with
  | EmptyString => true
  | String c s' => f c && all_chars f s'
  end.

(** A letter, a digit, a hyphen or an underscore. *)
Definition safe_char (c : ascii) : bool :=
  Py.isalnum_c c || bool_decide (c = "-"%char) || bool_decide (c = "_"%char).


(** A relative POSIX path in the form [pathlib] prints it: components
    separated by single [/], none of them empty or [.]. *)
Definition relative_normal (s : string) : bool :=
  forallb (fun c => negb (bool_decide (c = "")) && negb (bool_decide (c = ".")))
          (Py.split_on "/" s).

(** A directory string that [str(Path(d))] gives back unchanged and to
    which [/] appends a plain name after one [/]: [.], a relative path in
    normal form, or [/] followed by one. *)
Definition normal_dir (d : string) : bool :=
  bool_decide (d = ".") || relative_normal d
  || match d with
     | String c r => bool_decide (c = "/"%char) && relative_normal r
     | EmptyString => false
     end.


(** The characters [_run_pipeline] keeps of the topic. *)
Definition kept_char (c : ascii) : bool :=
  Py.isalnum_c c || bool_decide (c = " "%char) || bool_decide (c = "-"%char)
  || bool_decide (c = "_"%char).


(** The topic a run works with: the argument, else the configured one. *)
Definition run_config (self_config : PodclawConfig) (topic_arg : option string)
  : PodclawConfig :=
  if opt_truthy topic_arg then with_topic (default "" topic_arg) self_config
  else self_config.

(** A run in which nothing fails, on the script [[A] hi]. *)
Definition calm_run : trace * result Manifest :=
  generate (calm_world 1000) default_config (Some "x") (Some "[A] hi")
    (caller_progress (calm_world 1000) true) [].

(** What that run returns. *)
Definition calm_manifest : Manifest :=
  {| video := "podclaw_x.mp4"; audio := "podclaw_x.mp3";
     subtitles := "podclaw_x.srt"; script := "podclaw_x_script.txt";
     background := "podclaw_x_bg.png";
     manifest_duration_seconds := (inject_Z 1000 / 1000)%Q; segment_count := 1 |}.



(** The computation returns from every point of a run, with a value that
    satisfies [P]. *)
Definition returns {A} (m : M A) (P : A → Prop) : Prop :=
  ∀ tr, ∃ tr' a, m tr = (tr', Ok a) ∧ P a.

(** A segment as [assign_voices] leaves a parsed one: speaker, text and
    voice. *)
Definition voiced (seg : segment) : Prop :=
  ∃ speaker text v, seg = <["voice" := VVoice v]> (mk_segment speaker text).

(** The call passes the first check of [generate]. *)
Definition has_subject (config : PodclawConfig) (script_arg : option string) : Prop :=
  topic config ≠ "" ∨ opt_truthy script_arg = true
  ∨ opt_truthy (custom_script config) = true.

(** The lines of a turn as they are shown: the tag is gone. *)
Definition turn_texts (t : Turn) : list string := turn_first t :: turn_more t.

(** The entry of a sentence that fits one caption. *)
Definition sentence_entry (ms_per_sentence : Z) (isent : nat * string) : CaptionEntry :=
  mkEntry (Z.of_nat isent.1 + 1)
          (Z.of_nat isent.1 * ms_per_sentence)
          ((Z.of_nat isent.1 + 1) * ms_per_sentence - 100)
          isent.2.


(** A chunk that fits the line, or a single word, which is never cut. *)
Definition fits (max_chars : Z) (chunk : string) : Prop :=
  Py.len chunk ≤ max_chars ∨ is_word chunk = true.

(** The invariant of the loop of [_split_long_text]: [current_len] is no
    less than the length of the joined [current], and it respects the
    limit once [current] holds two words. *)
Definition wrap_ok (max_chars : Z) (st : wrap_state) : Prop :=
  Forall (fits max_chars) (lines st)
  ∧ Forall (fun w => is_word w = true) (current st)
  ∧ Py.len (Py.join " " (current st)) ≤ current_len st
  ∧ ((2 ≤ length (current st))%nat → current_len st ≤ max_chars).

(* ===================================================================== *)
(** * Properties                                                          *)
(* ===================================================================== *)

Section strings.

Lemma sapp_nil_l (s : string) : "" +:+ s = s.
Proof. reflexivity. Qed.

Lemma sapp_cons (c : ascii) (s t : string) : String c s +:+ t = String c (s +:+ t).
Proof. reflexivity. Qed.

Lemma sapp_assoc (s t u : string) : (s +:+ t) +:+ u = s +:+ (t +:+ u).
Proof.
  induction s as [|c s IH]; [done|].
  by rewrite !sapp_cons, IH.
Qed.

Lemma join_cons_cons (sep x y : string) (l : list string) :
  Py.join sep (x :: y :: l) = x +:+ sep +:+ Py.join sep (y :: l).
Proof. reflexivity. Qed.

Lemma join_app (sep : string) (l1 l2 : list string) :
  l1 ≠ [] → l2 ≠ [] →
  Py.join sep (l1 ++ l2) = Py.join sep l1 +:+ sep +:+ Py.join sep l2.
Proof.
  intros H1 H2. induction l1 as [|x [|y l1] IH]; [done| |].
  - destruct l2 as [|z l2]; [done|]. reflexivity.
  - change ((x :: y :: l1) ++ l2) with (x :: y :: (l1 ++ l2)).
    rewrite !join_cons_cons. change (y :: l1 ++ l2) with ((y :: l1) ++ l2).
    rewrite IH by done. by rewrite !sapp_assoc.
Qed.

Lemma join_concat (sep : string) (gs : list (list string)) :
  Forall (fun g => g ≠ []) gs →
  Py.join sep (Py.join sep <$> gs) = Py.join sep (concat gs).
Proof.
  induction 1 as [|g gs Hg Hgs IH]; [done|].
  destruct gs as [|g' gs].
  - simpl. by rewrite app_nil_r.
  - change (Py.join sep <$> g :: g' :: gs)
      with (Py.join sep g :: Py.join sep g' :: (Py.join sep <$> gs)).
    rewrite join_cons_cons.
    change (Py.join sep g' :: (Py.join sep <$> gs)) with (Py.join sep <$> g' :: gs).
    rewrite IH. change (concat (g :: g' :: gs)) with (g ++ concat (g' :: gs)).
    rewrite join_app; [done|done|].
    inversion Hgs as [|? ? Hg' _]; subst. destruct g'; [done|]. done.
Qed.

Lemma split_cons_space (c : ascii) (s : string) :
  Py.isspace c = true → Py.split (String c s) = Py.split s.
Proof. intros H. simpl. by rewrite H. Qed.

Lemma split_is_word (s : string) : Forall (fun w => is_word w = true) (Py.split s).
Proof.
  induction s as [|c s IH]; [constructor|].
  simpl. destruct (Py.isspace c) eqn:Hc; [done|].
  destruct s as [|c' s'].
  - constructor; [|constructor]. unfold is_word. simpl. by rewrite Hc.
  - destruct (Py.isspace c') eqn:Hc'.
    + constructor; [|done]. unfold is_word. simpl. by rewrite Hc.
    + destruct (Py.split (String c' s')) as [|w ws].
      * constructor; [|constructor]. unfold is_word. simpl. by rewrite Hc.
      * inversion IH as [|? ? Hw Hws]; subst. constructor; [|done].
        unfold is_word in *. simpl. rewrite Hc. simpl.
        apply andb_true_iff in Hw as [_ Hw]. done.
Qed.

Lemma split_word_then (w rest : string) (c : ascii) :
  is_word w = true → Py.isspace c = true →
  Py.split (w +:+ String c rest) = w :: Py.split rest.
Proof.
  intros Hw Hc. induction w as [|a w IH]; [done|].
  unfold is_word in Hw. simpl in Hw. apply andb_true_iff in Hw as [Ha Hw].
  apply negb_true_iff in Ha.
  rewrite sapp_cons. destruct w as [|b w].
  - rewrite sapp_nil_l. simpl. rewrite Ha, Hc. done.
  - simpl in Hw. pose proof Hw as Hw'. apply andb_true_iff in Hw' as [Hb _].
    apply negb_true_iff in Hb.
    assert (Hbw : is_word (String b w) = true) by (unfold is_word; simpl; done).
    specialize (IH Hbw). rewrite sapp_cons in *.
    change (Py.split (String a (String b (w +:+ String c rest))))
      with (if Py.isspace a then Py.split (String b (w +:+ String c rest))
            else if Py.isspace b then String a "" :: Py.split (String b (w +:+ String c rest))
            else match Py.split (String b (w +:+ String c rest)) with
                 | w0 :: ws => String a w0 :: ws
                 | [] => [String a ""]
                 end).
    rewrite Ha, Hb, IH. done.
Qed.

Lemma split_word (w : string) : is_word w = true → Py.split w = [w].
Proof.
  intros Hw. induction w as [|a w IH]; [done|].
  unfold is_word in Hw. simpl in Hw. apply andb_true_iff in Hw as [Ha Hw].
  apply negb_true_iff in Ha.
  destruct w as [|b w].
  - simpl. by rewrite Ha.
  - simpl in Hw. pose proof Hw as Hw'. apply andb_true_iff in Hw' as [Hb _].
    apply negb_true_iff in Hb.
    assert (Hbw : is_word (String b w) = true) by (unfold is_word; simpl; done).
    specialize (IH Hbw).
    change (Py.split (String a (String b w)))
      with (if Py.isspace a then Py.split (String b w)
            else if Py.isspace b then String a "" :: Py.split (String b w)
            else match Py.split (String b w) with
                 | w0 :: ws => String a w0 :: ws
                 | [] => [String a ""]
                 end).
    rewrite Ha, Hb, IH. done.
Qed.

Lemma split_join (ws : list string) :
  Forall (fun w => is_word w = true) ws → Py.split (Py.join " " ws) = ws.
Proof.
  induction 1 as [|w ws Hw Hws IH]; [done|].
  destruct ws as [|w' ws].
  - by apply split_word.
  - rewrite join_cons_cons.
    change (" " +:+ Py.join " " (w' :: ws)) with (String " " (Py.join " " (w' :: ws))).
    rewrite split_word_then; [|done|done]. by rewrite IH.
Qed.

End strings.

Section wrapping.

Lemma nonempty_true {A} (l : list A) : nonempty l = true ↔ l ≠ [].
Proof. destruct l; simpl; split; congruence. Qed.

(** The loop of [_split_long_text] only ever closes non-empty groups of
    consecutive words, and loses none. *)
Lemma wrap_fold_groups (max_chars : Z) (ws : list string) :
  ∀ (gs : list (list string)) (cur : list string) (n : Z),
    Forall (fun g => g ≠ []) gs →
    ∃ gs' cur' n',
      fold_left (wrap_step max_chars) ws (mkWrap (Py.join " " <$> gs) cur n)
      = mkWrap (Py.join " " <$> gs') cur' n'
      ∧ Forall (fun g => g ≠ []) gs'
      ∧ concat gs' ++ cur' = concat gs ++ cur ++ ws.
Proof.
  induction ws as [|w ws IH]; intros gs cur n Hgs.
  - exists gs, cur, n. by rewrite app_nil_r.
  - simpl. unfold wrap_step at 2. simpl.
    destruct ((n + Py.len w + 1 >? max_chars) && nonempty cur) eqn:Hc.
    + apply andb_true_iff in Hc as [_ Hcur]. apply nonempty_true in Hcur.
      replace ((Py.join " " <$> gs) ++ [Py.join " " cur])
        with (Py.join " " <$> (gs ++ [cur])) by by rewrite fmap_app.
      destruct (IH (gs ++ [cur]) [w] (Py.len w)) as (gs' & cur' & n' & -> & Hgs' & Heq).
      { apply Forall_app. split; [done|]. by constructor. }
      exists gs', cur', n'. split; [done|]. split; [done|].
      rewrite Heq, concat_app. simpl. by rewrite app_nil_r, <- !app_assoc.
    + destruct (IH gs (cur ++ [w]) (n + Py.len w + 1)) as (gs' & cur' & n' & -> & Hgs' & Heq);
        [done|].
      exists gs', cur', n'. split; [done|]. split; [done|].
      by rewrite Heq, <- !app_assoc.
Qed.

Lemma split_long_text_groups (text : string) (max_chars : Z) :
  max_chars < Py.len text →
  ∃ groups, _split_long_text text max_chars = Py.join " " <$> groups
            ∧ Forall (fun g => g ≠ []) groups
            ∧ concat groups = Py.split text.
Proof.
  intros Hlong. unfold _split_long_text.
  destruct (Py.len text <=? max_chars) eqn:Hle; [apply Z.leb_le in Hle; lia|].
  destruct (wrap_fold_groups max_chars (Py.split text) [] [] 0)
    as (gs & cur & n & Hfold & Hgs & Heq); [constructor|].
  change (Py.join " " <$> []) with (@nil string) in Hfold. rewrite Hfold.
  unfold wrap_finish. simpl in *.
  destruct cur as [|w cur]; simpl.
  - exists gs. by rewrite app_nil_r in Heq.
  - exists (gs ++ [w :: cur]). rewrite fmap_app. split; [done|]. split.
    + apply Forall_app. split; [done|]. by constructor.
    + rewrite concat_app. simpl. by rewrite app_nil_r.
Qed.

Lemma bind_split_join_groups (groups : list (list string)) :
  Forall (fun w => is_word w = true) (concat groups) →
  (Py.join " " <$> groups) ≫= Py.split = concat groups.
Proof.
  induction groups as [|g gs IH]; [done|].
  change (concat (g :: gs)) with (g ++ concat gs). intros H.
  apply Forall_app in H as [Hg Hgs].
  rewrite fmap_cons, bind_cons, split_join by done. by rewrite IH.
Qed.

(** Claim C10. For every text and every [max_chars], the chunks of
    [_split_long_text] hold exactly the words of the text, in order, none
    lost, duplicated or split: splitting the chunks on whitespace gives
    back the text's words. A text no longer than [max_chars] is returned
    as the single chunk equal to itself. A longer text is cut into
    non-empty groups of consecutive words, each chunk the single-space
    join of its group, so that joining the chunks with single spaces gives
    the single-space join of the words; the chunk list is then empty
    exactly when the text has no word. *)
Theorem split_long_text_preserves_words (text : string) (max_chars : Z) :
  _split_long_text text max_chars ≫= Py.split = Py.split text
  ∧ (Py.len text <= max_chars → _split_long_text text max_chars = [text])
  ∧ (max_chars < Py.len text →
       Py.join " " (_split_long_text text max_chars) = Py.join " " (Py.split text)
       ∧ (∃ groups, _split_long_text text max_chars = Py.join " " <$> groups
                    ∧ Forall (fun g => g ≠ []) groups
                    ∧ concat groups = Py.split text)
       ∧ (_split_long_text text max_chars = [] ↔ Py.split text = [])).
Proof.
  assert (Hshort : Py.len text <= max_chars → _split_long_text text max_chars = [text]).
  { intros H. unfold _split_long_text. apply Z.leb_le in H. by rewrite H. }
  split; [|split; [done|]].
  - destruct (Z_le_gt_dec (Py.len text) max_chars) as [H|H].
    + rewrite Hshort by done. simpl. by rewrite app_nil_r.
    + destruct (split_long_text_groups text max_chars) as (gs & -> & Hgs & Heq); [lia|].
      rewrite bind_split_join_groups; [done|]. rewrite Heq. apply split_is_word.
  - intros H. destruct (split_long_text_groups text max_chars) as (gs & Hs & Hgs & Heq); [lia|].
    split; [|split].
    + rewrite Hs, join_concat by done. by rewrite Heq.
    + by exists gs.
    + rewrite Hs, <- Heq. split.
      * intros Hnil. apply fmap_nil_inv in Hnil. by subst.
      * intros Hnil. destruct gs as [|g gs]; [done|].
        inversion Hgs; subst. simpl in Hnil. destruct g; [done|]. done.
Qed.

Lemma split_long_text_preserves_words_witness :
  _split_long_text "a  b c" 3 = ["a"; "b c"]
  ∧ Py.join " " (_split_long_text "a  b c" 3) = Py.join " " (Py.split "a  b c")
  ∧ _split_long_text "a  b c" 6 = ["a  b c"].
Proof.
  destruct (split_long_text_preserves_words "a  b c" 3) as (_ & _ & H3).
  destruct (split_long_text_preserves_words "a  b c" 6) as (_ & H6 & _).
  split; [reflexivity|]. split.
  - apply H3. vm_compute. reflexivity.
  - apply H6. vm_compute. discriminate.
Defined.

Lemma split_long_text_counterexample :
  _split_long_text "   " 2 = []
  ∧ Py.len "a  b" <= 80
  ∧ Py.join " " (_split_long_text "a  b" 80) ≠ Py.join " " (Py.split "a  b").
Proof. split; [reflexivity|]. split; [by vm_compute|]. vm_compute. discriminate. Qed.

End wrapping.

Section captions.

Lemma bind_Ok {A B} (a : A) (k : A → result B) : (Ok a ≫= k) = k a.
Proof. reflexivity. Qed.

Lemma bind_Raise {A B} (e : exn) (k : A → result B) : (Raise e ≫= k) = Raise e.
Proof. reflexivity. Qed.

Lemma rfold_cons {A B} (f : B → A → result B) (acc : B) (x : A) (l : list A) :
  rfold f acc (x :: l) = f acc x ≫= (fun acc' => rfold f acc' l).
Proof. reflexivity. Qed.

Lemma emit_chunk_fold (timing : Timing) (mpc : Z) (n : nat) (cs : list string) :
  ∀ (i0 : nat) (es : list CaptionEntry) (idx : Z),
    fold_left (emit_chunk timing mpc n) (zip (seq i0 (length cs)) cs) (es, idx)
    = (es ++ imap (fun k chunk =>
                     mkEntry (idx + Z.of_nat k)
                       (start_ms timing + Z.of_nat (i0 + k) * mpc)
                       (if Z.of_nat (i0 + k) =? Z.of_nat n - 1 then end_ms timing
                        else start_ms timing + (Z.of_nat (i0 + k) + 1) * mpc)
                       chunk) cs,
       idx + Z.of_nat (length cs)).
Proof.
  induction cs as [|c cs IH]; intros i0 es idx.
  - simpl. rewrite app_nil_r. f_equal. lia.
  - change (zip (seq i0 (length (c :: cs))) (c :: cs))
      with ((i0, c) :: zip (seq (S i0) (length cs)) cs).
    change (fold_left ?f (?x :: ?l) ?a) with (fold_left f l (f a x)).
    unfold emit_chunk at 2. rewrite IH, imap_cons, <- app_assoc.
    change (length (c :: cs)) with (S (length cs)).
    f_equal; [|lia]. f_equal. change ([?x] ++ ?l) with (x :: l). f_equal.
    + f_equal; [lia|f_equal; f_equal; lia|].
      replace (Z.of_nat (i0 + 0)) with (Z.of_nat i0) by lia. done.
    + apply imap_ext. intros k x _. cbv beta. unfold compose.
      replace (idx + 1 + Z.of_nat k) with (idx + Z.of_nat (S k)) by lia.
      by replace (S i0 + k)%nat with (i0 + S k)%nat by lia.
Qed.

Lemma emit_segment_block max_chars show es idx seg timing text :
  display_text show seg = Ok text →
  emit_segment max_chars show (es, idx) (seg, timing)
  = Ok (es ++ segment_block timing idx (_split_long_text text max_chars),
        idx + Z.of_nat (length (_split_long_text text max_chars))).
Proof.
  intros Ht. unfold emit_segment. rewrite Ht. simpl.
  unfold enumerate. rewrite emit_chunk_fold. done.
Qed.

Lemma emit_segment_inv max_chars show st seg timing st' :
  emit_segment max_chars show st (seg, timing) = Ok st' →
  ∃ text, display_text show seg = Ok text
          ∧ st' = (st.1 ++ segment_block timing st.2 (_split_long_text text max_chars),
                   st.2 + Z.of_nat (length (_split_long_text text max_chars))).
Proof.
  destruct st as [es idx]. intros H.
  destruct (display_text show seg) as [text|e] eqn:Ht.
  - exists text. split; [done|]. erewrite emit_segment_block in H by done. by inversion H.
  - unfold emit_segment in H. rewrite Ht in H. done.
Qed.

Lemma segment_block_length timing idx chunks :
  length (segment_block timing idx chunks) = length chunks.
Proof. unfold segment_block. by rewrite length_imap. Qed.

Lemma segment_block_lookup timing idx chunks (k : nat) chunk :
  chunks !! k = Some chunk →
  segment_block timing idx chunks !! k
  = Some (mkEntry (idx + Z.of_nat k)
            (start_ms timing + Z.of_nat k *
               ((end_ms timing - start_ms timing) / Z.max (Z.of_nat (length chunks)) 1))
            (if Z.of_nat k =? Z.of_nat (length chunks) - 1 then end_ms timing
             else start_ms timing + (Z.of_nat k + 1) *
               ((end_ms timing - start_ms timing) / Z.max (Z.of_nat (length chunks)) 1))
            chunk).
Proof. intros H. unfold segment_block. rewrite list_lookup_imap, H. done. Qed.

Lemma numbered_block timing es idx chunks :
  numbered (es, idx) →
  numbered (es ++ segment_block timing idx chunks, idx + Z.of_nat (length chunks)).
Proof.
  intros [Hidx Hes]. simpl in *. split; simpl.
  - rewrite length_app, segment_block_length. lia.
  - intros j e Hj. apply lookup_app_Some in Hj as [Hj|[Hge Hj]]; [by apply Hes|].
    unfold segment_block in Hj. rewrite list_lookup_imap in Hj.
    destruct (chunks !! (j - length es)%nat); [|done]. simpl in Hj.
    inversion Hj; subst. simpl. lia.
Qed.

(** The whole loop of [generate_srt]: one block per (segment, timing) pair,
    in order, numbered by one running counter. *)
Lemma emit_segments_blocks max_chars show (pairs : list (segment * Timing)) :
  ∀ st st',
    rfold (emit_segment max_chars show) st pairs = Ok st' →
    numbered st →
    numbered st'
    ∧ ∃ blocks : list (list CaptionEntry),
        st'.1 = st.1 ++ concat blocks
        ∧ length blocks = length pairs
        ∧ ∀ (i : nat) seg timing, pairs !! i = Some (seg, timing) →
            ∃ text, display_text show seg = Ok text
              ∧ blocks !! i
                = Some (segment_block timing
                          (st.2 + Z.of_nat (length (concat (take i blocks))))
                          (_split_long_text text max_chars)).
Proof.
  induction pairs as [|[seg timing] pairs IH]; intros st st' Hrun Hnum.
  - simpl in Hrun. inversion Hrun; subst. split; [done|].
    exists []. simpl. rewrite app_nil_r. split; [done|]. split; [done|]. intros i ? ? Hi. by destruct i.
  - rewrite rfold_cons in Hrun.
    destruct (emit_segment max_chars show st (seg, timing)) as [st1|e] eqn:Hstep; [|done].
    rewrite bind_Ok in Hrun.
    apply emit_segment_inv in Hstep as (text & Ht & ->).
    destruct st as [es idx]. simpl in *.
    apply IH in Hrun as (Hnum' & blocks & Hes & Hlen & Hblocks); [|by apply numbered_block].
    split; [done|]. simpl in *.
    exists (segment_block timing idx (_split_long_text text max_chars) :: blocks).
    split; [|split].
    + rewrite Hes. simpl. by rewrite <- app_assoc.
    + simpl. by rewrite Hlen.
    + intros [|i] seg' timing' Hi; simpl in *.
      * inversion Hi; subst. exists text. split; [done|]. by rewrite Z.add_0_r.
      * destruct (Hblocks i seg' timing' Hi) as (text' & Ht' & Hb).
        exists text'. split; [done|]. rewrite Hb. do 2 f_equal.
        rewrite length_app, segment_block_length. lia.
Qed.

Lemma rfold_total {A B} (f : B → A → result B) (P : A → Prop) (l : list A) :
  (∀ b a, P a → ∃ b', f b a = Ok b') →
  Forall P l → ∀ b, ∃ b', rfold f b l = Ok b'.
Proof.
  intros Hf. induction 1 as [|a l Ha _ IH]; intros b; [by eexists|].
  rewrite rfold_cons. destruct (Hf b a Ha) as [b' ->]. apply IH.
Qed.

End captions.

Section captions_main.

Lemma display_text_total show seg :
  has_text show seg → ∃ text, display_text show seg = Ok text.
Proof.
  intros [[t Ht] Hs]. unfold display_text, getitem_str, getitem. rewrite Ht.
  rewrite bind_Ok. rewrite bind_Ok. destruct show; [|by eexists].
  destruct Hs as [s Hsp]; [done|]. rewrite Hsp, !bind_Ok. by eexists.
Qed.

Lemma caption_entries_total segs timings max_chars show :
  Forall (has_text show) segs →
  ∃ es, caption_entries segs timings max_chars show = Ok es.
Proof.
  intros Hsegs. unfold caption_entries.
  destruct (rfold_total (emit_segment max_chars show)
              (fun p : segment * Timing => has_text show p.1) (zip segs timings))
    with (b := (@nil CaptionEntry, 1)) as [st Hst].
  - intros [es idx] [seg timing] Hp. simpl in Hp.
    destruct (display_text_total _ _ Hp) as [text Ht].
    erewrite emit_segment_block by done. by eexists.
  - apply Forall_forall. intros [seg timing] Hin.
    apply elem_of_zip_l in Hin. simpl. by eapply Forall_forall in Hsegs.
  - rewrite Hst, bind_Ok. by eexists.
Qed.

(** Claim C1. When every segment holds its text, [generate_srt] emits
    its entries, and they are exactly the blocks of the segments one after
    the other: one block per (segment, timing) pair, in order, and nothing
    else. The entry at position [j] carries index [j + 1], one counter for
    the whole sequence, so entry [k] of the block of segment [i] carries
    the number of entries of all earlier blocks plus [k + 1]. The segment
    at position [i], with timing [start_ms, end_ms) and text wrapped into
    [C] chunks, has a block of [C] entries; with
    [ms_per_chunk = (end_ms - start_ms) // max(C, 1)], entry [k] of the
    block starts at [start_ms + k * ms_per_chunk] and ends at
    [start_ms + (k + 1) * ms_per_chunk], except that the last ends at
    [end_ms]. So the block starts at [start_ms], ends at [end_ms], and each
    entry ends where the next starts: no gap, no overlap. When
    [start_ms <= end_ms] no entry ends before it starts, and when
    [C <= end_ms - start_ms] every entry is strictly longer than zero, so
    the start times increase strictly. *)
Theorem generate_srt_chunk_timing
    (segs : list segment) (timings : list Timing) (max_chars : Z) (show : bool) :
  Forall (has_text show) segs →
  ∃ es blocks,
    caption_entries segs timings max_chars show = Ok es
    ∧ es = concat blocks
    ∧ length blocks = Nat.min (length segs) (length timings)
    ∧ (∀ (j : nat) e, es !! j = Some e → entry_index e = Z.of_nat j + 1)
    ∧ ∀ (i : nat) seg timing,
        segs !! i = Some seg → timings !! i = Some timing →
        ∃ text block,
          display_text show seg = Ok text
          ∧ blocks !! i = Some block
          ∧ length block = length (_split_long_text text max_chars)
          ∧ let chunks := _split_long_text text max_chars in
            let C := Z.of_nat (length chunks) in
            let ms_per_chunk := (end_ms timing - start_ms timing) / Z.max C 1 in
            (∀ (k : nat) chunk, chunks !! k = Some chunk →
               ∃ e, block !! k = Some e
                    ∧ entry_text e = chunk
                    ∧ entry_index e
                      = Z.of_nat (length (concat (take i blocks))) + Z.of_nat k + 1
                    ∧ entry_start e = start_ms timing + Z.of_nat k * ms_per_chunk
                    ∧ entry_end e = (if Z.of_nat k =? C - 1 then end_ms timing
                                     else start_ms timing + (Z.of_nat k + 1) * ms_per_chunk))
            ∧ (∀ e, block !! 0%nat = Some e → entry_start e = start_ms timing)
            ∧ (∀ e, last block = Some e → entry_end e = end_ms timing)
            ∧ (∀ (k : nat) e e', block !! k = Some e → block !! S k = Some e' →
                 entry_end e = entry_start e')
            ∧ (start_ms timing <= end_ms timing →
                 ∀ (k : nat) e, block !! k = Some e → entry_start e <= entry_end e)
            ∧ (C <= end_ms timing - start_ms timing →
                 ∀ (k : nat) e, block !! k = Some e → entry_start e < entry_end e).
Proof.
  intros Hsegs.
  destruct (caption_entries_total segs timings max_chars show Hsegs) as [es Hes].
  pose proof Hes as Hes0.
  unfold caption_entries in Hes.
  destruct (rfold (emit_segment max_chars show) ([], 1) (zip segs timings))
    as [[es' idx]|] eqn:Hrun; [|done].
  rewrite bind_Ok in Hes. simpl in Hes. inversion Hes; subst es'. clear Hes.
  apply emit_segments_blocks in Hrun as ([_ Hnum] & blocks & Hcat & Hlen & Hblocks);
    [|split; [done|by intros []]].
  simpl in *. exists es, blocks.
  split; [done|]. split; [done|].
  split; [by rewrite Hlen, length_zip_with|]. split; [done|].
  intros i seg timing Hseg Htiming.
  assert (Hpair : zip segs timings !! i = Some (seg, timing)).
  { apply lookup_zip_with_Some. eauto. }
  destruct (Hblocks i seg timing Hpair) as (text & Ht & Hb).
  set (idx0 := 1 + Z.of_nat (length (concat (take i blocks)))) in *.
  exists text, (segment_block timing idx0 (_split_long_text text max_chars)).
  cbv zeta. set (chunks := _split_long_text text max_chars) in *.
  split; [done|]. split; [done|].
  split; [apply segment_block_length|].
  assert (Hlook : ∀ (k : nat) e, segment_block timing idx0 chunks !! k = Some e →
            (k < length chunks)%nat
            ∧ entry_start e = start_ms timing + Z.of_nat k *
                ((end_ms timing - start_ms timing) / Z.max (Z.of_nat (length chunks)) 1)
            ∧ entry_end e = (if Z.of_nat k =? Z.of_nat (length chunks) - 1 then end_ms timing
                             else start_ms timing + (Z.of_nat k + 1) *
                ((end_ms timing - start_ms timing) / Z.max (Z.of_nat (length chunks)) 1))).
  { intros k e Hk. pose proof (lookup_lt_Some _ _ _ Hk) as Hlt.
    rewrite segment_block_length in Hlt.
    destruct (lookup_lt_is_Some_2 chunks k Hlt) as [chunk Hchunk].
    rewrite (segment_block_lookup _ _ _ _ _ Hchunk) in Hk. inversion Hk; subst. done. }
  set (C := Z.of_nat (length chunks)) in *.
  set (mpc := (end_ms timing - start_ms timing) / Z.max C 1) in *.
  split; [|split; [|split; [|split; [|split]]]].
  - intros k chunk Hchunk. eexists. split; [by apply segment_block_lookup|].
    split; [done|]. split; [simpl; unfold idx0; lia|]. done.
  - intros e He. apply Hlook in He as (_ & -> & _). lia.
  - intros e He. rewrite last_lookup, segment_block_length in He.
    apply Hlook in He as (Hk & _ & ->).
    destruct (Z.eqb_spec (Z.of_nat (Nat.pred (length chunks))) (C - 1)); [done|].
    unfold C in *. lia.
  - intros k e e' He He'.
    apply Hlook in He as (_ & _ & ->). apply Hlook in He' as (Hk' & -> & _).
    destruct (Z.eqb_spec (Z.of_nat k) (C - 1)); [unfold C in *; lia|]. lia.
  - intros Hle k e He. apply Hlook in He as (Hk & -> & ->).
    assert (HC : 0 < C) by (unfold C; lia).
    assert (Hmax : Z.max C 1 = C) by lia.
    assert (Hmul : C * mpc <= end_ms timing - start_ms timing).
    { unfold mpc. rewrite Hmax. apply Z.mul_div_le. lia. }
    assert (Hpos : 0 <= mpc).
    { unfold mpc. rewrite Hmax. apply Z.div_pos; lia. }
    clearbody mpc C.
    destruct (Z.eqb_spec (Z.of_nat k) (C - 1)) as [Heq|Hne]; [|nia].
    rewrite Heq. nia.
  - intros Hle k e He. apply Hlook in He as (Hk & -> & ->).
    assert (HC : 0 < C) by (unfold C; lia).
    assert (Hmax : Z.max C 1 = C) by lia.
    assert (Hmul : C * mpc <= end_ms timing - start_ms timing).
    { unfold mpc. rewrite Hmax. apply Z.mul_div_le. lia. }
    assert (Hpos : 1 <= mpc).
    { unfold mpc. rewrite Hmax. apply Z.div_le_lower_bound; lia. }
    clearbody mpc C.
    destruct (Z.eqb_spec (Z.of_nat k) (C - 1)) as [Heq|Hne]; [|nia].
    rewrite Heq. nia.
Qed.

Lemma generate_srt_chunk_timing_witness :
  ∃ es blocks,
    caption_entries [mk_segment "HOST" "Hello there, and welcome"]
                    [mkTiming 100 1101 "a.mp3"] 12 false = Ok es
    ∧ es = concat blocks
    ∧ length blocks = 1%nat
    ∧ ∀ (j : nat) e, es !! j = Some e → entry_index e = Z.of_nat j + 1.
Proof.
  destruct (generate_srt_chunk_timing
              [mk_segment "HOST" "Hello there, and welcome"]
              [mkTiming 100 1101 "a.mp3"] 12 false) as (es & blocks & Hes & Hcat & Hlen & Hnum & _).
  - constructor; [|constructor]. split; [by eexists|]. discriminate.
  - by exists es, blocks.
Defined.

(** Claim C1, the failing case: a segment of 1 ms whose text wraps into
    two chunks at the default width. [ms_per_chunk] is 0, both entries
    start at 0 and the first one is empty: the time ranges do not increase
    strictly. *)
Lemma generate_srt_strictly_increasing_counterexample :
  ∃ e1 e2,
    caption_entries [mk_segment "HOST" two_long_words] [mkTiming 0 1 "a.mp3"] 80 false
    = Ok [e1; e2]
    ∧ length (_split_long_text two_long_words 80) = 2%nat
    ∧ ¬ (entry_start e1 < entry_start e2)
    ∧ ¬ (entry_start e1 < entry_end e1).
Proof.
  exists (mkEntry 1 0 0 "aaaaaaaaaaaaaaaaaaaaaaaaaaaaaaaaaaaaaaaaaaaaaaaaaa"),
         (mkEntry 2 0 1 "bbbbbbbbbbbbbbbbbbbbbbbbbbbbbbbbbbbbbbbbbbbbbbbbbb").
  split; [vm_compute; reflexivity|]. split; [vm_compute; reflexivity|].
  simpl. lia.
Qed.

End captions_main.

Section monad.

Lemma M_bind_run {A B} (m : M A) (k : A → M B) (tr : trace) :
  (m ≫= k) tr = match m tr with
                | (tr', Ok a) => k a tr'
                | (tr', Raise e) => (tr', Raise e)
                end.
Proof. reflexivity. Qed.

Lemma M_bind_Ok {A B} (m : M A) (k : A → M B) tr tr' a :
  m tr = (tr', Ok a) → (m ≫= k) tr = k a tr'.
Proof. intros H. by rewrite M_bind_run, H. Qed.

Lemma M_bind_Raise {A B} (m : M A) (k : A → M B) tr tr' e :
  m tr = (tr', Raise e) → (m ≫= k) tr = (tr', Raise e).
Proof. intros H. by rewrite M_bind_run, H. Qed.

Lemma M_bind_inv {A B} (m : M A) (k : A → M B) tr tr2 b :
  (m ≫= k) tr = (tr2, Ok b) →
  ∃ tr1 a, m tr = (tr1, Ok a) ∧ k a tr1 = (tr2, Ok b).
Proof.
  rewrite M_bind_run. destruct (m tr) as [tr1 [a|e]]; [|done]. eauto.
Qed.

Lemma perform_calm w o tr :
  never_raises w → perform w o tr = (tr ++ [Done o], Ok tt).
Proof. intros H. unfold perform. by rewrite H. Qed.


Lemma mfold_cons {A B} (f : B → A → M B) acc x l :
  mfold f acc (x :: l) = f acc x ≫= (fun acc' => mfold f acc' l).
Proof. reflexivity. Qed.

End monad.

Section timeline.

Lemma timeline_step_inv w gap ts cur p tr tr' st :
  timeline_step w gap (ts, cur) p tr = (tr', Ok st) →
  ∃ d, measured w p d
       ∧ st = (ts ++ [mkTiming cur (cur + d) p], cur + d + gap).
Proof.
  unfold timeline_step, _get_duration_ms. intros H.
  apply M_bind_inv in H as (tr1 & d & H1 & H2).
  apply M_bind_inv in H1 as (tr0 & [] & _ & Hobs).
  unfold observe in Hobs. inversion Hobs; subst.
  exists (duration_ms w tr1 p). split; [by exists tr1|].
  unfold mret, M_ret in H2. by inversion H2.
Qed.

Lemma timeline_loop_inv w gap (paths : list string) :
  ∀ ts cur tr tr' st,
    mfold (timeline_step w gap) (ts, cur) paths tr = (tr', Ok st) →
    ∃ ds, Forall2 (measured w) paths ds
          ∧ st.1 = ts ++ timeline_of cur gap (zip paths ds).
Proof.
  induction paths as [|p paths IH]; intros ts cur tr tr' st H.
  - exists []. split; [constructor|]. unfold mfold, mret, M_ret in H.
    inversion H; subst. simpl. by rewrite app_nil_r.
  - rewrite mfold_cons in H. apply M_bind_inv in H as (tr1 & st1 & Hstep & Hrest).
    apply timeline_step_inv in Hstep as (d & Hd & ->).
    apply IH in Hrest as (ds & Hds & ->).
    exists (d :: ds). split; [by constructor|]. simpl. by rewrite <- app_assoc.
Qed.

Lemma timeline_loop_calm w gap (paths : list string) :
  never_raises w →
  ∀ st tr, ∃ tr' st', mfold (timeline_step w gap) st paths tr = (tr', Ok st').
Proof.
  intros Hw. induction paths as [|p paths IH]; intros [ts cur] tr.
  - by eexists _, _.
  - rewrite mfold_cons.
    assert (Hstep : ∃ tr1 st1, timeline_step w gap (ts, cur) p tr = (tr1, Ok st1)).
    { unfold timeline_step, _get_duration_ms.
      rewrite M_bind_run, M_bind_run, perform_calm by done. by eexists _, _. }
    destruct Hstep as (tr1 & st1 & Hstep).
    rewrite (M_bind_Ok _ _ _ _ _ Hstep). apply IH.
Qed.

Lemma timeline_of_length cur gap pds : length (timeline_of cur gap pds) = length pds.
Proof. revert cur. induction pds as [|[p d] pds IH]; intros cur; simpl; [done|]. by rewrite IH. Qed.

(** Closed form of entry [i] of the timeline. *)
Lemma timeline_of_lookup (gap : Z) (pds : list (string * Z)) :
  ∀ (cur : Z) (i : nat) t,
    timeline_of cur gap pds !! i = Some t →
    ∃ p d, pds !! i = Some (p, d)
           ∧ path t = p
           ∧ start_ms t = cur + Zsum (take i pds.*2) + Z.of_nat i * gap
           ∧ end_ms t = start_ms t + d.
Proof.
  induction pds as [|[p d] pds IH]; intros cur i t H; [done|].
  destruct i as [|i]; simpl in H.
  - inversion H; subst. exists p, d. simpl. unfold Zsum. simpl. split; [done|]. split; [done|]. split; lia.
  - apply IH in H as (p' & d' & Hl & Hp & Hs & He).
    exists p', d'. split; [done|]. split; [done|]. split; [|done].
    rewrite Hs. change (((p, d) :: pds).*2) with (d :: pds.*2).
    change (take (S i) (d :: pds.*2)) with (d :: take i pds.*2).
    change (Zsum (d :: take i pds.*2)) with (d + Zsum (take i pds.*2)). lia.
Qed.

End timeline.

Section timeline_main.

Lemma Zsum_app l1 l2 : Zsum (l1 ++ l2) = Zsum l1 + Zsum l2.
Proof. unfold Zsum. induction l1 as [|x l1 IH]; simpl; [done|]. rewrite IH. lia. Qed.

Lemma Zsum_take_S (l : list Z) (i : nat) d :
  l !! i = Some d → Zsum (take (S i) l) = Zsum (take i l) + d.
Proof.
  intros H. rewrite (take_S_r _ _ _ H), Zsum_app. unfold Zsum. simpl. lia.
Qed.

Lemma concatenate_audio_inv w paths out gap tr tr' out' timings :
  concatenate_audio w paths out gap tr = (tr', Ok (out', timings)) →
  ∃ tr1 tr2 cur,
    mfold (timeline_step w gap) ([], 0) paths tr1 = (tr2, Ok (timings, cur)).
Proof.
  unfold concatenate_audio. intros H.
  apply M_bind_inv in H as (tr1 & [] & _ & H).
  apply M_bind_inv in H as (tr2 & [ts cur] & Hloop & H).
  apply M_bind_inv in H as (tr3 & [] & _ & H).
  apply M_bind_inv in H as (tr4 & [] & _ & H).
  apply M_bind_inv in H as (tr5 & [] & _ & H).
  apply M_bind_inv in H as (tr6 & [] & _ & H).
  apply M_bind_inv in H as (tr7 & [] & _ & H).
  unfold mret, M_ret in H. inversion H; subst. simpl. eauto.
Qed.

Lemma concatenate_audio_calm w paths out gap tr :
  never_raises w →
  ∃ tr' timings, concatenate_audio w paths out gap tr = (tr', Ok (out, timings)).
Proof.
  intros Hw. unfold concatenate_audio.
  rewrite M_bind_run, perform_calm by done.
  destruct (timeline_loop_calm w gap paths Hw ([], 0) (tr ++ [Done (Mkdir (parent out))]))
    as (tr1 & st & Hloop).
  rewrite (M_bind_Ok _ _ _ _ _ Hloop).
  repeat (rewrite M_bind_run, perform_calm by done).
  by eexists _, _.
Qed.

(** Claim C2. The timeline of [concatenate_audio]. In a world where no
    operation raises the function returns; and whenever it returns, there
    is one timing per path, built from the durations the probe measured:
    the first timing starts at 0, each ends at its start plus its
    segment's duration, each next one starts at the previous end plus
    [gap_ms], and so the last one ends at the sum of all durations plus
    [(N - 1) * gap_ms]. *)
Theorem concatenate_audio_timeline
    (w : World) (paths : list string) (out : Path) (gap_ms : Z) (tr : trace) :
  (never_raises w →
     ∃ tr' timings, concatenate_audio w paths out gap_ms tr = (tr', Ok (out, timings)))
  ∧ ∀ tr' out' timings,
      concatenate_audio w paths out gap_ms tr = (tr', Ok (out', timings)) →
      ∃ durations : list Z,
        Forall2 (measured w) paths durations
        ∧ length timings = length paths
        ∧ (∀ (i : nat) t, timings !! i = Some t →
             ∃ d, durations !! i = Some d ∧ paths !! i = Some (path t)
                  ∧ end_ms t = start_ms t + d)
        ∧ (∀ t, timings !! 0%nat = Some t → start_ms t = 0)
        ∧ (∀ (i : nat) t t', timings !! i = Some t → timings !! S i = Some t' →
             start_ms t' = end_ms t + gap_ms)
        ∧ (∀ t, last timings = Some t →
             end_ms t = Zsum durations + (Z.of_nat (length paths) - 1) * gap_ms).
Proof.
  split; [apply concatenate_audio_calm|].
  intros tr' out' timings Hrun.
  apply concatenate_audio_inv in Hrun as (tr1 & tr2 & cur & Hloop).
  apply timeline_loop_inv in Hloop as (ds & Hds & Hts). simpl in Hts. subst timings.
  pose proof (Forall2_length _ _ _ Hds) as Hlen.
  assert (Hsnd : (zip paths ds).*2 = ds) by (apply snd_zip; lia).
  assert (Hzl : length (zip paths ds) = length paths).
  { rewrite length_zip_with. lia. }
  assert (Hlook : ∀ (i : nat) t, timeline_of 0 gap_ms (zip paths ds) !! i = Some t →
            ∃ d, ds !! i = Some d ∧ paths !! i = Some (path t)
                 ∧ start_ms t = Zsum (take i ds) + Z.of_nat i * gap_ms
                 ∧ end_ms t = start_ms t + d).
  { intros i t Ht. apply timeline_of_lookup in Ht as (p & d & Hpd & Hp & Hs & He).
    rewrite Hsnd in Hs. apply lookup_zip_with_Some in Hpd as (p' & d' & Heq & Hp' & Hd').
    inversion Heq; subst p' d'. exists d. rewrite Hp. repeat split; [done|done|lia|done]. }
  exists ds. split; [done|]. split; [by rewrite timeline_of_length|].
  split; [|split; [|split]].
  - intros i t Ht. apply Hlook in Ht as (d & ? & ? & _ & ?). eauto.
  - intros t Ht. apply Hlook in Ht as (d & _ & _ & -> & _). unfold Zsum. simpl. lia.
  - intros i t t' Ht Ht'.
    apply Hlook in Ht as (d & Hd & _ & Hs & He).
    apply Hlook in Ht' as (d' & _ & _ & Hs' & _).
    rewrite Hs', He, Hs, (Zsum_take_S _ _ _ Hd). lia.
  - intros t Ht. rewrite last_lookup, timeline_of_length, Hzl in Ht.
    apply Hlook in Ht as (d & Hd & _ & Hs & He).
    pose proof (lookup_lt_Some _ _ _ Hd) as Hlt.
    rewrite He, Hs.
    assert (Hall : Zsum ds = Zsum (take (Nat.pred (length paths)) ds) + d).
    { rewrite <- (Zsum_take_S _ _ _ Hd).
      replace (S (Nat.pred (length paths))) with (length ds) by lia.
      by rewrite firstn_all. }
    rewrite Hall.
    replace (Z.of_nat (Nat.pred (length paths))) with (Z.of_nat (length paths) - 1) by lia.
    lia.
Qed.

Lemma concatenate_audio_timeline_witness :
  ∃ t0 t1,
    (concatenate_audio (calm_world 1500) ["a.mp3"; "b.mp3"]
       (mkPath Scratch "/tmp/w" ["combined.mp3"]) 400 []).2
    = Ok (mkPath Scratch "/tmp/w" ["combined.mp3"], [t0; t1])
    ∧ start_ms t1 = end_ms t0 + 400
    ∧ end_ms t1 = Zsum [1500; 1500] + (2 - 1) * 400.
Proof.
  pose proof (concatenate_audio_timeline (calm_world 1500) ["a.mp3"; "b.mp3"]
                (mkPath Scratch "/tmp/w" ["combined.mp3"]) 400 []) as [_ H].
  eexists _, _. split; [vm_compute; reflexivity|].
  destruct (H _ _ _ eq_refl) as (ds & _ & _ & _ & _ & Hnext & _).
  split; [by apply (Hnext 0%nat)|]. vm_compute. reflexivity.
Defined.

End timeline_main.

Section voices.

Lemma lower_c_idemp (c : ascii) : Py.lower_c (Py.lower_c c) = Py.lower_c c.
Proof. destruct c as [[] [] [] [] [] [] [] []]; reflexivity. Qed.

Lemma lower_idemp (s : string) : Py.lower (Py.lower s) = Py.lower s.
Proof. induction s as [|c s IH]; [done|]. simpl. by rewrite lower_c_idemp, IH. Qed.

(** Claim C6. The lookup is not case-insensitive on the side of the
    custom voices: [get_voice] lower-cases the requested name but compares
    it with the keys of [custom_voices] as they are stored. A custom voice
    stored under a key [k] that is not lower-case is therefore never
    matched: every name resolves as if the entry were not there. When the
    lower-case form of [k] is no key of either table, every spelling of
    [k], [k] itself included, falls through to the raw-id profile of that
    spelling; so [k] and its lower-case form, which differ only in letter
    case and match the stored key ignoring case, resolve to two different
    profiles, and [k] does not resolve to the voice stored under it
    (unless that voice is the raw-id profile itself). *)
Theorem get_voice_misses_mixed_case_custom_key
    (config : PodclawConfig) (k : string) (v : Voice) :
  custom_voices config !! k = Some v → Py.lower k ≠ k →
  (∀ name, get_voice config name
           = get_voice (with_custom_voices (delete k (custom_voices config)) config) name)
  ∧ (custom_voices config !! Py.lower k = None → VOICES !! Py.lower k = None →
     (∀ name, Py.lower name = Py.lower k →
              get_voice config name = mk_voice name name "Custom voice ID")
     ∧ get_voice config k ≠ get_voice config (Py.lower k)
     ∧ (v ≠ mk_voice k k "Custom voice ID" → get_voice config k ≠ v)).
Proof.
  intros Hk Hmixed. split.
  - intros name. unfold get_voice. cbn [custom_voices with_custom_voices].
    rewrite lookup_delete_ne; [done|].
    intros Heq. apply Hmixed. by rewrite Heq, lower_idemp.
  - intros Hc Hb.
    assert (Hraw : ∀ name, Py.lower name = Py.lower k →
              get_voice config name = mk_voice name name "Custom voice ID").
    { intros name Heq. unfold get_voice. by rewrite Heq, Hc, Hb. }
    split; [done|]. split.
    + rewrite (Hraw k) by done. rewrite (Hraw (Py.lower k)) by apply lower_idemp.
      intros Heq. apply Hmixed. by inversion Heq.
    + intros Hv. by rewrite (Hraw k).
Qed.

Lemma get_voice_misses_mixed_case_custom_key_witness :
  get_voice mixed_case_config "MyVoice" = mk_voice "MyVoice" "MyVoice" "Custom voice ID"
  ∧ get_voice mixed_case_config "MyVoice" ≠ get_voice mixed_case_config "myvoice"
  ∧ get_voice mixed_case_config "MyVoice" ≠ mk_voice "My Voice" "abc123" "".
Proof.
  destruct (get_voice_misses_mixed_case_custom_key mixed_case_config "MyVoice"
              (mk_voice "My Voice" "abc123" "")) as [_ H].
  - vm_compute. reflexivity.
  - vm_compute. discriminate.
  - destruct H as (Hraw & Hne & Hv); [vm_compute; reflexivity..|].
    split; [by apply Hraw|]. split; [exact Hne|]. apply Hv. vm_compute. discriminate.
Defined.

(** Claim C6, the failing input evaluated: the custom voice stored under
    [MyVoice] is not matched by its exact name, and two spellings of that
    name resolve to different profiles. *)
Lemma get_voice_custom_key_case_counterexample :
  custom_voices mixed_case_config !! "MyVoice" = Some (mk_voice "My Voice" "abc123" "")
  ∧ get_voice mixed_case_config "MyVoice" = mk_voice "MyVoice" "MyVoice" "Custom voice ID"
  ∧ get_voice mixed_case_config "MyVoice" ≠ mk_voice "My Voice" "abc123" ""
  ∧ Py.lower "MyVoice" = Py.lower "myvoice"
  ∧ get_voice mixed_case_config "MyVoice" ≠ get_voice mixed_case_config "myvoice".
Proof.
  split; [vm_compute; reflexivity|]. split; [vm_compute; reflexivity|].
  split; [vm_compute; discriminate|]. split; [vm_compute; reflexivity|].
  vm_compute. discriminate.
Qed.

End voices.

Section assign.

Context (roster : list Voice).
Hypothesis roster_nonempty : roster ≠ [].

Lemma roster_lookup_mod (i : nat) : is_Some (roster !! (i `mod` length roster)%nat).
Proof.
  apply lookup_lt_is_Some. apply Nat.mod_upper_bound.
  destruct roster; [done|]. simpl. lia.
Qed.

Lemma speaker_key_has seg sp : has_speaker seg sp → speaker_key seg = Ok sp.
Proof. intros H. unfold speaker_key, getitem. by rewrite H. Qed.

Lemma assign_step_round_robin m seen seg sp :
  round_robin roster m seen → has_speaker seg sp →
  ∃ m', assign_step roster m seg = Ok m'
        ∧ round_robin roster m' (if decide (sp ∈ seen) then seen else seen ++ [sp]).
Proof.
  intros (Hnd & Hsize & Hdom & Hidx) Hsp.
  unfold assign_step. rewrite (speaker_key_has _ _ Hsp), bind_Ok.
  destruct (m !! sp) as [v|] eqn:Hm.
  - exists m. split; [done|].
    rewrite decide_True by (apply Hdom; eauto). done.
  - assert (Hnot : sp ∉ seen).
    { intros Hin. apply Hdom in Hin as [v Hv]. congruence. }
    rewrite decide_False by done.
    assert (Hlen : ∃ n, length roster = S n).
    { destruct roster; [done|]. by eexists. }
    destruct Hlen as [n Hlen].
    destruct (roster_lookup_mod (size m)) as [v Hv].
    pose proof Hv as Hv'. rewrite Hlen in Hv'. rewrite Hlen, Hv'.
    exists (<[sp := v]> m). split; [done|].
    split; [|split; [|split]].
    + apply NoDup_app. split; [done|]. split; [|apply NoDup_singleton].
      intros x Hx Hx'. apply list_elem_of_singleton in Hx'. by subst.
    + rewrite map_size_insert_None by done. rewrite length_app. simpl. lia.
    + intros sp'. rewrite lookup_insert_is_Some, elem_of_app, list_elem_of_singleton.
      rewrite Hdom. split.
      * intros [->|[_ H]]; [by right|by left].
      * intros [H| ->]; [|by left].
        destruct (decide (sp = sp')); [by left|by right].
    + intros i sp' Hi. apply lookup_app_Some in Hi as [Hi|[Hge Hi]].
      * assert (sp ≠ sp').
        { intros ->. apply Hnot. by eapply list_elem_of_lookup_2. }
        rewrite lookup_insert_ne by done. by apply Hidx.
      * destruct (i - length seen)%nat as [|k] eqn:Hk; [|by destruct k].
        simpl in Hi. inversion Hi; subst sp'.
        rewrite lookup_insert_eq. by replace i with (size m) by lia.
Qed.

Lemma speaker_map_round_robin (segs : list segment) (speakers : list string) :
  Forall2 has_speaker segs speakers →
  ∀ m seen, round_robin roster m seen →
    ∃ m', rfold (assign_step roster) m segs = Ok m'
          ∧ round_robin roster m' (first_seen seen speakers).
Proof.
  induction 1 as [|seg sp segs speakers Hsp _ IH]; intros m seen Hinv.
  - by exists m.
  - rewrite rfold_cons.
    destruct (assign_step_round_robin m seen seg sp Hinv Hsp) as (m1 & -> & Hinv1).
    rewrite bind_Ok. simpl. by apply IH.
Qed.

Lemma round_robin_empty : round_robin roster ∅ [].
Proof.
  split; [constructor|]. split; [done|]. split.
  - intros sp. rewrite lookup_empty. split; [by intros [? ?]|by intros ?%elem_of_nil].
  - by intros [].
Qed.

End assign.

Section first_seen.

Lemma first_seen_incl_seen (l : list string) :
  ∀ seen x, x ∈ seen → x ∈ first_seen seen l.
Proof.
  induction l as [|y l IH]; intros seen x Hx; [done|]. simpl.
  apply IH. case_decide; [done|]. apply elem_of_app. by left.
Qed.

Lemma first_seen_incl (l : list string) :
  ∀ seen x, x ∈ l → x ∈ first_seen seen l.
Proof.
  induction l as [|y l IH]; intros seen x Hx; [by apply elem_of_nil in Hx|].
  apply elem_of_cons in Hx as [->|Hx]; simpl.
  - apply first_seen_incl_seen. case_decide; [done|].
    apply elem_of_app. right. by apply list_elem_of_singleton.
  - by apply IH.
Qed.

Lemma first_seen_elem (l : list string) :
  ∀ seen x, x ∈ first_seen seen l → x ∈ seen ∨ x ∈ l.
Proof.
  induction l as [|y l IH]; intros seen x Hx; [by left|]. simpl in Hx.
  apply IH in Hx as [Hx|Hx]; [|right; by apply elem_of_cons; right].
  case_decide; [by left|].
  apply elem_of_app in Hx as [Hx|Hx]; [by left|].
  apply list_elem_of_singleton in Hx. subst. right. by apply elem_of_cons; left.
Qed.

Lemma distinct_speakers_elem (l : list string) x :
  x ∈ distinct_speakers l ↔ x ∈ l.
Proof.
  split.
  - intros H. apply first_seen_elem in H as [H|H]; [by apply elem_of_nil in H|done].
  - apply first_seen_incl.
Qed.

End first_seen.

Section assign_main.

Lemma rmap_cons {A B} (f : A → result B) x l :
  rmap f (x :: l) = f x ≫= (fun y => rmap f l ≫= (fun ys => Ok (y :: ys))).
Proof. reflexivity. Qed.

Lemma rmap_Forall2 {A B} (f : A → result B) (l : list A) :
  ∀ ys, rmap f l = Ok ys → Forall2 (fun x y => f x = Ok y) l ys.
Proof.
  induction l as [|x l IH]; intros ys H.
  - inversion H. constructor.
  - rewrite rmap_cons in H. destruct (f x) as [y|] eqn:Hx; [|done].
    rewrite bind_Ok in H. destruct (rmap f l) as [ys'|]; [|done].
    rewrite bind_Ok in H. inversion H; subst. constructor; [done|by apply IH].
Qed.

Lemma rmap_total {A B} (f : A → result B) (l : list A) :
  Forall (fun x => ∃ y, f x = Ok y) l → ∃ ys, rmap f l = Ok ys.
Proof.
  induction 1 as [|x l [y Hy] _ [ys IH]]; [by eexists|].
  rewrite rmap_cons, Hy, bind_Ok, IH, bind_Ok. by eexists.
Qed.

Lemma attach_voice_inv m seg o :
  attach_voice m seg = Ok o →
  ∃ sp v, has_speaker seg sp ∧ m !! sp = Some v ∧ o = <["voice" := VVoice v]> seg.
Proof.
  unfold attach_voice, speaker_key, getitem, has_speaker.
  destruct (seg !! "speaker") as [[sp|]|]; [|done..].
  rewrite !bind_Ok. destruct (m !! sp) as [v|] eqn:Hm; [|done].
  intros H. inversion H. eauto.
Qed.

Lemma assign_voices_inv segs config out :
  assign_voices segs config = Ok out →
  ∃ m, speaker_map (get_all_voices config) segs = Ok m
       ∧ Forall2 (fun seg o => attach_voice m seg = Ok o) segs out.
Proof.
  unfold assign_voices. intros H.
  destruct (speaker_map (get_all_voices config) segs) as [m|]; [|done].
  rewrite bind_Ok in H. exists m. split; [done|]. by apply rmap_Forall2.
Qed.

Lemma lookup_voice_insert (seg : segment) v :
  voice_of (<["voice" := VVoice v]> seg) = Some v.
Proof. unfold voice_of. by rewrite lookup_insert_eq. Qed.

Lemma attach_all (m : gmap string Voice) (segs : list segment) (speakers : list string) :
  Forall2 has_speaker segs speakers →
  (∀ sp, sp ∈ speakers → is_Some (m !! sp)) →
  ∃ out, rmap (attach_voice m) segs = Ok out
         ∧ Forall3 (fun seg sp o =>
                      ∃ v, m !! sp = Some v ∧ o = <["voice" := VVoice v]> seg)
                   segs speakers out.
Proof.
  induction 1 as [|seg sp segs speakers Hs Hsp IH]; intros Hall.
  - exists []. split; [done|constructor].
  - destruct IH as (out & Hout & Hf3).
    { intros sp' Hin. apply Hall. by apply elem_of_cons; right. }
    destruct (Hall sp) as [v Hv]; [by apply elem_of_cons; left|].
    exists (<["voice" := VVoice v]> seg :: out). split.
    + assert (Hatt : attach_voice m seg = Ok (<["voice" := VVoice v]> seg)).
      { unfold attach_voice. by rewrite (speaker_key_has _ _ Hs), bind_Ok, Hv. }
      by rewrite rmap_cons, Hatt, bind_Ok, Hout, bind_Ok.
    + constructor; [|done]. eauto.
Qed.

(** [assign_voices] returns whenever the roster is not empty and every
    segment names its speaker; it then follows [speaker_to_voice]. *)
Lemma assign_voices_total (segs : list segment) (speakers : list string)
    (config : PodclawConfig) :
  Forall2 has_speaker segs speakers → voices config ≠ [] →
  ∃ m out,
    assign_voices segs config = Ok out
    ∧ round_robin (get_all_voices config) m (distinct_speakers speakers)
    ∧ Forall3 (fun seg sp o =>
                 ∃ v, m !! sp = Some v ∧ o = <["voice" := VVoice v]> seg)
              segs speakers out.
Proof.
  intros Hsp Hne.
  assert (Hroster : get_all_voices config ≠ []).
  { unfold get_all_voices. destruct (voices config); [done|]. done. }
  destruct (speaker_map_round_robin _ Hroster segs speakers Hsp ∅ [])
    as (m & Hm & Hinv); [apply round_robin_empty|].
  destruct (attach_all m segs speakers Hsp) as (out & Hout & Hf3).
  { intros sp Hin. destruct Hinv as (_ & _ & Hdom & _).
    apply Hdom. by apply first_seen_incl. }
  exists m, out. unfold assign_voices, speaker_map. by rewrite Hm, bind_Ok.
Qed.

(** Claim C9. With a non-empty roster and segments that name their
    speakers [assign_voices] returns; and whatever it returns has the
    length of the input and holds, at each position, the input segment
    with a [voice] entry set: every other key keeps its value. *)
Theorem assign_voices_frame (segs : list segment) (config : PodclawConfig) :
  (voices config ≠ [] → Forall (fun seg => ∃ sp, has_speaker seg sp) segs →
     ∃ out, assign_voices segs config = Ok out)
  ∧ ∀ out, assign_voices segs config = Ok out →
      length out = length segs
      ∧ ∀ (i : nat) seg, segs !! i = Some seg →
          ∃ o v, out !! i = Some o
                 ∧ o = <["voice" := VVoice v]> seg
                 ∧ o !! "voice" = Some (VVoice v)
                 ∧ ∀ k, k ≠ "voice" → o !! k = seg !! k.
Proof.
  split.
  - intros Hne Hsegs.
    assert (Hsp : ∃ speakers, Forall2 has_speaker segs speakers).
    { induction Hsegs as [|seg segs [sp Hsp] _ [sps IH]]; [by exists []|].
      exists (sp :: sps). by constructor. }
    destruct Hsp as [speakers Hsp].
    destruct (assign_voices_total segs speakers config Hsp Hne) as (m & out & Hout & _).
    by exists out.
  - intros out Hout. apply assign_voices_inv in Hout as (m & _ & Hf2).
    split; [symmetry; by eapply Forall2_length|].
    intros i seg Hi.
    destruct (Forall2_lookup_l _ _ _ _ _ Hf2 Hi) as (o & Ho & Hatt).
    apply attach_voice_inv in Hatt as (sp & v & _ & _ & ->).
    exists (<["voice" := VVoice v]> seg), v.
    split; [done|]. split; [done|]. split; [by rewrite lookup_insert_eq|].
    intros k Hk. by rewrite lookup_insert_ne.
Qed.

Lemma assign_voices_frame_witness :
  ∃ out, assign_voices [mk_segment "HOST_A" "Hello"; mk_segment "HOST_B" "Hi"]
                       default_config = Ok out
         ∧ length out = 2%nat.
Proof.
  destruct (assign_voices_frame [mk_segment "HOST_A" "Hello"; mk_segment "HOST_B" "Hi"]
              default_config) as [Htotal Hframe].
  destruct Htotal as [out Hout].
  - discriminate.
  - repeat constructor; eexists; reflexivity.
  - exists out. split; [done|]. by destruct (Hframe out Hout) as [-> _].
Defined.

End assign_main.

Section round_robin_main.

(** The roster entries that [K] distinct speakers reach. *)
Lemma reached_voices (roster : list Voice) (K : nat) v :
  roster ≠ [] →
  (∃ i : nat, (i < K)%nat ∧ roster !! (i `mod` length roster)%nat = Some v)
  ↔ v ∈ take (K `min` length roster) roster.
Proof.
  intros Hne.
  assert (HM : (0 < length roster)%nat) by (destruct roster; [done|simpl; lia]).
  split.
  - intros (i & Hi & Hv). apply list_elem_of_lookup.
    exists (i `mod` length roster)%nat. rewrite lookup_take_lt; [done|].
    pose proof (Nat.mod_upper_bound i (length roster)) as Hub.
    destruct (decide (K ≤ length roster)%nat).
    + rewrite Nat.mod_small by lia. lia.
    + lia.
  - intros Hin. apply list_elem_of_lookup in Hin as [i Hi].
    apply lookup_take_Some in Hi as [Hi Hlt].
    pose proof (lookup_lt_Some _ _ _ Hi).
    exists i. split; [lia|]. by rewrite Nat.mod_small by lia.
Qed.

(** Claim C7. With a non-empty roster of [M] voices and segments that
    name their speakers, [assign_voices] returns; the [i]-th distinct
    speaker in first-seen order gets [roster[i mod M]]; two segments with
    the same speaker get the same voice wherever they stand; the number
    of distinct voices used is at most [min(K, M)] for [K] distinct
    speakers, and exactly [min(K, M)] when the voices of the roster are
    pairwise distinct; with [M = 1] every segment gets the single voice. *)
Theorem assign_voices_round_robin
    (segs : list segment) (speakers : list string) (config : PodclawConfig) :
  Forall2 has_speaker segs speakers → voices config ≠ [] →
  let roster := get_all_voices config in
  let firsts := distinct_speakers speakers in
  let M := length roster in
  let K := length firsts in
  ∃ out, assign_voices segs config = Ok out
    ∧ NoDup firsts
    ∧ (∀ sp, sp ∈ firsts ↔ sp ∈ speakers)
    ∧ (∀ (j : nat) sp, speakers !! j = Some sp →
         ∃ (i : nat) o, firsts !! i = Some sp ∧ out !! j = Some o
                        ∧ is_Some (voice_of o)
                        ∧ voice_of o = roster !! (i `mod` M)%nat)
    ∧ (∀ (j1 j2 : nat) o1 o2, out !! j1 = Some o1 → out !! j2 = Some o2 →
         o1 !! "speaker" = o2 !! "speaker" → o1 !! "voice" = o2 !! "voice")
    ∧ (length (remove_dups (voices_used out)) ≤ K `min` M)%nat
    ∧ (NoDup roster → length (remove_dups (voices_used out)) = (K `min` M)%nat)
    ∧ (M = 1%nat → ∀ o, o ∈ out → voice_of o = roster !! 0%nat).
Proof.
  intros Hsp Hne roster firsts M K.
  destruct (assign_voices_total segs speakers config Hsp Hne)
    as (m & out & Hout & (Hnd & Hsize & Hdom & Hidx) & Hf3).
  fold roster in Hidx. fold firsts in Hnd, Hsize, Hdom, Hidx.
  assert (Hroster : roster ≠ []).
  { unfold roster, get_all_voices. by destruct (voices config). }
  (* every output segment: its speaker, and the voice the map gave it *)
  assert (Hout_j : ∀ (j : nat) o, out !! j = Some o →
            ∃ seg sp v (i : nat), segs !! j = Some seg ∧ speakers !! j = Some sp
              ∧ has_speaker seg sp ∧ firsts !! i = Some sp
              ∧ roster !! (i `mod` M)%nat = Some v
              ∧ o = <["voice" := VVoice v]> seg).
  { intros j o Ho.
    destruct (Forall3_lookup_r _ _ _ _ _ _ Hf3 Ho) as (seg & sp & Hseg & Hspj & v & Hv & ->).
    assert (Hin : sp ∈ firsts).
    { apply first_seen_incl. by eapply list_elem_of_lookup_2. }
    apply list_elem_of_lookup_1 in Hin as [i Hi].
    exists seg, sp, v, i. repeat split; try done.
    - by eapply Forall2_lookup_lr in Hsp.
    - rewrite <- Hv. symmetry. by apply Hidx. }
  assert (Hsp_j : ∀ (j : nat) sp, speakers !! j = Some sp → ∃ o, out !! j = Some o).
  { intros j sp Hj.
    destruct (Forall3_lookup_m _ _ _ _ _ _ Hf3 Hj) as (seg & o & _ & Ho & _). eauto. }
  assert (Hused : ∀ v, v ∈ voices_used out
                       ↔ ∃ i : nat, (i < K)%nat ∧ roster !! (i `mod` M)%nat = Some v).
  { intros v. unfold voices_used. rewrite list_elem_of_omap. split.
    - intros (o & Ho & Hv). apply list_elem_of_lookup_1 in Ho as [j Hj].
      destruct (Hout_j j o Hj) as (seg & sp & v' & i & _ & _ & _ & Hi & Hr & ->).
      rewrite lookup_voice_insert in Hv. inversion Hv; subst v'.
      exists i. split; [|done]. by eapply lookup_lt_Some.
    - intros (i & Hi & Hv).
      destruct (lookup_lt_is_Some_2 firsts i Hi) as [sp Hspi].
      assert (Hin : sp ∈ speakers).
      { apply distinct_speakers_elem. by eapply list_elem_of_lookup_2. }
      apply list_elem_of_lookup_1 in Hin as [j Hj].
      destruct (Hsp_j j sp Hj) as [o Ho].
      destruct (Forall3_lookup_m _ _ _ _ _ _ Hf3 Hj) as (seg & o' & _ & Ho' & v' & Hv' & ->).
      exists (<["voice" := VVoice v']> seg). split; [by eapply list_elem_of_lookup_2|].
      rewrite lookup_voice_insert. pose proof (Hidx i sp Hspi) as Hx.
      unfold M in Hv. congruence. }
  exists out. split; [done|]. split; [done|].
  split; [apply distinct_speakers_elem|].
  split; [|split; [|split; [|split]]].
  - intros j sp Hj. destruct (Hsp_j j sp Hj) as [o Ho].
    destruct (Forall3_lookup_m _ _ _ _ _ _ Hf3 Hj) as (seg & o' & _ & Ho' & v & Hv & ->).
    assert (Hin : sp ∈ firsts).
    { apply first_seen_incl. by eapply list_elem_of_lookup_2. }
    apply list_elem_of_lookup_1 in Hin as [i Hi].
    exists i, (<["voice" := VVoice v]> seg). split; [done|]. split; [done|].
    rewrite lookup_voice_insert. split; [by eexists|].
    rewrite <- Hv. by apply Hidx.
  - intros j1 j2 o1 o2 H1 H2 Heq.
    destruct (Forall3_lookup_r _ _ _ _ _ _ Hf3 H1) as (s1 & sp1 & Hs1 & Hp1 & v1 & Hv1 & ->).
    destruct (Forall3_lookup_r _ _ _ _ _ _ Hf3 H2) as (s2 & sp2 & Hs2 & Hp2 & v2 & Hv2 & ->).
    rewrite !lookup_insert_ne in Heq by done.
    pose proof (Forall2_lookup_lr _ _ _ _ _ _ Hsp Hs1 Hp1) as Hh1.
    pose proof (Forall2_lookup_lr _ _ _ _ _ _ Hsp Hs2 Hp2) as Hh2.
    unfold has_speaker in *. rewrite Hh1, Hh2 in Heq. inversion Heq; subst sp2.
    rewrite !lookup_insert_eq. congruence.
  - rewrite <- (Nat.min_id M) at 1. rewrite Nat.min_assoc.
    unfold M at 2. rewrite <- length_take.
    apply submseteq_length, NoDup_submseteq; [apply NoDup_remove_dups|].
    intros v Hv. rewrite elem_of_remove_dups in Hv.
    apply Hused in Hv. apply reached_voices; [done|]. exact Hv.
  - intros Hnodup.
    rewrite <- (Nat.min_id M) at 1. rewrite Nat.min_assoc.
    unfold M at 2. rewrite <- length_take.
    apply Permutation_length, NoDup_Permutation; [apply NoDup_remove_dups| |].
    + eapply sublist_NoDup; [exact Hnodup|apply sublist_take].
    + intros v. rewrite elem_of_remove_dups, Hused. apply (reached_voices roster K v Hroster).
  - intros HM o Ho. apply list_elem_of_lookup_1 in Ho as [j Hj].
    destruct (Hout_j j o Hj) as (seg & sp & v & i & _ & _ & _ & _ & Hr & ->).
    rewrite lookup_voice_insert. rewrite HM, Nat.mod_1_r in Hr. done.
Qed.

Lemma assign_voices_round_robin_witness :
  ∃ out,
    assign_voices [mk_segment "HOST_A" "Hi!"; mk_segment "HOST_B" "Hello.";
                   mk_segment "HOST_A" "Bye."]
                  (with_voices ["v1"; "v2"] default_config) = Ok out
    ∧ length (remove_dups (voices_used out)) = 2%nat.
Proof.
  destruct (assign_voices_round_robin
              [mk_segment "HOST_A" "Hi!"; mk_segment "HOST_B" "Hello.";
               mk_segment "HOST_A" "Bye."]
              ["HOST_A"; "HOST_B"; "HOST_A"]
              (with_voices ["v1"; "v2"] default_config))
    as (out & Hout & _ & _ & _ & _ & _ & Hcard & _).
  - repeat constructor.
  - discriminate.
  - exists out. split; [done|]. rewrite Hcard; [reflexivity|].
    vm_compute. repeat constructor; rewrite ?elem_of_cons, ?elem_of_nil; intuition discriminate.
Defined.

(** Claim C7, the failing case: a roster that names the same voice
    twice. Two speakers and two roster entries use one voice, not
    [min(2, 2)]. *)
Lemma assign_voices_cardinality_counterexample :
  ∃ out,
    assign_voices [mk_segment "A" "One"; mk_segment "B" "Two"]
                  (with_voices ["roger"; "roger"] default_config) = Ok out
    ∧ length (voices (with_voices ["roger"; "roger"] default_config)) = 2%nat
    ∧ length (distinct_speakers ["A"; "B"]) = 2%nat
    ∧ length (remove_dups (voices_used out)) = 1%nat.
Proof.
  eexists. split; [vm_compute; reflexivity|]. vm_compute. auto.
Qed.

End round_robin_main.

Section parsing.

Lemma parse_line_untagged st line :
  current_speaker st = None → is_tag_line (Py.strip line) = false →
  parse_line st line = st.
Proof.
  intros Hsp Htag. unfold parse_line. rewrite Htag, Hsp. simpl.
  by destruct (truthy (Py.strip line)).
Qed.

Lemma parse_lines_untagged (lines : list string) st :
  current_speaker st = None →
  Forall (fun line => is_tag_line (Py.strip line) = false) lines →
  fold_left parse_line lines st = st.
Proof.
  intros Hsp. induction 1 as [|line lines Hl _ IH]; [done|].
  simpl. by rewrite parse_line_untagged.
Qed.

Lemma parse_script_no_tags (raw_script : string) :
  no_tag_lines raw_script → parse_script raw_script = [].
Proof.
  intros H. unfold parse_script. by rewrite parse_lines_untagged.
Qed.

End parsing.

Section quiet.

Lemma quiet_ret {A} (a : A) : quiet (mret a).
Proof. intros tr. exists []. by rewrite app_nil_r. Qed.

Lemma quiet_raise {A} (e : exn) : quiet (@raise A e).
Proof. intros tr. exists []. by rewrite app_nil_r. Qed.

Lemma quiet_lift {A} (r : result A) : quiet (lift r).
Proof. intros tr. exists []. by rewrite app_nil_r. Qed.

Lemma quiet_observe {A} (f : trace → A) : quiet (observe f).
Proof. intros tr. exists []. by rewrite app_nil_r. Qed.

Lemma quiet_bind {A B} (m : M A) (k : A → M B) :
  quiet m → (∀ a, quiet (k a)) → quiet (m ≫= k).
Proof.
  intros Hm Hk tr. destruct (Hm tr) as (ext1 & Heq1 & Hq1).
  rewrite M_bind_run. destruct (m tr) as [tr1 [a|e]]; simpl in Heq1; subst tr1.
  - destruct (Hk a (tr ++ ext1)) as (ext2 & Heq2 & Hq2).
    exists (ext1 ++ ext2). rewrite Heq2, app_assoc. split; [done|].
    by apply Forall_app.
  - by exists ext1.
Qed.

Lemma quiet_perform w o :
  Forall (fun p => loc p = Scratch) (writes o) → quiet (perform w o).
Proof.
  intros Hw tr. unfold perform.
  assert (Hq : ∀ ev, op_of ev = o → quiet_event ev).
  { intros ev <-. unfold quiet_event, touches_output.
    apply bool_decide_eq_false. intros Hex. apply Exists_exists in Hex as (p & Hin & Hp).
    eapply Forall_forall in Hw; [|done]. congruence. }
  destruct (raises w tr o) as [e|].
  - exists [Failed o e]. split; [done|]. constructor; [by apply Hq|constructor].
  - exists [Done o]. split; [done|]. constructor; [by apply Hq|constructor].
Qed.

Lemma quiet_perform_quiet o :
  Forall (fun p => loc p = Scratch) (writes o) → quiet (perform_quiet o).
Proof.
  intros Hw tr. exists [Done o]. split; [done|]. constructor; [|constructor].
  unfold quiet_event, touches_output.
  apply bool_decide_eq_false. intros Hex. apply Exists_exists in Hex as (p & Hin & Hp).
  eapply Forall_forall in Hw; [|done]. congruence.
Qed.

Lemma quiet_mmap {A B} (f : A → M B) (l : list A) :
  (∀ x, quiet (f x)) → quiet (mmap f l).
Proof.
  intros Hf. induction l as [|x l IH]; [apply quiet_ret|].
  simpl. apply quiet_bind; [done|]. intros y.
  apply quiet_bind; [done|]. intros ys. apply quiet_ret.
Qed.

Lemma quiet_mfold {A B} (f : B → A → M B) (l : list A) :
  (∀ b x, quiet (f b x)) → ∀ b, quiet (mfold f b l).
Proof.
  intros Hf. induction l as [|x l IH]; intros b; [apply quiet_ret|].
  simpl. apply quiet_bind; [done|]. intros b'. apply IH.
Qed.

Lemma quiet_progress w observed stage msg :
  quiet (progress (caller_progress w observed) stage msg).
Proof.
  destruct observed; simpl; [|apply quiet_ret].
  apply quiet_perform. constructor.
Qed.

End quiet.

Ltac quiet_step :=
  first
    [ apply quiet_ret | apply quiet_raise | apply quiet_lift | apply quiet_observe
    | apply quiet_progress
    | apply quiet_perform; simpl; repeat constructor; simpl; done
    | apply quiet_bind; [|intros ?] ].

Section quiet_stages.

Context (w : World).

Lemma quiet_synthesize_all_segments segs api_key work_dir cb :
  loc work_dir = Scratch → (∀ c t s, quiet (cb c t s)) →
  quiet (synthesize_all_segments w segs api_key work_dir (Some cb)).
Proof.
  intros Hloc Hcb. unfold synthesize_all_segments.
  apply quiet_bind; [apply quiet_perform; constructor|]. intros _.
  apply quiet_mmap. intros [i seg]. unfold synthesize_one, synthesize_segment.
  repeat quiet_step; done.
Qed.

Lemma quiet_concatenate_audio paths out gap :
  loc out = Scratch → quiet (concatenate_audio w paths out gap).
Proof.
  intros Hloc. unfold concatenate_audio.
  quiet_step; [quiet_step|].
  quiet_step.
  { apply quiet_mfold. intros [ts cur] p. unfold timeline_step, _get_duration_ms.
    repeat quiet_step. }
  repeat quiet_step.
Qed.

Lemma quiet_generate_srt segs timings out max_chars show :
  loc out = Scratch → quiet (generate_srt w segs timings out max_chars show).
Proof. intros Hloc. unfold generate_srt. repeat quiet_step. Qed.

Lemma quiet_create_background out :
  loc out = Scratch → quiet (create_background w out).
Proof. intros Hloc. unfold create_background. repeat quiet_step. Qed.

Lemma quiet_prepare config work_dir script observed :
  loc work_dir = Scratch →
  quiet (prepare w config work_dir script (caller_progress w observed)).
Proof.
  intros Hloc. unfold prepare.
  repeat first
    [ match goal with
      | |- quiet (if ?b then _ else _) => destruct b
      | |- quiet (match ?x with (_, _) => _ end) => destruct x
      | |- quiet (synthesize_all_segments _ _ _ _ _) =>
          apply quiet_synthesize_all_segments; [done|intros ? ? ?]
      | |- quiet (concatenate_audio _ _ _ _) => apply quiet_concatenate_audio; done
      | |- quiet (generate_srt _ _ _ _ _ _) => apply quiet_generate_srt; done
      | |- quiet (create_background _ _) => apply quiet_create_background; done
      end
    | quiet_step ].
Qed.

End quiet_stages.

Section gating.

Lemma well_gated_mono (l : trace) :
  well_gated false l = true → well_gated true l = true.
Proof.
  induction l as [|ev l IH]; [done|]. simpl.
  destruct ev as [o|o e]; destruct o; simpl; try done;
    rewrite ?andb_true_iff, ?orb_true_iff; intros; try tauto;
    repeat match goal with H : _ ∧ _ |- _ => destruct H end; auto.
Qed.

Lemma well_gated_quiet_app (l1 l2 : trace) :
  Forall quiet_event l1 →
  ∀ b, well_gated b l2 = true → well_gated b (l1 ++ l2) = true.
Proof.
  induction 1 as [|ev l1 Hq _ IH]; intros b H2; [done|].
  unfold quiet_event in Hq.
  assert (Htrue : well_gated true l2 = true).
  { destruct b; [done|by apply well_gated_mono]. }
  destruct ev as [o|o e]; destruct o; simpl in *; rewrite ?Hq; simpl; auto.
Qed.

Lemma well_gated_app_quiet (l1 l2 : trace) :
  Forall quiet_event l2 →
  ∀ b, well_gated b l1 = true → well_gated b (l1 ++ l2) = true.
Proof.
  intros Hq. induction l1 as [|ev l1 IH]; intros b Hg; simpl.
  - clear Hg. revert b. induction Hq as [|ev l2 Hq _ IH2]; intros b; [done|].
    unfold quiet_event in Hq.
    destruct ev as [o|o e]; destruct o; simpl in *; rewrite ?Hq; simpl; auto.
  - destruct ev as [o|o e]; destruct o; simpl in *;
      try (apply andb_true_iff in Hg as [-> Hg]; simpl); auto.
Qed.

Lemma well_gated_quiet (l : trace) b :
  Forall quiet_event l → well_gated b l = true.
Proof.
  intros H. rewrite <- (app_nil_r l). by apply well_gated_quiet_app.
Qed.

(** What the checker [well_gated] says, spelled out. *)
Lemma well_gated_spec (l : trace) :
  ∀ b, well_gated b l = true →
  ∀ pre ev post, l = pre ++ ev :: post → touches_output ev = true →
    is_assembly ev = true
    ∨ (is_copy ev = true ∧ (b = true ∨ Exists (fun e => assembly_done e = true) pre)).
Proof.
  induction l as [|x l IH]; intros b Hg pre ev post Heq Ht.
  - by destruct pre.
  - destruct pre as [|y pre]; simpl in Heq; inversion Heq; subst.
    + destruct ev as [o|o e]; destruct o; simpl in Hg, Ht |- *;
        rewrite ?Ht in Hg; simpl in Hg; try discriminate; auto.
      * right. split; [done|]. left. by apply andb_true_iff in Hg as [-> _].
      * right. split; [done|]. left. by apply andb_true_iff in Hg as [-> _].
    + assert (Hrest : ∃ b', well_gated b' (pre ++ ev :: post) = true
                            ∧ (b' = true → b = true ∨ assembly_done y = true)).
      { destruct y as [o|o e]; destruct o; simpl in Hg;
          try (apply andb_true_iff in Hg as [_ Hg]);
          try (exists b; split; [done|by left]).
        exists true. split; [done|]. by right. }
      destruct Hrest as (b' & Hg' & Hb').
      destruct (IH b' Hg' pre ev post eq_refl Ht) as [Ha|[Hc Hd]]; [by left|].
      right. split; [done|]. destruct Hd as [Hd|Hd].
      * destruct (Hb' Hd) as [?|?]; [by left|]. right. by apply Exists_cons_hd.
      * right. by apply Exists_cons_tl.
Qed.

Lemma well_gated_no_assembly (l : trace) :
  well_gated false l = true →
  Forall (fun e => is_assembly e = false) l → Forall quiet_event l.
Proof.
  intros Hg Hna. apply Forall_forall. intros ev Hin.
  apply list_elem_of_split in Hin as (pre & post & ->).
  unfold quiet_event. destruct (touches_output ev) eqn:Ht; [|done].
  destruct (well_gated_spec _ _ Hg pre ev post eq_refl Ht) as [Ha|[_ [?|Hex]]]; [|done|].
  - eapply Forall_forall in Hna; [|apply elem_of_app; right; by left]. congruence.
  - apply Exists_exists in Hex as (e & He & Hd).
    eapply Forall_forall in Hna; [|apply elem_of_app; left; exact He].
    unfold is_assembly in Hna. unfold assembly_done in Hd.
    destruct e as [o|o e']; [destruct o|]; simpl in Hd, Hna; discriminate.
Qed.

Lemma quiet_output_files (l : trace) :
  Forall quiet_event l → output_files l = [].
Proof.
  unfold output_files. induction 1 as [|ev l Hq _ IH]; [done|].
  rewrite bind_cons, filter_app, IH, app_nil_r.
  unfold quiet_event, touches_output in Hq. apply bool_decide_eq_false in Hq.
  induction (writes (op_of ev)) as [|p ps IHp]; [done|].
  rewrite filter_cons. destruct (decide (loc p = Output)) as [Hp|Hp].
  - exfalso. apply Hq. by apply Exists_cons_hd.
  - apply IHp. intros Hex. apply Hq. by apply Exists_cons_tl.
Qed.

End gating.

Section deliver.

Context (w : World).

Lemma gated_quiet {A} (m : M A) b : quiet m → gated_from b m.
Proof.
  intros Hm tr. destruct (Hm tr) as (ext & Heq & Hq).
  exists ext. split; [done|]. by apply well_gated_quiet.
Qed.

Lemma gated_bind_quiet {A B} (m : M A) (k : A → M B) b :
  quiet m → (∀ a, gated_from b (k a)) → gated_from b (m ≫= k).
Proof.
  intros Hm Hk tr. destruct (Hm tr) as (ext1 & Heq1 & Hq1).
  rewrite M_bind_run. destruct (m tr) as [tr1 [a|e]]; simpl in Heq1; subst tr1.
  - destruct (Hk a (tr ++ ext1)) as (ext2 & Heq2 & Hg2).
    exists (ext1 ++ ext2). rewrite Heq2, app_assoc. split; [done|].
    by apply well_gated_quiet_app.
  - exists ext1. split; [done|]. by apply well_gated_quiet.
Qed.

Lemma gated_perform_assemble {B} bg au out srt (k : unit → M B) b :
  (∀ u, gated_from true (k u)) →
  gated_from b (perform w (FfmpegAssemble bg au out srt) ≫= k).
Proof.
  intros Hk tr. rewrite M_bind_run. unfold perform.
  destruct (raises w tr _) as [e|].
  - exists [Failed (FfmpegAssemble bg au out srt) e]. done.
  - destruct (Hk tt (tr ++ [Done (FfmpegAssemble bg au out srt)])) as (ext & Heq & Hg).
    exists (Done (FfmpegAssemble bg au out srt) :: ext).
    rewrite Heq, <- app_assoc. done.
Qed.

Lemma gated_perform_copy {B} src dst (k : unit → M B) :
  (∀ u, gated_from true (k u)) →
  gated_from true (perform w (Copy2 src dst) ≫= k).
Proof.
  intros Hk tr. rewrite M_bind_run. unfold perform.
  destruct (raises w tr _) as [e|].
  - exists [Failed (Copy2 src dst) e]. split; [done|]. simpl.
    by rewrite orb_true_r.
  - destruct (Hk tt (tr ++ [Done (Copy2 src dst)])) as (ext & Heq & Hg).
    exists (Done (Copy2 src dst) :: ext).
    rewrite Heq, <- app_assoc. split; [done|]. simpl. by rewrite orb_true_r.
Qed.

Lemma gated_assoc {A B C} (m : M A) (k : A → M B) (h : B → M C) b :
  gated_from b (m ≫= (fun a => k a ≫= h)) → gated_from b ((m ≫= k) ≫= h).
Proof.
  intros H tr. destruct (H tr) as (ext & Heq & Hg). exists ext. split; [|done].
  rewrite <- Heq. rewrite !M_bind_run. by destruct (m tr) as [tr1 [a|e]].
Qed.

Lemma deliver_gated config observed prepared :
  gated_from false (deliver w config (caller_progress w observed) prepared).
Proof.
  destruct prepared as [[[[segs script_path] combined_audio] srt_path] bg_path].
  unfold deliver.
  apply gated_bind_quiet; [apply quiet_progress|]. intros _.
  apply gated_bind_quiet; [unfold get_audio_duration; repeat quiet_step|].
  intros audio_duration. unfold assemble_video.
  apply gated_assoc, gated_bind_quiet; [repeat quiet_step|]. intros _.
  apply gated_assoc, gated_bind_quiet; [repeat quiet_step|]. intros has_subtitles.
  apply gated_assoc, gated_perform_assemble. intros _.
  apply gated_bind_quiet; [apply quiet_ret|]. intros _.
  apply gated_bind_quiet; [apply quiet_progress|]. intros _.
  do 4 (apply gated_perform_copy; intros _).
  apply gated_quiet, quiet_ret.
Qed.

Lemma run_pipeline_gated config work_dir script observed :
  loc work_dir = Scratch →
  gated_from false (_run_pipeline w config work_dir script (caller_progress w observed)).
Proof.
  intros Hloc. unfold _run_pipeline.
  apply gated_bind_quiet; [by apply quiet_prepare|]. intros prepared.
  apply deliver_gated.
Qed.

Lemma gated_try_finally {A} (body : M A) (cleanup : M unit) b :
  gated_from b body → quiet cleanup → gated_from b (try_finally body cleanup).
Proof.
  intros Hbody Hclean tr. unfold try_finally.
  destruct (Hbody tr) as (ext1 & Heq1 & Hg1).
  destruct (body tr) as [tr1 r]. simpl in Heq1. subst tr1.
  destruct (Hclean (tr ++ ext1)) as (ext2 & Heq2 & Hq2).
  exists (ext1 ++ ext2). split; [|by apply well_gated_app_quiet].
  destruct (cleanup (tr ++ ext1)) as [tr2 [u|e]]; simpl in *; by rewrite Heq2, app_assoc.
Qed.

Lemma generate_gated self_config topic script observed :
  gated_from false (generate w self_config topic script (caller_progress w observed)).
Proof.
  unfold generate.
  match goal with |- context [if ?b then raise _ else _] => destruct b end;
    [apply gated_quiet, quiet_raise|].
  apply gated_bind_quiet; [repeat quiet_step|]. intros _.
  apply gated_bind_quiet; [repeat quiet_step|]. intros _.
  apply gated_try_finally; [by apply run_pipeline_gated|].
  by apply quiet_perform_quiet.
Qed.

End deliver.

Section schedule.

Context (w : World).

(** A schedule runs to its end, or stops at its first failing operation
    with nothing after it attempted. *)
Lemma perform_all_cons o ops :
  perform_all w (o :: ops) = perform w o ≫= (fun _ => perform_all w ops).
Proof. reflexivity. Qed.

Lemma M_bind_assoc_run {A B C} (m : M A) (k : A → M B) (h : B → M C) tr :
  ((m ≫= k) ≫= h) tr = (m ≫= (fun a => k a ≫= h)) tr.
Proof. rewrite !M_bind_run. by destruct (m tr) as [tr1 [a|e]]. Qed.

Lemma M_ret_bind_run {A B} (a : A) (k : A → M B) tr : (mret a ≫= k) tr = k a tr.
Proof. reflexivity. Qed.

Lemma perform_all_prefix (ops : list op) :
  ∀ tr,
    perform_all w ops tr = (tr ++ (Done <$> ops), Ok tt)
    ∨ ∃ done o e rest,
        ops = done ++ o :: rest
        ∧ perform_all w ops tr = (tr ++ (Done <$> done) ++ [Failed o e], Raise e).
Proof.
  induction ops as [|o ops IH]; intros tr.
  - left. simpl. unfold mret, M_ret. by rewrite app_nil_r.
  - rewrite perform_all_cons, M_bind_run. unfold perform.
    destruct (raises w tr o) as [e|].
    + right. exists [], o, e, ops. done.
    + destruct (IH (tr ++ [Done o])) as [->|(done & o' & e & rest & -> & ->)].
      * left. by rewrite <- app_assoc.
      * right. exists (o :: done), o', e, rest. split; [done|].
        by rewrite <- !app_assoc.
Qed.

Lemma perform_all_app (ops1 ops2 : list op) {B} (k : unit → M B) tr :
  (perform_all w (ops1 ++ ops2) ≫= k) tr
  = (perform_all w ops1 ≫= (fun _ => perform_all w ops2 ≫= k)) tr.
Proof.
  revert tr. induction ops1 as [|o ops1 IH]; intros tr; [done|].
  rewrite <- app_comm_cons, !perform_all_cons, !M_bind_assoc_run.
  rewrite (M_bind_run (perform w o)), (M_bind_run (perform w o) _ tr).
  destruct (perform w o tr) as [tr1 [[]|e]]; [|done]. apply IH.
Qed.

Lemma synthesize_one_schedule api_key work_dir total i seg tr :
  ready seg →
  synthesize_one w api_key work_dir (Some (notify_segment w)) total (i, seg) tr
  = (perform_all w (synth_ops work_dir total (i, seg))
     ≫= (fun _ => mret (with_audio_path work_dir (i, seg)))) tr.
Proof.
  intros (text & voice & Ht & Hv).
  unfold synthesize_one, synthesize_segment, synth_ops, notify_segment,
    seg_text, seg_voice_id, getitem_str, getitem_voice, getitem, with_audio_path,
    segment_audio_path.
  simpl. rewrite Ht, Hv. simpl.
  rewrite !M_bind_run.
  destruct (perform w _ tr) as [tr1 [[]|e]]; [|done].
  unfold lift. simpl. rewrite !M_bind_run.
  destruct (perform w _ tr1) as [tr2 [[]|e]]; [|done].
  rewrite !M_bind_run.
  destruct (perform w _ tr2) as [tr3 [[]|e]]; [|done].
  rewrite !M_bind_run.
  destruct (perform w _ tr3) as [tr4 [[]|e]]; done.
Qed.

Lemma mmap_schedule api_key work_dir total (l : list (nat * segment)) :
  Forall (fun iseg => ready iseg.2) l →
  ∀ tr,
    mmap (synthesize_one w api_key work_dir (Some (notify_segment w)) total) l tr
    = (perform_all w (l ≫= synth_ops work_dir total)
       ≫= (fun _ => mret (with_audio_path work_dir <$> l))) tr.
Proof.
  induction 1 as [|[i seg] l Hr _ IH]; intros tr; [done|].
  rewrite bind_cons, perform_all_app.
  change (mmap ?f ((i, seg) :: l))
    with (f (i, seg) ≫= (fun y => mmap f l ≫= (fun ys => mret (y :: ys)))).
  rewrite (M_bind_run (synthesize_one _ _ _ _ _ _)), synthesize_one_schedule by done.
  rewrite (M_bind_run (perform_all w (synth_ops _ _ _)) _ tr).
  rewrite (M_bind_run (perform_all w (synth_ops _ _ _)) _ tr).
  destruct (perform_all w (synth_ops work_dir total (i, seg)) tr) as [tr1 [[]|e]]; [|done].
  unfold mret at 1, M_ret at 1.
  rewrite (M_bind_run (mmap _ l)), IH.
  rewrite !(M_bind_run (perform_all w (l ≫= synth_ops work_dir total)) _ tr1).
  by destruct (perform_all w (l ≫= synth_ops work_dir total) tr1) as [tr2 [[]|e]].
Qed.

Lemma enumerate_ready (segs : list segment) :
  Forall ready segs → Forall (fun iseg : nat * segment => ready iseg.2) (enumerate segs).
Proof.
  intros H. apply Forall_forall. intros [i seg] Hin. simpl.
  unfold enumerate in Hin. apply elem_of_zip_r in Hin.
  by eapply Forall_forall in H.
Qed.

(** Claim C4. [synthesize_all_segments] follows one fixed schedule:
    create the working directory, then for each segment in order notify
    progress [(i + 1, total, segment)], request the speech, and save the
    audio. A run either completes the whole schedule and returns every
    segment with its audio path, or stops at the first operation that
    raises, with every earlier operation completed and none of the later
    ones attempted. The notification for a segment therefore comes after
    the audio of all earlier segments was saved and just before its own
    request is made. *)
Theorem synthesize_all_segments_schedule
    (segs : list segment) (api_key : string) (work_dir : Path) (tr : trace) :
  Forall ready segs →
  let run := synthesize_all_segments w segs api_key work_dir
               (Some (notify_segment w)) tr in
  let schedule := synth_schedule work_dir segs in
  run = (tr ++ (Done <$> schedule), Ok (with_audio_path work_dir <$> enumerate segs))
  ∨ ∃ done o e rest,
      schedule = done ++ o :: rest
      ∧ run = (tr ++ (Done <$> done) ++ [Failed o e], Raise e).
Proof.
  intros Hready run schedule.
  assert (Hmm := mmap_schedule api_key work_dir (length segs) (enumerate segs)
                   (enumerate_ready segs Hready)).
  assert (Hrun : run = (perform_all w schedule
                        ≫= (fun _ => mret (with_audio_path work_dir <$> enumerate segs))) tr).
  { unfold run, synthesize_all_segments, schedule, synth_schedule.
    rewrite perform_all_cons, M_bind_assoc_run.
    rewrite (M_bind_run (perform w _)), (M_bind_run (perform w _) _ tr).
    destruct (perform w (Mkdir work_dir) tr) as [tr1 [[]|e]]; [|done]. apply Hmm. }
  rewrite Hrun, M_bind_run.
  destruct (perform_all_prefix schedule tr) as [->|(done & o & e & rest & Hsplit & ->)].
  - by left.
  - right. by exists done, o, e, rest.
Qed.

End schedule.

Lemma synthesize_all_segments_schedule_witness :
  (synthesize_all_segments (calm_world 1000) [hello_segment] "key" example_tts_dir
     (Some (notify_segment (calm_world 1000))) []).1
  = Done <$> synth_schedule example_tts_dir [hello_segment].
Proof.
  destruct (synthesize_all_segments_schedule (calm_world 1000) [hello_segment] "key"
              example_tts_dir [])
    as [H|(done & o & e & rest & _ & H)].
  - constructor; [|constructor]. eexists _, _. split; reflexivity.
  - by rewrite H.
  - exfalso. apply (f_equal snd) in H. vm_compute in H. discriminate.
Defined.

(** Claim C4, the failing case: the notification for a segment is
    emitted before its synthesis, hence also when no audio is ever
    obtained for it. *)
Lemma progress_before_synthesis_counterexample :
  synthesize_all_segments tts_down_world [hello_segment] "key" example_tts_dir
    (Some (notify_segment tts_down_world)) []
  = ([Done (Mkdir example_tts_dir);
      Done (NotifySegment 1 1 hello_segment);
      Failed (HttpPost "CwhRBWXzGAHq8TQ4Fs17" "Hello") HTTPError],
     Raise HTTPError).
Proof. vm_compute. reflexivity. Qed.

Section pipeline_main.

(** Claim C3. Over a whole run of [generate], every operation that
    writes under the destination output directory is either the assembly
    of the final video, which writes it there directly, or a copy made
    after that assembly has completed; a run in which the assembly is
    never reached leaves nothing in the output directory. And when any
    step before the assembly raises (script, synthesis, concatenation,
    subtitles, background), the pipeline raises that error having written
    only under the scratch directory. *)
Theorem outputs_gated_by_assembly (w : World) (observed : bool) :
  (∀ (self_config : PodclawConfig) (topic_arg script_arg : option string),
     let tr := (generate w self_config topic_arg script_arg
                  (caller_progress w observed) []).1 in
     (∀ pre ev post, tr = pre ++ ev :: post → touches_output ev = true →
        is_assembly ev = true
        ∨ (is_copy ev = true ∧ Exists (fun e => assembly_done e = true) pre))
     ∧ (Forall (fun e => is_assembly e = false) tr → output_files tr = []))
  ∧ (∀ (config : PodclawConfig) (work_dir : Path) (script_arg : option string)
       (tr0 tr1 : trace) (e : exn),
       loc work_dir = Scratch →
       prepare w config work_dir script_arg (caller_progress w observed) tr0
       = (tr1, Raise e) →
       _run_pipeline w config work_dir script_arg (caller_progress w observed) tr0
       = (tr1, Raise e)
       ∧ ∃ ext, tr1 = tr0 ++ ext ∧ Forall quiet_event ext ∧ output_files ext = []).
Proof.
  split.
  - intros self_config topic_arg script_arg tr.
    destruct (generate_gated w self_config topic_arg script_arg observed [])
      as (ext & Heq & Hg).
    simpl in Heq. fold tr in Heq. subst ext. split.
    + intros pre ev post Hsplit Ht.
      destruct (well_gated_spec _ _ Hg pre ev post Hsplit Ht) as [?|[? [?|?]]];
        [by left|done|by right].
    + intros Hna. by apply quiet_output_files, well_gated_no_assembly.
  - intros config work_dir script_arg tr0 tr1 e Hloc Hprep.
    split; [unfold _run_pipeline; by rewrite (M_bind_Raise _ _ _ _ _ Hprep)|].
    destruct (quiet_prepare w config work_dir script_arg observed Hloc tr0)
      as (ext & Heq & Hq).
    rewrite Hprep in Heq. simpl in Heq.
    exists ext. split; [done|]. split; [done|]. by apply quiet_output_files.
Qed.

Lemma outputs_gated_by_assembly_witness :
  Forall (fun e => is_assembly e = false) tts_down_run.1
  ∧ output_files tts_down_run.1 = [].
Proof.
  assert (Hna : Forall (fun e => is_assembly e = false) tts_down_run.1).
  { vm_compute. repeat constructor. }
  split; [exact Hna|].
  exact (proj2 (proj1 (outputs_gated_by_assembly tts_down_world true)
                  default_config (Some "x") (Some "[A] hi")) Hna).
Defined.

(** Claim C3, the failing case: the video is assembled directly into the
    output directory, and a copy that fails afterwards makes the run
    raise with the video and the audio already delivered. *)
Lemma partial_output_counterexample :
  disk_full_run.2 = Raise OSError
  ∧ delivered_files disk_full_run.1
    = [mkPath Output "." ["podclaw_x.mp4"]; mkPath Output "." ["podclaw_x.mp3"]].
Proof. vm_compute. auto. Qed.

Lemma write_then_raise {B} w p c msg tr :
  ∃ ext e,
    (perform w (WriteFile p c) ≫= (fun _ => @raise B (ValueError msg))) tr
    = (tr ++ ext, Raise e)
    ∧ (never_raises w → e = ValueError msg).
Proof.
  rewrite M_bind_run. unfold perform.
  destruct (raises w tr _) as [e|] eqn:Hr.
  - eexists _, e. split; [done|]. intros Hw. by rewrite Hw in Hr.
  - eexists _, _. split; [done|]. done.
Qed.

Lemma prepare_no_segments w config work_dir script observed tr :
  parse_script (select_script config script) = [] →
  ∃ ext e,
    prepare w config work_dir script (caller_progress w observed) tr
    = (tr ++ ext, Raise e)
    ∧ (never_raises w →
       e = ValueError "Script parsing produced no segments. Check format.").
Proof.
  intros Hparse. unfold prepare. rewrite Hparse. simpl negb. cbv iota.
  rewrite M_bind_run.
  destruct observed; simpl.
  - unfold notify, perform at 1.
    destruct (raises w tr _) as [e|] eqn:Hr.
    + eexists _, e. split; [done|]. intros Hw. by rewrite Hw in Hr.
    + match goal with
      | |- context [(perform w (WriteFile ?p ?c) ≫= ?k) ?t] =>
          destruct (write_then_raise (B := list segment * Path * Path * Path * Path)
                      w p c "Script parsing produced no segments. Check format." t)
            as (ext & e & Heq & He)
      end.
      exists ([Done (Notify "script" "Generating script...")] ++ ext), e.
      rewrite app_assoc. split; [exact Heq|done].
  - apply write_then_raise.
Qed.

Lemma demo_script_nonempty (config : PodclawConfig) : generate_demo_script config ≠ "".
Proof.
  unfold generate_demo_script. cbv zeta.
  destruct (format config);
    rewrite join_cons_cons; cbv [String.append]; discriminate.
Qed.

Lemma select_script_nonempty (config : PodclawConfig) (script : option string) :
  select_script config script ≠ "".
Proof.
  unfold select_script.
  destruct script as [[|c s]|]; simpl; try done;
    destruct (custom_script config) as [[|c' s']|]; simpl; try done;
    apply demo_script_nonempty.
Qed.

(** Claim C8. Parsing the empty text gives no segment; so does parsing
    any text without a speaker tag line, without raising. The pipeline
    parses the script argument when that is not empty, else the configured
    custom script when that is not empty, else the demo script of the
    topic: the text it parses is never empty, and a run with the empty
    text as its script is the run without a script. A pipeline run whose
    script parses to no segment, such as a script argument that is not
    empty and holds no tag line, raises, having written nothing under the
    destination output directory; when nothing else fails the error is the
    [ValueError] "Script parsing produced no segments. Check format.". *)
Theorem empty_parse_is_fatal :
  parse_script "" = []
  ∧ (∀ raw_script, no_tag_lines raw_script → parse_script raw_script = [])
  ∧ (∀ config script,
       select_script config script ≠ ""
       ∧ (∀ s, script = Some s → s ≠ "" → select_script config script = s)
       ∧ (opt_truthy script = false →
          select_script config script = select_script config None
          ∧ (∀ c, custom_script config = Some c → c ≠ "" →
                  select_script config script = c)
          ∧ (opt_truthy (custom_script config) = false →
             select_script config script = generate_demo_script config)))
  ∧ (∀ (w : World) self_config topic_arg on_progress tr,
       generate w self_config topic_arg (Some "") on_progress tr
       = generate w self_config topic_arg None on_progress tr)
  ∧ (∀ (w : World) config work_dir script observed tr,
      loc work_dir = Scratch →
      parse_script (select_script config script) = [] →
      ∃ ext e,
        _run_pipeline w config work_dir script (caller_progress w observed) tr
        = (tr ++ ext, Raise e)
        ∧ Forall quiet_event ext
        ∧ output_files ext = []
        ∧ (never_raises w →
           e = ValueError "Script parsing produced no segments. Check format."))
  ∧ ∀ (w : World) config work_dir s observed tr,
      loc work_dir = Scratch → s ≠ "" → no_tag_lines s →
      ∃ ext e,
        _run_pipeline w config work_dir (Some s) (caller_progress w observed) tr
        = (tr ++ ext, Raise e)
        ∧ Forall quiet_event ext
        ∧ output_files ext = []
        ∧ (never_raises w →
           e = ValueError "Script parsing produced no segments. Check format.").
Proof.
  assert (Hfatal : ∀ (w : World) config work_dir script observed tr,
      loc work_dir = Scratch →
      parse_script (select_script config script) = [] →
      ∃ ext e,
        _run_pipeline w config work_dir script (caller_progress w observed) tr
        = (tr ++ ext, Raise e)
        ∧ Forall quiet_event ext
        ∧ output_files ext = []
        ∧ (never_raises w →
           e = ValueError "Script parsing produced no segments. Check format.")).
  { intros w config work_dir script observed tr Hloc Hparse.
    destruct (prepare_no_segments w config work_dir script observed tr Hparse)
      as (ext & e & Hrun & He).
    exists ext, e. unfold _run_pipeline. rewrite (M_bind_Raise _ _ _ _ _ Hrun).
    split; [done|].
    assert (Hq : Forall quiet_event ext).
    { destruct (quiet_prepare w config work_dir script observed Hloc tr)
        as (ext' & Heq & Hq).
      rewrite Hrun in Heq. simpl in Heq. apply app_inv_head in Heq. by subst. }
    split; [done|]. split; [by apply quiet_output_files|done]. }
  split; [reflexivity|]. split; [apply parse_script_no_tags|].
  split; [|split; [|split; [exact Hfatal|]]].
  - intros config script. split; [apply select_script_nonempty|]. split.
    + intros s -> Hs. unfold select_script. by destruct s.
    + intros Hscript.
      assert (Hnone : select_script config script = select_script config None).
      { unfold select_script. by rewrite Hscript. }
      split; [done|]. rewrite Hnone. unfold select_script. simpl. split.
      * intros c -> Hc. by destruct c.
      * by intros ->.
  - intros w self_config topic_arg on_progress tr. unfold generate, _run_pipeline, prepare.
    done.
  - intros w config work_dir s observed tr Hloc Hs Hnotag.
    apply Hfatal; [done|]. unfold select_script.
    destruct s as [|c s]; [done|]. simpl. by apply parse_script_no_tags.
Qed.

Lemma empty_parse_is_fatal_witness :
  ∃ ext,
    _run_pipeline (calm_world 1000) default_config (mkPath Scratch "/tmp/w" [])
      (Some "Just some text without tags") (caller_progress (calm_world 1000) true) []
    = ([] ++ ext,
       Raise (ValueError "Script parsing produced no segments. Check format."))
    ∧ output_files ext = [].
Proof.
  destruct empty_parse_is_fatal as (_ & _ & _ & _ & _ & Hrun).
  destruct (Hrun (calm_world 1000) default_config (mkPath Scratch "/tmp/w" [])
              "Just some text without tags" true [])
    as (ext & e & Heq & _ & Hout & He).
  - reflexivity.
  - discriminate.
  - vm_compute. repeat constructor.
  - exists ext. rewrite Heq, He; [done|]. by intros tr o.
Defined.

(** Claim C8, the failing case: the empty script text. The pipeline does
    not hand it to the parser: the run works on the demo script of the
    topic, returns a manifest of fourteen segments and leaves its five
    artifacts in the output directory. *)
Lemma empty_script_runs_demo_counterexample :
  parse_script "" = []
  ∧ (∃ m, empty_script_run.2 = Ok m ∧ segment_count m = 14)
  ∧ output_files empty_script_run.1
    = [mkPath Output "." ["podclaw_x.mp4"]; mkPath Output "." ["podclaw_x.mp3"];
       mkPath Output "." ["podclaw_x.srt"]; mkPath Output "." ["podclaw_x_script.txt"];
       mkPath Output "." ["podclaw_x_bg.png"]].
Proof.
  split; [reflexivity|]. split.
  - eexists. split; [vm_compute; reflexivity|]. reflexivity.
  - vm_compute. reflexivity.
Qed.

(** With an empty roster the first speaker met divides by zero. *)
Lemma assign_voices_empty_roster seg sp rest config :
  voices config = [] → has_speaker seg sp →
  assign_voices (seg :: rest) config = Raise ZeroDivisionError.
Proof.
  intros Hv Hsp. unfold assign_voices, speaker_map, get_all_voices. rewrite Hv.
  change (get_voice config <$> []) with (@nil Voice). rewrite rfold_cons.
  assert (Hs : assign_step [] ∅ seg = Raise ZeroDivisionError).
  { unfold assign_step. by rewrite (speaker_key_has _ _ Hsp), bind_Ok, lookup_empty. }
  by rewrite Hs.
Qed.

(** Claim C5. The run of an empty roster, evaluated: no configuration
    error is raised at the start. The script is written to the scratch
    directory and parsed, and voice assignment then raises
    [ZeroDivisionError]. *)
Theorem empty_roster_divides_by_zero :
  generate (calm_world 1000) (with_voices [] default_config) (Some "x") (Some "[A] hi")
           (caller_progress (calm_world 1000) true) []
  = ([Done (Mkdtemp (mkPath Scratch "/tmp/podclaw_0" []));
      Done (Mkdir (mkPath Output "." []));
      Done (Notify "script" "Generating script...");
      Done (WriteFile (mkPath Scratch "/tmp/podclaw_0" ["script.txt"]) (Text "[A] hi"));
      Done (Rmtree (mkPath Scratch "/tmp/podclaw_0" []))],
     Raise ZeroDivisionError).
Proof. vm_compute. reflexivity. Qed.

End pipeline_main.

(* ===================================================================== *)
(** * Further properties                                                  *)
(* ===================================================================== *)

(** ** Whitespace stripping *)

Section stripping.

Lemma lstrip_length s : (String.length (Py.lstrip s) ≤ String.length s)%nat.
Proof.
  induction s as [|c s IH]; [done|]. simpl.
  destruct (Py.isspace c); simpl; lia.
Qed.

Lemma rstrip_length s : (String.length (Py.rstrip s) ≤ String.length s)%nat.
Proof.
  induction s as [|c s IH]; [done|]. simpl.
  destruct (Py.rstrip s) as [|c' r]; [destruct (Py.isspace c)|]; simpl in *; lia.
Qed.

Lemma lstrip_head s : head_nonspace s = true → Py.lstrip s = s.
Proof.
  destruct s as [|c s]; [done|]. simpl. by intros ->%negb_true_iff.
Qed.

Lemma lstrip_fixed s : Py.lstrip s = s → s ≠ "" → head_nonspace s = true.
Proof.
  destruct s as [|c s]; [done|]. simpl. intros H _.
  destruct (Py.isspace c); [|done].
  pose proof (lstrip_length s) as Hl. rewrite H in Hl. simpl in Hl. lia.
Qed.

Lemma lstrip_headed s : Py.lstrip s = "" ∨ head_nonspace (Py.lstrip s) = true.
Proof.
  induction s as [|c s IH]; [by left|]. simpl.
  destruct (Py.isspace c) eqn:Hc; [done|]. right. simpl. by rewrite Hc.
Qed.

Lemma last_nonspace_cons c s b :
  last_nonspace b (String c s) = last_nonspace (negb (Py.isspace c)) s.
Proof. reflexivity. Qed.

Lemma last_nonspace_app s t b :
  last_nonspace b (s +:+ t) = last_nonspace (last_nonspace b s) t.
Proof. revert b. induction s as [|c s IH]; intros b; [done|]. apply IH. Qed.

Lemma last_nonspace_nonempty s b : s ≠ "" → last_nonspace b s = last_nonspace true s.
Proof. destruct s; done. Qed.

Lemma rstrip_last s : last_nonspace true s = true → Py.rstrip s = s.
Proof.
  induction s as [|c s IH]; [done|]. rewrite last_nonspace_cons. intros H.
  simpl. destruct s as [|c' s'].
  - simpl in *. by apply negb_true_iff in H as ->.
  - rewrite IH; [done|]. rewrite <- H. symmetry. by apply last_nonspace_nonempty.
Qed.

Lemma rstrip_fixed s : Py.rstrip s = s → s ≠ "" → last_nonspace true s = true.
Proof.
  induction s as [|c s IH]; [done|]. intros H _. rewrite last_nonspace_cons.
  simpl in H. destruct (Py.rstrip s) as [|c' r] eqn:Hr.
  - destruct (Py.isspace c) eqn:Hc; [done|]. by inversion H; subst.
  - assert (Hs : s = String c' r) by congruence.
    rewrite last_nonspace_nonempty by (by rewrite Hs).
    apply IH; [congruence|by rewrite Hs].
Qed.

Lemma rstrip_lasted s : Py.rstrip s = "" ∨ last_nonspace true (Py.rstrip s) = true.
Proof.
  induction s as [|c s IH]; [by left|]. simpl.
  destruct (Py.rstrip s) as [|c' r] eqn:Hr.
  - destruct (Py.isspace c) eqn:Hc; [by left|]. right. simpl. by rewrite Hc.
  - right. destruct IH as [?|IH]; [done|].
    rewrite last_nonspace_cons, last_nonspace_nonempty by done. done.
Qed.

Lemma rstrip_keeps_head s : head_nonspace s = true → head_nonspace (Py.rstrip s) = true.
Proof.
  destruct s as [|c s]; [done|]. simpl. intros Hc.
  destruct (Py.rstrip s); [|done].
  apply negb_true_iff in Hc. rewrite Hc. simpl. by rewrite Hc.
Qed.

(** A string is its own [strip] exactly when it is empty or has no
    whitespace at either end. *)
Lemma strip_id s :
  head_nonspace s = true → last_nonspace true s = true → Py.strip s = s.
Proof. intros Hh Hl. unfold Py.strip. by rewrite lstrip_head, rstrip_last. Qed.

Lemma strip_fixed s :
  Py.strip s = s → s ≠ "" → head_nonspace s = true ∧ last_nonspace true s = true.
Proof.
  intros H Hne. unfold Py.strip in H.
  assert (Hl : Py.lstrip s = s).
  { pose proof (rstrip_length (Py.lstrip s)) as H1. rewrite H in H1.
    pose proof (lstrip_length s) as H2.
    destruct s as [|c s]; [done|]. simpl in *.
    destruct (Py.isspace c); [|done].
    pose proof (lstrip_length s). lia. }
  rewrite Hl in H. split; [by apply lstrip_fixed|by apply rstrip_fixed].
Qed.

Lemma strip_ends s :
  Py.strip s = ""
  ∨ (head_nonspace (Py.strip s) = true ∧ last_nonspace true (Py.strip s) = true).
Proof.
  unfold Py.strip. destruct (lstrip_headed s) as [->|Hh]; [by left|].
  destruct (rstrip_lasted (Py.lstrip s)) as [->|Hl]; [by left|].
  right. split; [by apply rstrip_keeps_head|done].
Qed.

Lemma strip_idemp s : Py.strip (Py.strip s) = Py.strip s.
Proof.
  destruct (strip_ends s) as [->|[Hh Hl]]; [done|]. by apply strip_id.
Qed.

Lemma strip_headed s : head_nonspace s = true → Py.strip s ≠ "".
Proof.
  intros Hh. unfold Py.strip. rewrite lstrip_head by done.
  apply rstrip_keeps_head in Hh. by destruct (Py.rstrip s).
Qed.

Lemma strip_cons_space c s : Py.isspace c = true → Py.strip (String c s) = Py.strip s.
Proof. intros Hc. unfold Py.strip. simpl. by rewrite Hc. Qed.

Lemma head_nonspace_app s t : head_nonspace s = true → head_nonspace (s +:+ t) = true.
Proof. by destruct s. Qed.

Lemma join_head sep x l : head_nonspace x = true → head_nonspace (Py.join sep (x :: l)) = true.
Proof.
  intros Hx. destruct l as [|y l]; [done|]. rewrite join_cons_cons.
  by apply head_nonspace_app.
Qed.

Lemma join_last sep (l : list string) :
  l ≠ [] → Forall (fun x => last_nonspace true x = true ∧ x ≠ "") l →
  last_nonspace true (Py.join sep l) = true.
Proof.
  intros Hne H. induction H as [|x l [Hx Hxe] Hl IH]; [done|].
  destruct l as [|y l]; [done|]. rewrite join_cons_cons, !last_nonspace_app.
  assert (Hj : Py.join sep (y :: l) ≠ "").
  { inversion Hl as [|? ? [_ Hy] _]; subst. destruct l; [done|].
    rewrite join_cons_cons. by destruct y. }
  rewrite last_nonspace_nonempty by done. by apply IH.
Qed.

Lemma strip_join sep (x : string) (l : list string) :
  Forall (fun y => y ≠ "" ∧ Py.strip y = y) (x :: l) →
  Py.strip (Py.join sep (x :: l)) = Py.join sep (x :: l).
Proof.
  intros H. apply strip_id.
  - apply join_head. inversion H as [|? ? [Hne Hs] _]; subst.
    by apply strip_fixed.
  - apply join_last; [done|]. eapply Forall_impl; [exact H|].
    intros y [Hne Hs]. split; [by apply strip_fixed|done].
Qed.

End stripping.

(** ** Lines and turns of a script *)

Section lines.

Lemma contains_c_cons c c' s :
  Py.contains_c c (String c' s) = bool_decide (c' = c) || Py.contains_c c s.
Proof.
  unfold Py.contains_c. simpl. destruct (decide (c' = c)) as [->|Hne].
  - rewrite (bool_decide_eq_true_2 (c = c)) by done.
    rewrite bool_decide_eq_true_2; [done|]. by eexists.
  - rewrite (bool_decide_eq_false_2 (c' = c)) by done. simpl.
    apply bool_decide_ext. by rewrite fmap_is_Some.
Qed.

Lemma contains_c_app c s t :
  Py.contains_c c (s +:+ t) = Py.contains_c c s || Py.contains_c c t.
Proof.
  induction s as [|c' s IH]; [done|].
  by rewrite sapp_cons, !contains_c_cons, IH, orb_assoc.
Qed.

Lemma index_c_app_here c s t :
  Py.contains_c c s = false →
  Py.index_c c (s +:+ String c t) = Some (String.length s).
Proof.
  induction s as [|c' s IH]; intros H.
  - simpl. by rewrite decide_True.
  - rewrite contains_c_cons in H. apply orb_false_iff in H as [Hc Hs].
    apply bool_decide_eq_false in Hc. rewrite sapp_cons. simpl.
    rewrite decide_False by done. by rewrite IH.
Qed.

Lemma take_app_length s t : Py.take (String.length s) (s +:+ t) = s.
Proof. induction s as [|c s IH]; [by destruct t|]. simpl. by rewrite IH. Qed.

Lemma drop_app_length s t : Py.drop (String.length s) (s +:+ t) = t.
Proof. induction s as [|c s IH]; [done|]. simpl. by rewrite IH. Qed.

Lemma drop_app_length_S s c t : Py.drop (S (String.length s)) (s +:+ String c t) = t.
Proof. induction s as [|c' s IH]; [done|]. exact IH. Qed.

Lemma split_on_plain sep l :
  Py.contains_c sep l = false → Py.split_on sep l = [l].
Proof.
  induction l as [|c l IH]; [done|]. rewrite contains_c_cons. intros H.
  apply orb_false_iff in H as [Hc Hl]. apply bool_decide_eq_false in Hc.
  simpl. rewrite decide_False by done. by rewrite IH.
Qed.

Lemma split_on_app sep l rest :
  Py.contains_c sep l = false →
  Py.split_on sep (l +:+ String sep rest) = l :: Py.split_on sep rest.
Proof.
  induction l as [|c l IH].
  - intros _. simpl. by rewrite decide_True.
  - rewrite contains_c_cons. intros H.
    apply orb_false_iff in H as [Hc Hl]. apply bool_decide_eq_false in Hc.
    rewrite sapp_cons. simpl. rewrite decide_False by done. by rewrite IH.
Qed.

(** Splitting the joined lines at the line breaks gives the lines back. *)
Lemma split_on_join (l : string) (ls : list string) :
  Forall (fun x => Py.contains_c "010" x = false) (l :: ls) →
  Py.split_on "010" (Py.join nl (l :: ls)) = l :: ls.
Proof.
  revert l. induction ls as [|y ls IH]; intros l H.
  - apply split_on_plain. by inversion H.
  - rewrite join_cons_cons. unfold nl at 1. rewrite sapp_cons, sapp_nil_l.
    inversion H as [|? ? Hl Hrest]; subst.
    rewrite split_on_app by done. by rewrite IH.
Qed.

End lines.

Section parsing_turns.

Lemma plain_line_truthy l : plain_line l → truthy l = true.
Proof. intros [H _]. by destruct l. Qed.

Lemma tag_line_plain sp first :
  plain_line first → Py.strip ("[" +:+ sp +:+ "] " +:+ first) = "[" +:+ sp +:+ "] " +:+ first.
Proof.
  intros (Hne & Hs & _). apply strip_id; [done|].
  change ("[" +:+ sp +:+ "] " +:+ first) with (String "[" (sp +:+ "] " +:+ first)).
  rewrite last_nonspace_cons, !last_nonspace_app.
  rewrite (last_nonspace_nonempty first) by done. by apply strip_fixed.
Qed.

Lemma parse_tag_line st sp first :
  plain_line sp → Py.contains_c "]" sp = false → plain_line first →
  parse_line st ("[" +:+ sp +:+ "] " +:+ first)
  = {| segments := segments (flush true st);
       current_speaker := Some sp;
       current_text := current_text (flush true st) ++ [first] |}.
Proof.
  intros Hsp Hbr Hfirst. unfold parse_line.
  rewrite tag_line_plain by done. cbv zeta.
  change ("[" +:+ sp +:+ "] " +:+ first) with (String "[" (sp +:+ String "]" (String " " first))).
  assert (Hidx : Py.index_c "]" (String "[" (sp +:+ String "]" (String " " first)))
                 = Some (S (String.length sp))).
  { change (Py.index_c "]" (String "[" ?s)) with (S <$> Py.index_c "]" s).
    by rewrite index_c_app_here. }
  assert (Htag : is_tag_line (String "[" (sp +:+ String "]" (String " " first))) = true).
  { unfold is_tag_line, Py.contains_c. rewrite Hidx. done. }
  rewrite Htag, Hidx. simpl negb. cbv iota.
  assert (Hslice : Py.slice 1 (S (String.length sp))
                     (String "[" (sp +:+ String "]" (String " " first))) = sp).
  { unfold Py.slice. replace (S (String.length sp) - 1)%nat with (String.length sp) by lia.
    simpl Py.drop. apply take_app_length. }
  assert (Hdrop : Py.drop (S (String.length sp) + 1)
                    (String "[" (sp +:+ String "]" (String " " first))) = String " " first).
  { replace (S (String.length sp) + 1)%nat with (S (S (String.length sp))) by lia.
    change (Py.drop (S ?n) (String ?c ?s)) with (Py.drop n s).
    apply drop_app_length_S. }
  rewrite Hslice, Hdrop. destruct Hsp as (_ & -> & _).
  rewrite strip_cons_space by done. destruct Hfirst as (Hne & -> & _).
  by destruct first.
Qed.

Lemma parse_more_line segs t seen l :
  plain_line (turn_speaker t) → plain_line l → is_tag_line l = false →
  parse_line (in_turn segs t seen) l = in_turn segs t (seen ++ [l]).
Proof.
  intros Hsp Hl Htag. unfold parse_line. destruct Hl as (Hne & Hs & Hnl).
  rewrite Hs, Htag. destruct l; [done|]. simpl.
  by rewrite (plain_line_truthy _ Hsp).
Qed.

Lemma parse_more_lines segs t (more seen : list string) :
  plain_line (turn_speaker t) →
  Forall (fun l => plain_line l ∧ is_tag_line l = false) more →
  fold_left parse_line more (in_turn segs t seen) = in_turn segs t (seen ++ more).
Proof.
  intros Hsp H. revert seen. induction H as [|l more [Hl Htag] _ IH]; intros seen.
  - by rewrite app_nil_r.
  - simpl. rewrite parse_more_line by done. rewrite IH. by rewrite <- app_assoc.
Qed.

Lemma flush_in_turn reset segs t seen :
  plain_line (turn_speaker t) →
  flush reset (in_turn segs t seen)
  = {| segments := segs ++ [mk_segment (turn_speaker t)
                              (Py.strip (Py.join " " (turn_first t :: seen)))];
       current_speaker := Some (turn_speaker t);
       current_text := if reset then [] else turn_first t :: seen |}.
Proof.
  intros Hsp. unfold flush. simpl. by rewrite (plain_line_truthy _ Hsp).
Qed.

Lemma turn_text_stripped t :
  well_formed_turn t →
  Py.strip (Py.join " " (turn_first t :: turn_more t)) = Py.join " " (turn_first t :: turn_more t).
Proof.
  intros (_ & _ & (Hne & Hs & _) & Hmore). apply strip_join. constructor; [done|].
  eapply Forall_impl; [exact Hmore|]. by intros l [(? & ? & _) _].
Qed.

(** One whole turn, scanned from a state that holds the turn before. *)
Lemma parse_turn_from st t :
  well_formed_turn t →
  current_text (flush true st) = [] →
  fold_left parse_line (turn_lines t) st
  = in_turn (segments (flush true st)) t (turn_more t).
Proof.
  intros Hwf Hflushed. pose proof Hwf as (Hsp & Hbr & Hfirst & Hmore).
  unfold turn_lines. simpl fold_left. rewrite parse_tag_line by done.
  rewrite Hflushed. simpl app.
  change {| segments := segments (flush true st);
            current_speaker := Some (turn_speaker t);
            current_text := [turn_first t] |}
    with (in_turn (segments (flush true st)) t []).
  by rewrite parse_more_lines.
Qed.

Lemma parse_turns_from (turns : list Turn) :
  Forall well_formed_turn turns →
  ∀ segs t0, well_formed_turn t0 →
    segments (flush false
      (fold_left parse_line (turns ≫= turn_lines) (in_turn segs t0 (turn_more t0))))
    = segs ++ (turn_segment <$> t0 :: turns).
Proof.
  induction 1 as [|t turns Ht _ IH]; intros segs t0 Ht0.
  - change (fold_left parse_line ([] ≫= turn_lines) ?s) with s.
    rewrite flush_in_turn by apply Ht0. cbn [segments].
    by rewrite turn_text_stripped.
  - rewrite bind_cons, fold_left_app.
    rewrite parse_turn_from; [|done|by rewrite flush_in_turn by apply Ht0].
    rewrite flush_in_turn by apply Ht0. cbn [segments].
    rewrite IH by done. rewrite turn_text_stripped by done.
    by rewrite <- app_assoc.
Qed.

Lemma turn_lines_plain t :
  well_formed_turn t →
  Forall (fun l => l ≠ "" ∧ Py.strip l = l ∧ Py.contains_c "010" l = false) (turn_lines t).
Proof.
  intros (Hsp & Hbr & Hfirst & Hmore). unfold turn_lines. constructor.
  - split; [done|]. split; [by apply tag_line_plain|].
    destruct Hsp as (_ & _ & Hsp). destruct Hfirst as (_ & _ & Hfirst).
    change ("[" +:+ turn_speaker t +:+ "] " +:+ turn_first t)
      with (String "[" (turn_speaker t +:+ "] " +:+ turn_first t)).
    rewrite contains_c_cons, !contains_c_app, Hsp, Hfirst. done.
  - eapply Forall_impl; [exact Hmore|]. by intros l [? _].
Qed.

(** A script that spells out well-formed turns parses back to them. *)
Lemma parse_script_of (turns : list Turn) :
  Forall well_formed_turn turns →
  parse_script (script_of turns) = turn_segment <$> turns.
Proof.
  intros Hwf. destruct Hwf as [|t turns Ht Hturns]; [done|].
  unfold parse_script, script_of.
  assert (Hlines : Forall (fun l => l ≠ "" ∧ Py.strip l = l ∧ Py.contains_c "010" l = false)
                     ((t :: turns) ≫= turn_lines)).
  { apply Forall_bind. constructor; [by apply turn_lines_plain|].
    eapply Forall_impl; [exact Hturns|]. apply turn_lines_plain. }
  assert (Hcons : ∃ l ls, (t :: turns) ≫= turn_lines = l :: ls).
  { rewrite bind_cons. unfold turn_lines at 1. by eexists _, _. }
  destruct Hcons as (l & ls & Hcons). rewrite Hcons in Hlines |- *.
  rewrite strip_join.
  2:{ eapply Forall_impl; [exact Hlines|]. by intros x (? & ? & _). }
  rewrite split_on_join.
  2:{ eapply Forall_impl; [exact Hlines|]. by intros x (? & ? & ?). }
  rewrite <- Hcons, bind_cons. cbv zeta.
  rewrite fold_left_app, parse_turn_from by done.
  by rewrite parse_turns_from.
Qed.

End parsing_turns.

(** ** What every parsed segment satisfies *)

Section parse_invariant.

Lemma truthy_ne s : truthy s = true ↔ s ≠ "".
Proof. by destruct s. Qed.

Lemma flush_ok reset st : scan_ok st → scan_ok (flush reset st).
Proof.
  intros Hst. pose proof Hst as (Hsegs & Hsp & Htext). unfold flush.
  destruct (current_speaker st) as [sp|] eqn:Hcur; [|done].
  destruct (truthy sp && nonempty (current_text st)) eqn:Hc; [|done].
  apply andb_true_iff in Hc as [Hspt Hne].
  split; [|split]; cbn [segments current_speaker current_text].
  - apply Forall_app. split; [done|]. constructor; [|constructor].
    exists sp, (Py.strip (Py.join " " (current_text st))).
    split; [done|]. split; [by apply truthy_ne|].
    split; [|split; [by apply Hsp|apply strip_idemp]].
    destruct (current_text st) as [|x l]; [done|].
    apply strip_headed, join_head. inversion Htext as [|? ? [Hx Hxs] _]; subst.
    by apply strip_fixed.
  - intros sp' Heq. apply Hsp. congruence.
  - by destruct reset.
Qed.

Lemma parse_line_ok st raw_line : scan_ok st → scan_ok (parse_line st raw_line).
Proof.
  intros Hst. unfold parse_line. cbv zeta.
  destruct (truthy (Py.strip raw_line)) eqn:Hline; [|done]. cbn [negb].
  destruct (is_tag_line (Py.strip raw_line)).
  - pose proof (flush_ok true st Hst) as (Hsegs & Hsp & Htext).
    destruct (Py.index_c "]" (Py.strip raw_line)) as [bracket_end|]; [|done].
    split; [|split]; cbn [segments current_speaker current_text].
    + done.
    + intros sp [= <-]. apply strip_idemp.
    + destruct (truthy (Py.strip (Py.drop (bracket_end + 1) (Py.strip raw_line)))) eqn:Hrem;
        [|done].
      apply Forall_app. split; [done|]. constructor; [|constructor].
      split; [by apply truthy_ne|apply strip_idemp].
  - pose proof Hst as (Hsegs & Hsp & Htext).
    destruct (speaker_truthy (current_speaker st)); [|done].
    split; [|split]; cbn [segments current_speaker current_text]; [done|done|].
    apply Forall_app. split; [done|]. constructor; [|constructor].
    split; [by apply truthy_ne|apply strip_idemp].
Qed.

Lemma parse_lines_ok (lines : list string) st :
  scan_ok st → scan_ok (fold_left parse_line lines st).
Proof.
  revert st. induction lines as [|l lines IH]; intros st Hst; [done|].
  simpl. by apply IH, parse_line_ok.
Qed.

Lemma parse_script_parsed (raw_script : string) :
  Forall parsed_segment (parse_script raw_script).
Proof.
  unfold parse_script. cbv zeta.
  apply flush_ok, parse_lines_ok. split; [constructor|]. split; [done|constructor].
Qed.

Lemma parsed_speakers (segs : list segment) :
  Forall parsed_segment segs → ∃ speakers, Forall2 has_speaker segs speakers.
Proof.
  induction 1 as [|seg segs (sp & text & -> & _) _ [sps IH]]; [by exists []|].
  exists (sp :: sps). by constructor.
Qed.

(** Every segment [parse_script] returns is the dict of a speaker and a
    text, both non-empty and without whitespace at either end. *)
Theorem parse_script_segments_well_formed (raw_script : string) (seg : segment) :
  seg ∈ parse_script raw_script →
  ∃ speaker text,
    seg = mk_segment speaker text
    ∧ speaker ≠ "" ∧ text ≠ ""
    ∧ Py.strip speaker = speaker ∧ Py.strip text = text.
Proof.
  intros Hin. pose proof (parse_script_parsed raw_script) as H.
  by eapply Forall_forall in H.
Qed.

Lemma parse_script_segments_well_formed_witness :
  ∃ speaker text,
    mk_segment "HOST_A" "Hello there." = mk_segment speaker text
    ∧ speaker ≠ "" ∧ text ≠ ""
    ∧ Py.strip speaker = speaker ∧ Py.strip text = text.
Proof.
  apply (parse_script_segments_well_formed "[HOST_A] Hello there.").
  vm_compute. left.
Defined.

(** Whatever script is parsed, a non-empty roster gives every segment a
    voice: [assign_voices] returns, and its segments are ready for
    synthesis. *)
Theorem assign_voices_after_parse_script (raw_script : string) (config : PodclawConfig) :
  voices config ≠ [] →
  ∃ out,
    assign_voices (parse_script raw_script) config = Ok out
    ∧ length out = length (parse_script raw_script)
    ∧ Forall ready out.
Proof.
  intros Hne. pose proof (parse_script_parsed raw_script) as Hp.
  destruct (parsed_speakers _ Hp) as [speakers Hsp].
  destruct (assign_voices_total _ speakers config Hsp Hne) as (m & out & Hout & _ & Hf3).
  exists out. split; [done|]. clear Hout Hsp.
  revert Hf3 Hp. generalize (parse_script raw_script). intros segs0 Hf3.
  induction Hf3 as [|seg sp o segs sps outs (v & _ & ->) _ IH]; intros Hp.
  - by split.
  - inversion Hp as [|? ? (sp' & text & -> & _) Hp']; subst.
    destruct (IH Hp') as [Hlen Hready]. split; [simpl; by rewrite Hlen|].
    constructor; [|done]. exists text, v. split; [|by rewrite lookup_insert_eq].
    rewrite lookup_insert_ne by done. unfold mk_segment.
    rewrite lookup_insert_ne by done. by rewrite lookup_insert_eq.
Qed.

Lemma assign_voices_after_parse_script_witness :
  ∃ out,
    assign_voices (parse_script "[A] hi") default_config = Ok out
    ∧ length out = length (parse_script "[A] hi")
    ∧ Forall ready out.
Proof. apply assign_voices_after_parse_script. discriminate. Defined.

End parse_invariant.

(** ** Scripts given line by line *)

Section demo.

(** Writing turns out as a tagged script and parsing it gives the turns
    back: for turns whose speaker, first text and continuation lines are
    plain lines (not empty, no line break, no whitespace at either end),
    the speaker holding no closing bracket and no continuation line
    looking like a tag,
    [parse_script] returns one segment per turn, in order, with the
    turn's speaker and its lines joined by single spaces. *)
Theorem parse_script_round_trip (turns : list Turn) :
  Forall well_formed_turn turns →
  parse_script (script_of turns) = turn_segment <$> turns.
Proof. apply parse_script_of. Qed.

Lemma parse_script_round_trip_witness :
  parse_script (script_of [mkTurn "HOST_A" "Hello" ["world"]; mkTurn "HOST_B" "Hi" []])
  = [mk_segment "HOST_A" "Hello world"; mk_segment "HOST_B" "Hi"].
Proof.
  apply (parse_script_round_trip
           [mkTurn "HOST_A" "Hello" ["world"]; mkTurn "HOST_B" "Hi" []]).
  repeat constructor; done.
Defined.

(** A line of the demo script around the topic. *)
Lemma plain_line_around (a b t : string) :
  head_nonspace a = true → last_nonspace true b = true → b ≠ "" →
  Py.contains_c "010" a = false → Py.contains_c "010" b = false →
  Py.contains_c "010" t = false →
  plain_line (a +:+ t +:+ b).
Proof.
  intros Ha Hb Hbne Hna Hnb Hnt. split; [by destruct a|]. split.
  - apply strip_id; [by apply head_nonspace_app|].
    rewrite !last_nonspace_app. by rewrite last_nonspace_nonempty.
  - by rewrite !contains_c_app, Hna, Hnt, Hnb.
Qed.

Lemma plain_line_fixed (a : string) :
  head_nonspace a = true → last_nonspace true a = true →
  Py.contains_c "010" a = false → plain_line a.
Proof.
  intros Ha Hl Hn. split; [by destruct a|]. split; [by apply strip_id|done].
Qed.

End demo.

Section tagged_lines.

Lemma index_c_none_app c s t :
  Py.contains_c c s = false → Py.index_c c t = None → Py.index_c c (s +:+ t) = None.
Proof.
  intros Hs Ht. induction s as [|c' s IH]; [done|].
  rewrite contains_c_cons in Hs. apply orb_false_iff in Hs as [Hc Hs].
  apply bool_decide_eq_false in Hc. rewrite sapp_cons. simpl.
  rewrite decide_False by done. by rewrite IH.
Qed.

Lemma contains_c_none c s : Py.index_c c s = None → Py.contains_c c s = false.
Proof. intros H. unfold Py.contains_c. by rewrite H. Qed.

(** A script of one-line turns, given by its lines. *)
Lemma parse_tagged_lines (lines speakers : list string) :
  Forall (fun sp => plain_line sp ∧ Py.contains_c "]" sp = false) speakers →
  Forall2 (fun line sp => ∃ text, line = "[" +:+ sp +:+ "] " +:+ text ∧ plain_line text)
          lines speakers →
  ∃ texts,
    parse_script (Py.join nl lines) = zip_with mk_segment speakers texts
    ∧ length texts = length speakers
    ∧ Forall (fun text => text ≠ "") texts.
Proof.
  intros Hsp Hlines.
  assert (Hturns : ∃ turns,
             lines = turns ≫= turn_lines ∧ Forall well_formed_turn turns
             ∧ turn_segment <$> turns = zip_with mk_segment speakers (turn_first <$> turns)
             ∧ length turns = length speakers
             ∧ Forall (fun text => text ≠ "") (turn_first <$> turns)).
  { induction Hlines as [|line sp lines speakers (text & -> & Htext) _ IH].
    - exists []. repeat split; constructor.
    - inversion Hsp as [|? ? [Hp Hb] Hsp']; subst.
      destruct (IH Hsp') as (turns & -> & Hwf & Hseg & Hlen & Hne).
      exists (mkTurn sp text [] :: turns). split; [done|].
      split; [constructor; [|done]; split; [done|]; split; [done|];
              split; [done|constructor]|].
      split; [by rewrite fmap_cons, Hseg|]. split; [simpl; by rewrite Hlen|].
      rewrite fmap_cons. constructor; [apply Htext|done]. }
  destruct Hturns as (turns & -> & Hwf & Hseg & Hlen & Hne).
  exists (turn_first <$> turns). rewrite length_fmap.
  split; [|done]. rewrite <- Hseg. by apply parse_script_of.
Qed.

End tagged_lines.

(** ** The demo script *)

Ltac literal_prefix s :=
  lazymatch s with
  | String ?c ?r => let p := literal_prefix r in constr:(String c p)
  | _ => constr:(EmptyString)
  end.

Ltac after_prefix s :=
  lazymatch s with
  | String _ ?r => after_prefix r
  | ?x => x
  end.

(** A text of the demo script is a plain line: either fixed, or fixed
    text around the topic. *)
Ltac demo_text Ht :=
  lazymatch goal with
  | |- plain_line ?s0 =>
      let s := eval cbv [String.append] in s0 in
      let p := literal_prefix s in
      let r := after_prefix s in
      lazymatch r with
      | EmptyString => apply plain_line_fixed; vm_compute; reflexivity
      | ?f ?t ?b =>
          change s0 with (p +:+ t +:+ b);
          apply (plain_line_around p b t);
          [ reflexivity | reflexivity | discriminate | vm_compute; reflexivity
          | vm_compute; reflexivity | exact Ht ]
      end
  end.

Ltac demo_parse Hf Ht :=
  unfold generate_demo_script; rewrite Hf; cbv zeta;
  apply parse_tagged_lines;
  [ repeat (constructor;
            [split; [apply plain_line_fixed; vm_compute; reflexivity
                    |vm_compute; reflexivity]|]);
    constructor
  | repeat match goal with
           | |- Forall2 _ (_ :: _) _ => constructor
           | |- Forall2 _ [] _ => constructor
           end;
    (eexists; split; [reflexivity|]; demo_text Ht) ].

Ltac demo_case f Hf Ht :=
  let l := eval vm_compute in (roles_in_turn (SPEAKER_ROLES f) (demo_lines f)) in
  change (roles_in_turn (SPEAKER_ROLES f) (demo_lines f)) with l;
  change (demo_lines f) with (length l);
  demo_parse Hf Ht.

Section demo_script.

Lemma demo_script_turns (config : PodclawConfig) :
  Py.contains_c "010" (topic config) = false →
  ∃ texts,
    parse_script (generate_demo_script config)
    = zip_with mk_segment
        (roles_in_turn (SPEAKER_ROLES (format config)) (demo_lines (format config))) texts
    ∧ length texts = demo_lines (format config)
    ∧ Forall (fun text => text ≠ "") texts.
Proof.
  intros Ht. destruct (format config) eqn:Hf.
  - demo_case DEBATE Hf Ht.
  - demo_case MONOLOGUE Hf Ht.
  - demo_case NEWS_RECAP Hf Ht.
  - demo_case INTERVIEW Hf Ht.
  - demo_case STORYTELLING Hf Ht.
Qed.

Lemma roles_in_turn_lookup (roles : list string) (n i : nat) sp :
  roles ≠ [] → roles_in_turn roles n !! i = Some sp →
  roles !! (i `mod` length roles)%nat = Some sp.
Proof.
  intros Hne Hi. unfold roles_in_turn in Hi.
  apply list_lookup_fmap_Some in Hi as (j & -> & Hj).
  apply lookup_seq in Hj as [-> _]. simpl.
  destruct (roles !! (i `mod` length roles)%nat) eqn:Hl; [done|].
  apply lookup_ge_None in Hl.
  assert (length roles ≠ 0%nat) by (by destruct roles).
  pose proof (Nat.mod_upper_bound i (length roles)). lia.
Qed.

(** Whatever the topic, as long as it holds no line break, the demo
    script parses to one segment per line: fourteen for the two-speaker
    formats, eleven for the monologue, thirteen for the news recap; the
    speakers are the roles of the format taken in turn, and no text is
    empty. *)
Theorem demo_script_parses (config : PodclawConfig) :
  Py.contains_c "010" (topic config) = false →
  let roles := SPEAKER_ROLES (format config) in
  let segs := parse_script (generate_demo_script config) in
  length segs = match format config with
                | MONOLOGUE => 11%nat
                | NEWS_RECAP => 13%nat
                | _ => 14%nat
                end
  ∧ ∀ (i : nat) seg, segs !! i = Some seg →
      ∃ speaker text,
        roles !! (i `mod` length roles)%nat = Some speaker
        ∧ text ≠ "" ∧ seg = mk_segment speaker text.
Proof.
  intros Ht roles segs.
  destruct (demo_script_turns config Ht) as (texts & Hsegs & Hlen & Hne).
  fold segs in Hsegs. split.
  - rewrite Hsegs, length_zip_with. unfold roles_in_turn.
    rewrite length_fmap, length_seq, Hlen. unfold demo_lines.
    destruct (format config); lia.
  - intros i seg Hi. rewrite Hsegs in Hi.
    apply lookup_zip_with_Some in Hi as (sp & text & -> & Hsp & Htext).
    exists sp, text. split; [|split; [|done]].
    + eapply roles_in_turn_lookup; [|exact Hsp]. unfold roles. by destruct (format config).
    + eapply Forall_forall in Hne; [exact Hne|]. by eapply list_elem_of_lookup_2.
Qed.

Lemma demo_script_parses_witness :
  length (parse_script (generate_demo_script (with_topic "AI" default_config))) = 14%nat.
Proof.
  exact (proj1 (demo_script_parses (with_topic "AI" default_config) eq_refl)).
Defined.

End demo_script.

(** ** Decimal numerals *)

Section digits.

Lemma pretty_N_char_value (x : N) :
  (x < 10)%N → digit_value (pretty_N_char x) = Some (Z.of_N x).
Proof.
  intros Hx.
  assert (x = 0 ∨ x = 1 ∨ x = 2 ∨ x = 3 ∨ x = 4 ∨ x = 5 ∨ x = 6 ∨ x = 7 ∨ x = 8 ∨ x = 9)%N
    as H by lia.
  destruct_or!; subst; reflexivity.
Qed.

Lemma int_digits_pretty_go (x : N) :
  (0 < x)%N → ∀ s b, int_digits 0 b (pretty_N_go x s) = int_digits (Z.of_N x) true s.
Proof.
  induction (N.lt_wf_0 x) as [x _ IH]. intros Hx s b.
  rewrite pretty_N_go_step by done.
  assert (Hd : digit_value (pretty_N_char (x `mod` 10)) = Some (Z.of_N (x `mod` 10))).
  { apply pretty_N_char_value. by apply N.mod_lt. }
  destruct (decide (x `div` 10 = 0)%N) as [Hz|Hnz].
  - rewrite Hz, pretty_N_go_0. simpl. rewrite Hd. f_equal.
    pose proof (N.div_mod x 10 ltac:(done)) as H. clear IH Hd.
    set (d := (x `mod` 10)%N) in *. set (q := (x `div` 10)%N) in *.
    clearbody d q. lia.
  - rewrite IH; [| apply N.div_lt; lia | by apply N.neq_0_lt_0]. simpl. rewrite Hd. f_equal.
    pose proof (N.div_mod x 10 ltac:(done)) as H. clear IH Hd.
    set (d := (x `mod` 10)%N) in *. set (q := (x `div` 10)%N) in *.
    clearbody d q. lia.
Qed.

(** Reading the decimal numeral of [x] gives [x] back. *)
Lemma int_digits_pretty_N (x : N) b : int_digits 0 b (pretty x) = Some (Z.of_N x).
Proof.
  unfold pretty, pretty_N. destruct (decide (x = 0)%N) as [->|Hx]; [done|].
  rewrite int_digits_pretty_go by lia. done.
Qed.

Lemma pretty_Z_nonneg (z : Z) : 0 ≤ z → pretty (Z.abs z) = pretty (Z.to_N z).
Proof. intros Hz. destruct z as [|p|p]; [done|done|lia]. Qed.

Lemma all_digits_pretty_go (x : N) s : all_digits (pretty_N_go x s) = all_digits s.
Proof.
  revert s. induction (N.lt_wf_0 x) as [x _ IH]. intros s.
  destruct (decide (x = 0)%N) as [->|Hx]; [by rewrite pretty_N_go_0|].
  rewrite pretty_N_go_step by lia. rewrite IH by (apply N.div_lt; lia).
  simpl. rewrite pretty_N_char_value by (by apply N.mod_lt). done.
Qed.

Lemma all_digits_pretty_N (x : N) : all_digits (pretty x) = true.
Proof.
  unfold pretty, pretty_N. destruct (decide (x = 0)%N); [done|].
  by rewrite all_digits_pretty_go.
Qed.

Lemma pretty_N_nonempty (x : N) : pretty x ≠ "".
Proof.
  intros H. pose proof (int_digits_pretty_N x false) as Hd. by rewrite H in Hd.
Qed.

Lemma int_digits_zeros k s b :
  int_digits 0 b (Py.zeros k +:+ s) = int_digits 0 (b || bool_decide (k ≠ 0%nat)) s.
Proof.
  revert b. induction k as [|k IH]; intros b.
  - simpl. by rewrite orb_false_r.
  - simpl. rewrite IH. by rewrite orb_true_r.
Qed.

(** A zero-padded non-negative number reads back as itself. *)
Lemma int_digits_fmt_0d (w : nat) (n : Z) :
  0 ≤ n → int_digits 0 false (Py.fmt_0d w n) = Some n.
Proof.
  intros Hn. unfold Py.fmt_0d. cbv zeta.
  assert ((n <? 0) = false) as -> by lia. rewrite sapp_nil_l.
  rewrite int_digits_zeros, pretty_Z_nonneg by done.
  rewrite int_digits_pretty_N. f_equal. lia.
Qed.

Lemma fmt_0d_inj (w : nat) (a b : Z) :
  0 ≤ a → 0 ≤ b → Py.fmt_0d w a = Py.fmt_0d w b → a = b.
Proof.
  intros Ha Hb Heq. pose proof (int_digits_fmt_0d w a Ha) as H1.
  rewrite Heq, int_digits_fmt_0d in H1 by done. congruence.
Qed.

Lemma all_digits_app s t : all_digits (s +:+ t) = all_digits s && all_digits t.
Proof. induction s as [|c s IH]; [done|]. simpl. by rewrite IH, andb_assoc. Qed.

Lemma all_digits_zeros k : all_digits (Py.zeros k) = true.
Proof. induction k; [done|]. simpl. done. Qed.

Lemma all_digits_fmt_0d w n : 0 ≤ n → all_digits (Py.fmt_0d w n) = true.
Proof.
  intros Hn. unfold Py.fmt_0d. cbv zeta. assert ((n <? 0) = false) as -> by lia.
  rewrite sapp_nil_l, all_digits_app, all_digits_zeros, pretty_Z_nonneg by done.
  by rewrite all_digits_pretty_N.
Qed.

Lemma slength_app s t : String.length (s +:+ t) = (String.length s + String.length t)%nat.
Proof. induction s as [|c s IH]; [done|]. simpl. by rewrite IH. Qed.

Lemma slength_zeros k : String.length (Py.zeros k) = k.
Proof. induction k; [done|]. simpl. by f_equal. Qed.

End digits.

(** ** Time stamps *)

Section stamps.

Lemma all_digits_free (c : ascii) (s : string) :
  digit_value c = None → all_digits s = true → Py.contains_c c s = false.
Proof.
  intros Hc. induction s as [|c' s IH]; [done|]. simpl. intros H.
  apply andb_true_iff in H as [Hd Hs]. apply bool_decide_eq_true in Hd.
  rewrite contains_c_cons, IH by done. rewrite orb_false_r.
  apply bool_decide_eq_false. intros ->. rewrite Hc in Hd. by destruct Hd.
Qed.

Lemma pretty_go_length_le (k : nat) :
  ∀ (x : N) s, (x < 10 ^ N.of_nat k)%N →
    (String.length (pretty_N_go x s) ≤ String.length s + k)%nat.
Proof.
  induction k as [|k IH]; intros x s Hx.
  - assert (x = 0%N) as -> by (simpl in Hx; lia). rewrite pretty_N_go_0. lia.
  - destruct (decide (x = 0)%N) as [->|Hnz]; [rewrite pretty_N_go_0; lia|].
    rewrite pretty_N_go_step by lia.
    etrans; [apply IH|simpl; lia].
    apply N.Div0.div_lt_upper_bound.
    replace (10 ^ N.of_nat (S k))%N with (10 * 10 ^ N.of_nat k)%N in Hx; [done|].
    rewrite Nat2N.inj_succ, N.pow_succ_r'. done.
Qed.

Lemma pretty_N_length_le (k : nat) (x : N) :
  (0 < k)%nat → (x < 10 ^ N.of_nat k)%N → (String.length (pretty x) ≤ k)%nat.
Proof.
  intros Hk Hx. unfold pretty, pretty_N. destruct (decide (x = 0)%N); [simpl; lia|].
  pose proof (pretty_go_length_le k x "" Hx). simpl in *. lia.
Qed.

(** A number that fits the width is padded to exactly the width. *)
Lemma fmt_0d_length (w : nat) (n : Z) :
  (0 < w)%nat → 0 ≤ n < 10 ^ Z.of_nat w → String.length (Py.fmt_0d w n) = w.
Proof.
  intros Hw [Hn Hlt]. unfold Py.fmt_0d. cbv zeta.
  assert ((n <? 0) = false) as -> by lia. rewrite sapp_nil_l.
  rewrite slength_app, slength_zeros, pretty_Z_nonneg by done.
  assert (String.length (pretty (Z.to_N n)) ≤ w)%nat.
  { apply pretty_N_length_le; [done|].
    apply N2Z.inj_lt. rewrite N2Z.inj_pow, Z2N.id, nat_N_Z by done. done. }
  simpl. lia.
Qed.

(** The four fields of a stamp. *)
Lemma format_srt_time_fields (ms : Z) :
  _format_srt_time ms
  = Py.fmt_0d 2 (ms / 3600000) +:+ ":" +:+ Py.fmt_0d 2 (ms `mod` 3600000 / 60000) +:+ ":"
    +:+ Py.fmt_0d 2 (ms `mod` 60000 / 1000) +:+ "," +:+ Py.fmt_0d 3 (ms `mod` 1000).
Proof. reflexivity. Qed.

Lemma split_fields (h m s f : string) :
  all_digits h = true → all_digits m = true → all_digits s = true → all_digits f = true →
  Py.split_on ":" (h +:+ ":" +:+ m +:+ ":" +:+ s +:+ "," +:+ f) = [h; m; s +:+ "," +:+ f]
  ∧ Py.split_on "," (s +:+ "," +:+ f) = [s; f].
Proof.
  intros Hh Hm Hs Hf.
  assert (Hsep : ∀ c x, String c "" +:+ x = String c x) by done.
  rewrite !Hsep. split.
  - rewrite !split_on_app by (by apply all_digits_free).
    rewrite split_on_plain; [done|].
    rewrite contains_c_app, contains_c_cons, !all_digits_free by done. done.
  - rewrite split_on_app by (by apply all_digits_free).
    by rewrite split_on_plain by (by apply all_digits_free).
Qed.

Lemma format_srt_time_inj (a b : Z) :
  0 ≤ a → 0 ≤ b → _format_srt_time a = _format_srt_time b → a = b.
Proof.
  intros Ha Hb Heq. rewrite !format_srt_time_fields in Heq.
  assert (Hpos : ∀ x, 0 ≤ x → 0 ≤ x / 3600000 ∧ 0 ≤ x `mod` 3600000 / 60000
                          ∧ 0 ≤ x `mod` 60000 / 1000 ∧ 0 ≤ x `mod` 1000).
  { intros x Hx. repeat split.
    - by apply Z.div_pos.
    - apply Z.div_pos; [|done]. by apply Z.mod_pos_bound.
    - apply Z.div_pos; [|done]. by apply Z.mod_pos_bound.
    - by apply Z.mod_pos_bound. }
  destruct (Hpos a Ha) as (Ha1 & Ha2 & Ha3 & Ha4).
  destruct (Hpos b Hb) as (Hb1 & Hb2 & Hb3 & Hb4).
  pose proof (split_fields _ _ _ _ (all_digits_fmt_0d 2 _ Ha1) (all_digits_fmt_0d 2 _ Ha2)
                (all_digits_fmt_0d 2 _ Ha3) (all_digits_fmt_0d 3 _ Ha4)) as [Hsa Hsa'].
  pose proof (split_fields _ _ _ _ (all_digits_fmt_0d 2 _ Hb1) (all_digits_fmt_0d 2 _ Hb2)
                (all_digits_fmt_0d 2 _ Hb3) (all_digits_fmt_0d 3 _ Hb4)) as [Hsb Hsb'].
  rewrite Heq, Hsb in Hsa. inversion Hsa as [[Hh Hm Hsf]].
  rewrite <- Hsf, Hsb' in Hsa'. inversion Hsa' as [[Hs Hf]].
  apply fmt_0d_inj in Hh, Hm, Hs, Hf; try done.
  clear -Ha Hb Hh Hm Hs Hf. Z.div_mod_to_equations. lia.
Qed.

(** A time under one hundred hours is stamped with twelve characters,
    and the stamp tells the time: no two times share one. *)
Theorem format_srt_time_stamp (ms : Z) :
  0 ≤ ms →
  (ms < 360000000 → String.length (_format_srt_time ms) = 12%nat)
  ∧ ∀ ms', 0 ≤ ms' → _format_srt_time ms' = _format_srt_time ms → ms' = ms.
Proof.
  intros Hms. split; [|intros ms' Hms'; by apply format_srt_time_inj].
  intros Hlt. rewrite format_srt_time_fields, !slength_app.
  rewrite !fmt_0d_length; [done|lia| |lia| |lia| |lia|].
  - pose proof (Z.mod_pos_bound ms 1000). lia.
  - split; [apply Z.div_pos; [apply Z.mod_pos_bound|]; lia|].
    apply Z.div_lt_upper_bound; [lia|]. pose proof (Z.mod_pos_bound ms 60000). lia.
  - split; [apply Z.div_pos; [apply Z.mod_pos_bound|]; lia|].
    apply Z.div_lt_upper_bound; [lia|]. pose proof (Z.mod_pos_bound ms 3600000). lia.
  - split; [apply Z.div_pos; lia|]. apply Z.div_lt_upper_bound; lia.
Qed.

Lemma format_srt_time_stamp_witness :
  String.length (_format_srt_time 3661500) = 12%nat.
Proof.
  apply (proj1 (format_srt_time_stamp 3661500 ltac:(lia))). lia.
Defined.

End stamps.

(** ** Audio files of the segments *)

Section audio_paths.

Lemma sapp_cancel_l (s a b : string) : s +:+ a = s +:+ b → a = b.
Proof. induction s as [|c s IH]; [done|]. rewrite !sapp_cons. intros [=]. auto. Qed.

Lemma join_snoc_inj (sep : string) (l : list string) (a b : string) :
  Py.join sep (l ++ [a]) = Py.join sep (l ++ [b]) → a = b.
Proof.
  induction l as [|x [|y l] IH]; [done| |].
  - change (Py.join sep ([x] ++ [?c])) with (x +:+ sep +:+ c).
    intros H. by do 2 apply sapp_cancel_l in H.
  - change (Py.join sep ((x :: y :: l) ++ [?c]))
      with (x +:+ sep +:+ Py.join sep ((y :: l) ++ [c])).
    intros H. do 2 apply sapp_cancel_l in H. auto.
Qed.

Lemma path_str_pdiv_inj (d : Path) (a b : string) :
  path_str (pdiv d a) = path_str (pdiv d b) → a = b.
Proof.
  unfold path_str, pdiv. cbn [base parts loc]. destruct (decide (base d = ".")).
  - destruct (parts d) as [|x l] eqn:Hp; [done|]. apply join_snoc_inj.
  - apply (join_snoc_inj "/" (base d :: parts d)).
Qed.

Lemma segment_name_inj (i j : nat) :
  "segment_" +:+ Py.fmt_0d 4 (Z.of_nat i) +:+ ".mp3"
  = "segment_" +:+ Py.fmt_0d 4 (Z.of_nat j) +:+ ".mp3" → i = j.
Proof.
  intros H. apply sapp_cancel_l in H.
  assert (Hs : ∀ k : nat, Py.split_on "." (Py.fmt_0d 4 (Z.of_nat k) +:+ ".mp3")
                          = [Py.fmt_0d 4 (Z.of_nat k); "mp3"]).
  { intros k. change ".mp3" with (String "." "mp3").
    rewrite split_on_app; [done|]. apply all_digits_free; [done|].
    apply all_digits_fmt_0d. lia. }
  pose proof (Hs i) as Hi. rewrite H, Hs in Hi. inversion Hi as [Heq].
  apply fmt_0d_inj in Heq; lia.
Qed.

Lemma segment_audio_path_inj (work_dir : Path) (i j : nat) :
  path_str (segment_audio_path work_dir i) = path_str (segment_audio_path work_dir j) →
  i = j.
Proof.
  unfold segment_audio_path. intros H. by apply path_str_pdiv_inj, segment_name_inj in H.
Qed.

Lemma mmap_inv {A B} (f : A → M B) (l : list A) :
  ∀ tr tr' out, mmap f l tr = (tr', Ok out) →
    Forall2 (fun x y => ∃ t t', f x t = (t', Ok y)) l out.
Proof.
  induction l as [|x l IH]; intros tr tr' out H.
  - inversion H. constructor.
  - change (mmap f (x :: l))
      with (f x ≫= (fun y => mmap f l ≫= (fun ys => mret (y :: ys)))) in H.
    apply M_bind_inv in H as (tr1 & y & Hy & H).
    apply M_bind_inv in H as (tr2 & ys & Hys & H). inversion H; subst.
    constructor; [by eexists _, _|]. by eapply IH.
Qed.

Lemma synthesize_one_inv w api_key work_dir cb total i seg tr tr' o :
  synthesize_one w api_key work_dir cb total (i, seg) tr = (tr', Ok o) →
  o = with_audio_path work_dir (i, seg).
Proof.
  unfold synthesize_one. intros H.
  apply M_bind_inv in H as (tr1 & [] & _ & H).
  apply M_bind_inv in H as (tr2 & text & _ & H).
  apply M_bind_inv in H as (tr3 & voice & _ & H).
  apply M_bind_inv in H as (tr4 & p & _ & H).
  by inversion H.
Qed.

Lemma synthesize_all_segments_inv w segs api_key work_dir cb tr tr' out :
  synthesize_all_segments w segs api_key work_dir cb tr = (tr', Ok out) →
  out = with_audio_path work_dir <$> enumerate segs.
Proof.
  unfold synthesize_all_segments. intros H.
  apply M_bind_inv in H as (tr1 & [] & _ & H).
  apply mmap_inv in H. induction H as [|[i seg] o l outs (t & t' & Ho) _ IH]; [done|].
  rewrite fmap_cons, <- IH. f_equal. by eapply synthesize_one_inv.
Qed.

Lemma enumerate_lookup {A} (l : list A) (i : nat) (x : A) :
  l !! i = Some x → enumerate l !! i = Some (i, x).
Proof.
  intros H. unfold enumerate. apply lookup_zip_with_Some. exists i, x.
  split; [done|]. split; [|done]. apply lookup_seq. split; [done|].
  by eapply lookup_lt_Some.
Qed.

(** What [synthesize_all_segments] returns holds, at each position, the
    input segment with its audio file named after the position; and no
    two segments share an audio file. *)
Theorem synthesize_all_segments_audio_paths
    (w : World) (segs : list segment) (api_key : string) (work_dir : Path)
    (on_progress : option segment_callback) (tr tr' : trace) (out : list segment) :
  synthesize_all_segments w segs api_key work_dir on_progress tr = (tr', Ok out) →
  length out = length segs
  ∧ (∀ (i : nat) seg, segs !! i = Some seg →
       out !! i
       = Some (<["audio_path" :=
                   VStr (path_str (pdiv work_dir
                           ("segment_" +:+ Py.fmt_0d 4 (Z.of_nat i) +:+ ".mp3")))]> seg))
  ∧ (∀ (i j : nat) o o', out !! i = Some o → out !! j = Some o' →
       o !! "audio_path" = o' !! "audio_path" → i = j).
Proof.
  intros H. apply synthesize_all_segments_inv in H as ->.
  assert (Hlook : ∀ (i : nat) seg, segs !! i = Some seg →
            (with_audio_path work_dir <$> enumerate segs) !! i
            = Some (with_audio_path work_dir (i, seg))).
  { intros i seg Hi. by rewrite list_lookup_fmap, (enumerate_lookup _ _ _ Hi). }
  split; [|split].
  - unfold enumerate. rewrite length_fmap, length_zip_with, length_seq. lia.
  - intros i seg Hi. by rewrite (Hlook _ _ Hi).
  - intros i j o o' Hi Hj Heq.
    assert (Hlen : length (with_audio_path work_dir <$> enumerate segs) = length segs).
    { unfold enumerate. rewrite length_fmap, length_zip_with, length_seq. lia. }
    destruct (lookup_lt_is_Some_2 segs i) as [si Hsi];
      [rewrite <- Hlen; by eapply lookup_lt_Some|].
    destruct (lookup_lt_is_Some_2 segs j) as [sj Hsj];
      [rewrite <- Hlen; by eapply lookup_lt_Some|].
    rewrite (Hlook _ _ Hsi) in Hi. rewrite (Hlook _ _ Hsj) in Hj.
    inversion Hi; inversion Hj; subst. unfold with_audio_path in Heq. simpl in Heq.
    rewrite !lookup_insert_eq in Heq. inversion Heq as [Hp].
    by apply segment_audio_path_inj in Hp.
Qed.

End audio_paths.

Lemma synthesize_all_segments_audio_paths_witness :
  length [with_audio_path example_tts_dir (0%nat, hello_segment)] = 1%nat.
Proof.
  refine (proj1 (synthesize_all_segments_audio_paths (calm_world 1000)
                   [hello_segment] "key" example_tts_dir None []
                   (synthesize_all_segments (calm_world 1000) [hello_segment]
                      "key" example_tts_dir None []).1
                   [with_audio_path example_tts_dir (0%nat, hello_segment)] _)).
  vm_compute. reflexivity.
Defined.

(** ** Durations on the command line *)

Section durations.

Lemma truthy_nonempty s : s ≠ "" → truthy s = true.
Proof. by destruct s. Qed.

Lemma plain_chars_app s t : plain_chars (s +:+ t) = plain_chars s && plain_chars t.
Proof. induction s as [|c s IH]; [done|]. simpl. by rewrite IH, !andb_assoc. Qed.

Lemma digit_plain c : is_Some (digit_value c) → Py.isspace c = false ∧ Py.isupper c = false.
Proof.
  unfold digit_value, Py.isspace, Py.isupper. cbv zeta.
  destruct ((48 <=? nat_of_ascii c)%nat && (nat_of_ascii c <=? 57)%nat) eqn:H;
    [|by intros [? ?]].
  intros _. apply andb_true_iff in H as [H1 H2].
  apply Nat.leb_le in H1, H2. split.
  - apply orb_false_iff. split; apply andb_false_iff.
    + right. apply Nat.leb_gt. lia.
    + right. apply Nat.leb_gt. lia.
  - apply andb_false_iff. left. apply Nat.leb_gt. lia.
Qed.

Lemma all_digits_plain s : all_digits s = true → plain_chars s = true.
Proof.
  induction s as [|c s IH]; [done|]. simpl. intros H.
  apply andb_true_iff in H as [Hd Hs]. apply bool_decide_eq_true in Hd.
  destruct (digit_plain c Hd) as [-> ->]. simpl. auto.
Qed.

Lemma plain_chars_lower s : plain_chars s = true → Py.lower s = s.
Proof.
  induction s as [|c s IH]; [done|]. simpl. intros H.
  apply andb_true_iff in H as [H Hs]. apply andb_true_iff in H as [_ Hu].
  apply negb_true_iff in Hu. unfold Py.lower_c. rewrite Hu, IH by done. done.
Qed.

Lemma plain_chars_last s b : plain_chars s = true → s ≠ "" → last_nonspace b s = true.
Proof.
  revert b. induction s as [|c s IH]; [done|]. simpl. intros b H _.
  apply andb_true_iff in H as [H Hs]. apply andb_true_iff in H as [Hsp _].
  destruct s as [|c' s']; [done|]. by apply IH.
Qed.

Lemma plain_chars_strip s : plain_chars s = true → Py.strip s = s.
Proof.
  destruct s as [|c s]; [done|]. intros H. apply strip_id.
  - simpl in *. apply andb_true_iff in H as [H _]. by apply andb_true_iff in H as [? _].
  - by apply plain_chars_last.
Qed.

Lemma endswith_c_snoc c s : endswith_c c (s +:+ String c "") = true.
Proof.
  induction s as [|c' s IH]; [simpl; by apply bool_decide_eq_true|].
  rewrite sapp_cons. simpl. destruct (s +:+ String c "") eqn:E; [by destruct s|done].
Qed.

Lemma endswith_c_snoc_ne c c' s : c' ≠ c → endswith_c c (s +:+ String c' "") = false.
Proof.
  intros Hne. induction s as [|c'' s IH]; [simpl; by apply bool_decide_eq_false|].
  rewrite sapp_cons. simpl. destruct (s +:+ String c' "") eqn:E; [by destruct s|done].
Qed.

Lemma drop_last_snoc c s : drop_last (s +:+ String c "") = s.
Proof.
  induction s as [|c' s IH]; [done|].
  rewrite sapp_cons. simpl. destruct (s +:+ String c "") eqn:E; [by destruct s|].
  by rewrite IH.
Qed.

Lemma endswith_c_digits c s :
  digit_value c = None → all_digits s = true → endswith_c c s = false.
Proof.
  intros Hc. induction s as [|c' s IH]; [done|]. simpl. intros H.
  apply andb_true_iff in H as [Hd Hs]. apply bool_decide_eq_true in Hd.
  destruct s as [|c'' s']; [|by apply IH].
  apply bool_decide_eq_false. intros ->. rewrite Hc in Hd. by destruct Hd.
Qed.

Lemma count_digits_all s : all_digits s = true → count_digits s = String.length s.
Proof.
  induction s as [|c s IH]; [done|]. simpl. intros H.
  apply andb_true_iff in H as [Hd Hs]. apply bool_decide_eq_true in Hd.
  destruct Hd as [d ->]. by rewrite IH.
Qed.

Lemma int_isspace_isspace c : int_isspace c = true → Py.isspace c = true.
Proof. destruct c as [[] [] [] [] [] [] [] []]; vm_compute; congruence. Qed.

Lemma int_lstrip_plain s : plain_chars s = true → int_lstrip s = s.
Proof.
  destruct s as [|c s]; [done|]. simpl. intros H.
  apply andb_true_iff in H as [H _]. apply andb_true_iff in H as [Hsp _].
  destruct (int_isspace c) eqn:Hc; [|done].
  apply int_isspace_isspace in Hc. by rewrite Hc in Hsp.
Qed.

Lemma int_rstrip_plain s : plain_chars s = true → int_rstrip s = s.
Proof.
  induction s as [|c s IH]; [done|]. simpl. intros H.
  apply andb_true_iff in H as [H Hs]. apply andb_true_iff in H as [Hsp _].
  rewrite IH by done. destruct s as [|c' s']; [|done].
  destruct (int_isspace c) eqn:Hc; [|done].
  apply int_isspace_isspace in Hc. by rewrite Hc in Hsp.
Qed.

(** [int] reads the decimal numeral of a natural number back. *)
Lemma int_of_str_pretty (n : N) :
  (String.length (pretty n) ≤ 4300)%nat → int_of_str (pretty n) = Some (Z.of_N n).
Proof.
  intros Hlen. unfold int_of_str.
  pose proof (all_digits_pretty_N n) as Hd.
  rewrite int_lstrip_plain, int_rstrip_plain by (by apply all_digits_plain). cbv zeta.
  destruct (pretty n) as [|c r] eqn:Hp; [by destruct (pretty_N_nonempty n)|].
  assert (Hc : is_Some (digit_value c)).
  { simpl in Hd. apply andb_true_iff in Hd as [Hd _]. by apply bool_decide_eq_true in Hd. }
  assert (bool_decide (c = "-"%char) = false) as ->.
  { apply bool_decide_eq_false. intros ->. by destruct Hc. }
  assert (bool_decide (c = "+"%char) = false) as ->.
  { apply bool_decide_eq_false. intros ->. by destruct Hc. }
  rewrite count_digits_all by done.
  assert ((4300 <? String.length (String c r))%nat = false) as -> by (apply Nat.ltb_ge; lia).
  rewrite <- Hp, int_digits_pretty_N. done.
Qed.

Section forms.

Context (m n : N).
Hypothesis Hm : (String.length (pretty m) ≤ 4300)%nat.
Hypothesis Hn : (String.length (pretty n) ≤ 4300)%nat.

Lemma parse_seconds : _parse_duration (pretty n +:+ "s") = Some (Z.of_N n).
Proof.
  pose proof (all_digits_pretty_N m) as Dm. pose proof (all_digits_pretty_N n) as Dn.
  unfold _parse_duration.
  assert (Hplain : plain_chars (pretty n +:+ "s") = true).
  { by rewrite plain_chars_app, all_digits_plain. }
  rewrite plain_chars_strip, plain_chars_lower by done. cbv zeta.
  rewrite endswith_c_snoc, contains_c_app, all_digits_free by done.
  change (Py.contains_c "m" "s") with false. cbn [orb negb andb].
  by rewrite drop_last_snoc, int_of_str_pretty.
Qed.

Lemma parse_minutes : _parse_duration (pretty n +:+ "m") = Some (Z.of_N n * 60).
Proof.
  pose proof (all_digits_pretty_N m) as Dm. pose proof (all_digits_pretty_N n) as Dn.
  unfold _parse_duration.
  assert (Hplain : plain_chars (pretty n +:+ "m") = true).
  { by rewrite plain_chars_app, all_digits_plain. }
  rewrite plain_chars_strip, plain_chars_lower by done. cbv zeta.
  rewrite endswith_c_snoc_ne by done. rewrite endswith_c_snoc.
  rewrite (contains_c_app "s"), (all_digits_free "s") by done.
  change (Py.contains_c "s" "m") with false. cbn [orb negb andb].
  rewrite drop_last_snoc, int_of_str_pretty by done. reflexivity.
Qed.

Lemma parse_combined :
  _parse_duration (pretty m +:+ "m" +:+ pretty n +:+ "s")
  = Some (Z.of_N m * 60 + Z.of_N n).
Proof.
  pose proof (all_digits_pretty_N m) as Dm. pose proof (all_digits_pretty_N n) as Dn.
  unfold _parse_duration.
  assert (Hplain : plain_chars (pretty m +:+ "m" +:+ pretty n +:+ "s") = true).
  { rewrite !plain_chars_app.
    rewrite (all_digits_plain (pretty m)), (all_digits_plain (pretty n)) by done.
    reflexivity. }
  rewrite plain_chars_strip, plain_chars_lower by done. cbv zeta.
  assert (Hend : ∀ c, endswith_c c (pretty m +:+ "m" +:+ pretty n +:+ "s")
                      = endswith_c c (pretty n +:+ "s")).
  { intros c. rewrite <- (sapp_assoc (pretty m)), <- (sapp_assoc _ (pretty n)).
    destruct (decide (c = "s"%char)) as [->|Hc].
    - by rewrite !endswith_c_snoc.
    - by rewrite !endswith_c_snoc_ne. }
  rewrite !Hend, endswith_c_snoc, endswith_c_snoc_ne by done.
  assert (Hcm : Py.contains_c "m" (pretty m +:+ "m" +:+ pretty n +:+ "s") = true).
  { rewrite contains_c_app. apply orb_true_iff. right. done. }
  rewrite Hcm. cbn [orb negb andb].
  change ("m" +:+ pretty n +:+ "s") with (String "m" (pretty n +:+ "s")).
  rewrite split_on_app by (by apply all_digits_free).
  rewrite split_on_plain by (by rewrite contains_c_app, all_digits_free).
  cbn [lookup list_lookup mbind option_bind]. simpl.
  rewrite int_of_str_pretty by done. simpl.
  rewrite endswith_c_snoc, drop_last_snoc.
  rewrite (truthy_nonempty (pretty n)) by apply pretty_N_nonempty.
  rewrite int_of_str_pretty by done. simpl. f_equal.
Qed.

Lemma parse_raw : _parse_duration (pretty n) = Some (Z.of_N n).
Proof.
  pose proof (all_digits_pretty_N n) as Dn. unfold _parse_duration.
  rewrite plain_chars_strip, plain_chars_lower by (by apply all_digits_plain). cbv zeta.
  rewrite !endswith_c_digits, !all_digits_free by done. cbn [orb negb andb].
  by apply int_of_str_pretty.
Qed.

End forms.

End durations.

Section duration_forms.

(** The forms the docstring of [_parse_duration] names: seconds,
    minutes, minutes and seconds, and a bare number of seconds, for
    natural numbers of at most 4300 digits. *)
Theorem parse_duration_forms (m n : N) :
  (String.length (pretty m) ≤ 4300)%nat → (String.length (pretty n) ≤ 4300)%nat →
  _parse_duration (pretty n +:+ "s") = Some (Z.of_N n)
  ∧ _parse_duration (pretty n +:+ "m") = Some (Z.of_N n * 60)
  ∧ _parse_duration (pretty m +:+ "m" +:+ pretty n +:+ "s") = Some (Z.of_N m * 60 + Z.of_N n)
  ∧ _parse_duration (pretty n) = Some (Z.of_N n).
Proof.
  intros Hm Hn. split; [by apply parse_seconds|]. split; [by apply parse_minutes|].
  split; [by apply parse_combined|by apply parse_raw].
Qed.

Lemma parse_duration_forms_witness : _parse_duration "1m30s" = Some 90.
Proof.
  refine (proj1 (proj2 (proj2 (parse_duration_forms 1 30 _ _)))); vm_compute; lia.
Defined.

Lemma no_digit_lstrip s : count_digits s = 0%nat → count_digits (Py.lstrip s) = 0%nat.
Proof.
  induction s as [|c s IH]; [done|]. intros H. simpl.
  destruct (Py.isspace c); [|done]. apply IH. simpl in H. lia.
Qed.

Lemma no_digit_rstrip s : count_digits s = 0%nat → count_digits (Py.rstrip s) = 0%nat.
Proof.
  induction s as [|c s IH]; [done|]. intros H. simpl in H.
  assert (Hc : (if digit_value c is Some _ then 1 else 0)%nat = 0%nat) by lia.
  assert (Hs : count_digits (Py.rstrip s) = 0%nat) by (apply IH; lia).
  simpl. destruct (Py.rstrip s) as [|c' r].
  - destruct (Py.isspace c); [done|]. simpl. lia.
  - simpl in *. lia.
Qed.

Lemma lower_c_no_digit c : digit_value c = None → digit_value (Py.lower_c c) = None.
Proof.
  destruct c as [[|] [|] [|] [|] [|] [|] [|] [|]]; vm_compute; congruence.
Qed.

Lemma no_digit_lower s : count_digits s = 0%nat → count_digits (Py.lower s) = 0%nat.
Proof.
  induction s as [|c s IH]; [done|]. simpl. intros H.
  destruct (digit_value c) eqn:Hc; [lia|]. rewrite lower_c_no_digit by done.
  apply IH. lia.
Qed.

Lemma no_digit_drop_last s : count_digits s = 0%nat → count_digits (drop_last s) = 0%nat.
Proof.
  induction s as [|c s IH]; [done|]. intros H. simpl in H.
  assert (Hs : count_digits (drop_last s) = 0%nat) by (apply IH; lia).
  simpl. destruct s as [|c' s']; [done|]. simpl in *. lia.
Qed.

Lemma no_digit_split_on sep s :
  count_digits s = 0%nat → Forall (fun p => count_digits p = 0%nat) (Py.split_on sep s).
Proof.
  induction s as [|c s IH]; [by repeat constructor|]. intros H. simpl in H.
  assert (Hs : Forall (fun p => count_digits p = 0%nat) (Py.split_on sep s)) by (apply IH; lia).
  simpl. destruct (decide (c = sep)); [by constructor|].
  destruct (Py.split_on sep s) as [|h t].
  - constructor; [simpl; lia|constructor].
  - inversion Hs; subst. constructor; [simpl; lia|done].
Qed.

Lemma int_digits_no_digit acc s : count_digits s = 0%nat → int_digits acc false s = None.
Proof.
  destruct s as [|c s]; [done|]. simpl. intros H.
  destruct (digit_value c); [lia|]. by rewrite andb_false_r.
Qed.

Lemma no_digit_int_lstrip s :
  count_digits s = 0%nat → count_digits (int_lstrip s) = 0%nat.
Proof.
  induction s as [|c s IH]; [done|]. intros H. simpl.
  destruct (int_isspace c); [|done]. apply IH. simpl in H. lia.
Qed.

Lemma no_digit_int_rstrip s :
  count_digits s = 0%nat → count_digits (int_rstrip s) = 0%nat.
Proof.
  induction s as [|c s IH]; [done|]. intros H. simpl in H.
  assert (Hc : (if digit_value c is Some _ then 1 else 0)%nat = 0%nat) by lia.
  assert (Hs : count_digits (int_rstrip s) = 0%nat) by (apply IH; lia).
  simpl. destruct (int_rstrip s) as [|c' r].
  - destruct (int_isspace c); [done|]. simpl. lia.
  - simpl in *. lia.
Qed.

Lemma int_of_str_no_digit s : count_digits s = 0%nat → int_of_str s = None.
Proof.
  intros H. unfold int_of_str.
  assert (Ht : count_digits (int_rstrip (int_lstrip s)) = 0%nat)
    by by apply no_digit_int_rstrip, no_digit_int_lstrip.
  cbv zeta. destruct (int_rstrip (int_lstrip s)) as [|c r].
  - done.
  - assert (Hr : count_digits r = 0%nat) by (simpl in Ht; lia).
    destruct (bool_decide (c = "-"%char)); [|destruct (bool_decide (c = "+"%char))].
    + by rewrite Hr, int_digits_no_digit.
    + by rewrite Hr, int_digits_no_digit.
    + by rewrite Ht, int_digits_no_digit.
Qed.

(** A text without any digit is no duration: [int] raises [ValueError]
    on whatever part of it is read. *)
Theorem parse_duration_needs_digit (s : string) :
  count_digits s = 0%nat → _parse_duration s = None.
Proof.
  intros H. unfold _parse_duration.
  assert (Ht : count_digits (Py.lower (Py.strip s)) = 0%nat).
  { by apply no_digit_lower, no_digit_rstrip, no_digit_lstrip. }
  cbv zeta. set (t := Py.lower (Py.strip s)) in *.
  destruct (endswith_c "s" t && negb (Py.contains_c "m" t)).
  { by apply int_of_str_no_digit, no_digit_drop_last. }
  destruct (endswith_c "m" t && negb (Py.contains_c "s" t)).
  { by rewrite int_of_str_no_digit by by apply no_digit_drop_last. }
  destruct (Py.contains_c "m" t); [|by apply int_of_str_no_digit].
  pose proof (no_digit_split_on "m" t Ht) as Hparts.
  destruct (Py.split_on "m" t) as [|p0 ps]; [done|].
  inversion Hparts; subst. simpl. by rewrite int_of_str_no_digit.
Qed.

Lemma parse_duration_needs_digit_witness : _parse_duration "two minutes" = None.
Proof. apply parse_duration_needs_digit. reflexivity. Defined.

End duration_forms.

(** ** Output file names *)

Section names.

Lemma sapp_nil_r (s : string) : s +:+ "" = s.
Proof. induction s as [|c s IH]; [done|]. by rewrite sapp_cons, IH. Qed.

Lemma all_chars_app f s t : all_chars f (s +:+ t) = all_chars f s && all_chars f t.
Proof. induction s as [|c s IH]; [done|]. rewrite sapp_cons. simpl. by rewrite IH, andb_assoc. Qed.

Lemma filter_chars_all f s : all_chars f (filter_chars f s) = true.
Proof.
  induction s as [|c s IH]; [done|]. simpl. destruct (f c) eqn:Hc; [|done].
  simpl. by rewrite Hc.
Qed.

Lemma all_chars_lstrip f s : all_chars f s = true → all_chars f (Py.lstrip s) = true.
Proof.
  induction s as [|c s IH]; [done|]. simpl. intros H.
  destruct (Py.isspace c); [|done]. apply IH. by apply andb_true_iff in H as [_ ?].
Qed.

Lemma all_chars_rstrip f s : all_chars f s = true → all_chars f (Py.rstrip s) = true.
Proof.
  induction s as [|c s IH]; [done|]. simpl. intros H.
  apply andb_true_iff in H as [Hc Hs]. specialize (IH Hs).
  destruct (Py.rstrip s) as [|c' r].
  - destruct (Py.isspace c); [done|]. simpl. by rewrite Hc.
  - simpl in *. by rewrite Hc.
Qed.

Lemma all_chars_take f n s : all_chars f s = true → all_chars f (Py.take n s) = true.
Proof.
  revert s. induction n as [|n IH]; intros [|c s]; try done. simpl. intros H.
  apply andb_true_iff in H as [-> Hs]. by apply IH.
Qed.

Lemma take_length n s : (String.length (Py.take n s) ≤ n)%nat.
Proof.
  revert s. induction n as [|n IH]; intros [|c s]; simpl; try lia.
  specialize (IH s). lia.
Qed.

Lemma prefix_one c c' s : String.prefix (String c "") (String c' s) = bool_decide (c = c').
Proof.
  change (String.prefix (String c "") (String c' s))
    with (match ascii_dec c c' with
          | left _ => String.prefix "" s
          | right _ => false
          end).
  destruct (ascii_dec c c') as [->|Hne].
  - rewrite bool_decide_eq_true_2 by done. by destruct s.
  - by rewrite bool_decide_eq_false_2.
Qed.

Lemma kept_safe c : kept_char c = true → c ≠ " "%char → safe_char c = true.
Proof.
  unfold kept_char, safe_char. intros H Hc.
  rewrite (bool_decide_eq_false_2 (c = " "%char)) in H by done.
  by rewrite orb_false_r in H.
Qed.

(** Replacing the spaces by underscores leaves safe characters only. *)
Lemma replace_spaces_safe (s : string) :
  ∀ fuel, (String.length s ≤ fuel)%nat → all_chars kept_char s = true →
    all_chars safe_char (Py.replace_go fuel " " "_" s) = true.
Proof.
  induction s as [|c s IH]; intros fuel Hlen Hs.
  - by destruct fuel.
  - destruct fuel as [|fuel]; [simpl in Hlen; lia|].
    simpl in Hs. apply andb_true_iff in Hs as [Hc Hs].
    change (Py.replace_go (S fuel) " " "_" (String c s))
      with (if String.prefix " " (String c s)
            then "_" +:+ Py.replace_go (fuel - 0) " " "_" s
            else String c (Py.replace_go fuel " " "_" s)).
    rewrite prefix_one. simpl in Hlen.
    destruct (decide (" "%char = c)) as [<-|Hne].
    + rewrite bool_decide_eq_true_2 by done.
      change ("_" +:+ ?x) with (String "_" x). simpl.
      apply IH; [lia|done].
    + rewrite bool_decide_eq_false_2 by done. simpl.
      rewrite kept_safe by done. apply IH; [lia|done].
Qed.

Lemma replace_go_empty fuel old new : Py.replace_go fuel old new "" = "".
Proof. by destruct fuel. Qed.

Lemma safe_not_dot c : safe_char c = true → c ≠ "."%char.
Proof. intros H ->. done. Qed.

(** A stem without a dot, followed by [.mp4]: only the suffix is
    replaced. *)
Lemma replace_suffix (new p : string) :
  all_chars (fun c => negb (bool_decide (c = "."%char))) p = true →
  ∀ fuel, (String.length (p +:+ ".mp4") ≤ fuel)%nat →
    Py.replace_go fuel ".mp4" new (p +:+ ".mp4") = p +:+ new.
Proof.
  induction p as [|c p IH]; intros Hp fuel Hlen.
  - rewrite !sapp_nil_l in *. simpl in Hlen.
    do 4 (destruct fuel as [|fuel]; [lia|]).
    change (Py.replace_go (S (S (S (S fuel)))) ".mp4" new ".mp4")
      with (new +:+ Py.replace_go (S (S (S fuel)) - 3) ".mp4" new "").
    by rewrite replace_go_empty, sapp_nil_r.
  - simpl in Hp. apply andb_true_iff in Hp as [Hc Hp].
    apply negb_true_iff, bool_decide_eq_false in Hc.
    rewrite !sapp_cons in *. simpl in Hlen.
    destruct fuel as [|fuel]; [lia|].
    assert (Hpre : String.prefix ".mp4" (String c (p +:+ ".mp4")) = false).
    { change (String.prefix ".mp4" (String c ?x))
        with (match ascii_dec "." c with
              | left _ => String.prefix "mp4" x
              | right _ => false
              end).
      destruct (ascii_dec "." c) as [Heq|]; [by destruct Hc|done]. }
    change (Py.replace_go (S fuel) ".mp4" new (String c (p +:+ ".mp4")))
      with (if String.prefix ".mp4" (String c (p +:+ ".mp4"))
            then new +:+ Py.replace_go (fuel - 3) ".mp4" new
                           (Py.drop 4 (String c (p +:+ ".mp4")))
            else String c (Py.replace_go fuel ".mp4" new (p +:+ ".mp4"))).
    rewrite Hpre. f_equal. apply IH; [done|lia].
Qed.


(** The stem of the generated output name. *)
Lemma output_name_generated (config : PodclawConfig) :
  opt_truthy (output_filename config) = false →
  ∃ safe_topic,
    output_name_of config = "podclaw_" +:+ safe_topic +:+ ".mp4"
    ∧ (String.length safe_topic ≤ 50)%nat
    ∧ all_chars safe_char safe_topic = true.
Proof.
  intros Hf. unfold output_name_of.
  set (cleaned := Py.strip (filter_chars _ (topic config))).
  assert (Hc : all_chars kept_char cleaned = true).
  { apply all_chars_rstrip, all_chars_lstrip, filter_chars_all. }
  exists (Py.take 50 (Py.replace " " "_" cleaned)).
  split; [|split].
  - destruct (output_filename config) as [n|]; [|done].
    simpl in Hf. by rewrite Hf.
  - apply take_length.
  - apply all_chars_take. unfold Py.replace. by apply replace_spaces_safe.
Qed.

End names.

(** ** The manifest *)

Section manifest.

Context (w : World).

Lemma deliver_inv config on_progress segs script_path combined_audio srt_path bg_path
    tr tr' m :
  deliver w config on_progress (segs, script_path, combined_audio, srt_path, bg_path) tr
  = (tr', Ok m) →
  let out_dir := mkPath Output (output_dir config) [] in
  let name := output_name_of config in
  video m = path_str (pdiv out_dir name)
  ∧ audio m = path_str (pdiv out_dir (Py.replace ".mp4" ".mp3" name))
  ∧ subtitles m = path_str (pdiv out_dir (Py.replace ".mp4" ".srt" name))
  ∧ script m = path_str (pdiv out_dir (Py.replace ".mp4" "_script.txt" name))
  ∧ background m = path_str (pdiv out_dir (Py.replace ".mp4" "_bg.png" name))
  ∧ segment_count m = Z.of_nat (length segs).
Proof.
  unfold deliver. intros H.
  apply M_bind_inv in H as (tr1 & [] & _ & H).
  apply M_bind_inv in H as (tr2 & d & _ & H).
  apply M_bind_inv in H as (tr3 & p & _ & H).
  apply M_bind_inv in H as (tr4 & [] & _ & H).
  apply M_bind_inv in H as (tr5 & [] & _ & H).
  apply M_bind_inv in H as (tr6 & [] & _ & H).
  apply M_bind_inv in H as (tr7 & [] & _ & H).
  apply M_bind_inv in H as (tr8 & [] & _ & H).
  by inversion H.
Qed.

Lemma generate_inv self_config topic_arg script_arg on_progress tr tr' m :
  generate w self_config topic_arg script_arg on_progress tr = (tr', Ok m) →
  ∃ prepared tr1 tr2,
    deliver w (run_config self_config topic_arg) on_progress prepared tr1 = (tr2, Ok m).
Proof.
  unfold generate. fold (run_config self_config topic_arg).
  destruct (negb (truthy (topic (run_config self_config topic_arg)))
            && negb (opt_truthy script_arg)
            && negb (opt_truthy (custom_script (run_config self_config topic_arg))));
    [done|].
  intros H.
  apply M_bind_inv in H as (tr1 & [] & _ & H).
  apply M_bind_inv in H as (tr2 & [] & _ & H).
  unfold try_finally in H.
  destruct (_run_pipeline w _ _ _ _ tr2) as [tr3 r] eqn:Hrun.
  unfold perform_quiet in H. inversion H; subst.
  unfold _run_pipeline in Hrun.
  apply M_bind_inv in Hrun as (tr4 & prepared & _ & Hrun). eauto.
Qed.

Lemma run_config_output self_config topic_arg :
  output_filename (run_config self_config topic_arg) = output_filename self_config
  ∧ output_dir (run_config self_config topic_arg) = output_dir self_config.
Proof. unfold run_config. by destruct (opt_truthy topic_arg). Qed.

Lemma safe_stem (s : string) :
  all_chars safe_char s = true →
  all_chars (fun c => negb (bool_decide (c = "."%char))) ("podclaw_" +:+ s) = true.
Proof.
  intros H. rewrite all_chars_app. apply andb_true_iff. split; [done|].
  induction s as [|c s IH]; [done|]. simpl in *.
  apply andb_true_iff in H as [Hc Hs]. rewrite IH by done.
  rewrite andb_true_r. apply negb_true_iff, bool_decide_eq_false.
  by apply safe_not_dot.
Qed.

(** With no output file name configured and an output directory
    written in the form [pathlib] prints it ([normal_dir]), a successful
    run returns five files of the output directory that share one stem,
    made of letters, digits, hyphens and underscores: the video
    [stem.mp4], the audio [stem.mp3], the subtitles [stem.srt], the script
    [stem_script.txt] and the background [stem_bg.png]. *)
Theorem generated_artifact_names
    (self_config : PodclawConfig) (topic_arg script_arg : option string)
    (on_progress : option stage_callback) (tr tr' : trace) (m : Manifest) :
  generate w self_config topic_arg script_arg on_progress tr = (tr', Ok m) →
  opt_truthy (output_filename self_config) = false →
  normal_dir (output_dir self_config) = true →
  ∃ stem,
    let dir := mkPath Output (output_dir self_config) [] in
    all_chars safe_char stem = true
    ∧ (String.length stem ≤ 58)%nat
    ∧ video m = path_str (pdiv dir (stem +:+ ".mp4"))
    ∧ audio m = path_str (pdiv dir (stem +:+ ".mp3"))
    ∧ subtitles m = path_str (pdiv dir (stem +:+ ".srt"))
    ∧ script m = path_str (pdiv dir (stem +:+ "_script.txt"))
    ∧ background m = path_str (pdiv dir (stem +:+ "_bg.png")).
Proof.
  intros Hrun Hname _.
  apply generate_inv in Hrun as ([[[[segs sp] ca] srt] bg] & tr1 & tr2 & Hd).
  apply deliver_inv in Hd as (Hv & Ha & Hs & Hsc & Hb & _).
  destruct (run_config_output self_config topic_arg) as [Hf Hdir].
  rewrite Hdir in *.
  destruct (output_name_generated (run_config self_config topic_arg))
    as (safe & Hn & Hlen & Hsafe); [by rewrite Hf|].
  rewrite Hn, <- (sapp_assoc "podclaw_" safe ".mp4") in Hv, Ha, Hs, Hsc, Hb.
  exists ("podclaw_" +:+ safe). cbv zeta.
  assert (Hrep : ∀ new, Py.replace ".mp4" new (("podclaw_" +:+ safe) +:+ ".mp4")
                        = ("podclaw_" +:+ safe) +:+ new).
  { intros new. unfold Py.replace. apply replace_suffix; [by apply safe_stem|done]. }
  rewrite !Hrep in *.
  split; [by rewrite all_chars_app, Hsafe|].
  split; [|done]. rewrite slength_app. simpl. lia.
Qed.

End manifest.

Lemma generated_artifact_names_witness :
  ∃ stem,
    all_chars safe_char stem = true
    ∧ (String.length stem ≤ 58)%nat
    ∧ video calm_manifest = path_str (pdiv (mkPath Output "." []) (stem +:+ ".mp4"))
    ∧ audio calm_manifest = path_str (pdiv (mkPath Output "." []) (stem +:+ ".mp3"))
    ∧ subtitles calm_manifest = path_str (pdiv (mkPath Output "." []) (stem +:+ ".srt"))
    ∧ script calm_manifest
      = path_str (pdiv (mkPath Output "." []) (stem +:+ "_script.txt"))
    ∧ background calm_manifest
      = path_str (pdiv (mkPath Output "." []) (stem +:+ "_bg.png")).
Proof.
  refine (generated_artifact_names (calm_world 1000) default_config (Some "x")
            (Some "[A] hi") (caller_progress (calm_world 1000) true) [] calm_run.1
            calm_manifest _ eq_refl eq_refl).
  vm_compute. reflexivity.
Defined.

Section generate_frame.

Context (w : World).




(** [generate] checks that there is something to say before it touches
    anything: with no topic and no script, neither given nor
    configured, it raises without having performed one operation. In
    every other case the first thing it does is to create the scratch
    directory. *)
Theorem generate_validates_first
    (self_config : PodclawConfig) (topic_arg script_arg : option string)
    (observed : bool) (tr : trace) :
  let run := generate w self_config topic_arg script_arg (caller_progress w observed) tr in
  (opt_truthy topic_arg = false → topic self_config = "" →
   opt_truthy script_arg = false → opt_truthy (custom_script self_config) = false →
   run = (tr, Raise (ValueError "Must provide a topic or script.")))
  ∧ (opt_truthy topic_arg = true ∨ topic self_config ≠ ""
     ∨ opt_truthy script_arg = true ∨ opt_truthy (custom_script self_config) = true →
     ∃ ev rest, run.1 = tr ++ ev :: rest
                ∧ op_of ev = Mkdtemp (mkPath Scratch (mkdtemp w) [])).
Proof.
  intros run. subst run. unfold generate. fold (run_config self_config topic_arg). split.
  - intros Ht Htopic Hs Hc. unfold run_config. rewrite Ht, Htopic, Hs, Hc. done.
  - intros Hsome.
    assert (Hcond : negb (truthy (topic (run_config self_config topic_arg)))
                    && negb (opt_truthy script_arg)
                    && negb (opt_truthy (custom_script (run_config self_config topic_arg)))
                    = false).
    { unfold run_config. destruct (opt_truthy topic_arg) eqn:Hta.
      - by destruct topic_arg as [[|c t]|].
      - destruct Hsome as [?|[Ht|[Hs|Hc]]]; [done| | |].
        + by destruct (topic self_config).
        + rewrite Hs. by rewrite andb_false_r.
        + rewrite Hc. by rewrite andb_false_r. }
    rewrite Hcond.
    rewrite M_bind_run. unfold perform at 1.
    destruct (raises w tr _) as [e|].
    + by eexists _, [].
    + match goal with
      | |- context [(perform w (Mkdir ?p) ≫= ?k) ?t] =>
          assert (Hg : gated_from false (perform w (Mkdir p) ≫= k))
      end.
      { apply gated_bind_quiet; [repeat quiet_step|]. intros _.
        apply gated_try_finally; [by apply run_pipeline_gated|].
        by apply quiet_perform_quiet. }
      destruct (Hg (tr ++ [Done (Mkdtemp (mkPath Scratch (mkdtemp w) []))]))
        as (ext & Heq & _).
      eexists _, ext. rewrite Heq, <- app_assoc. done.
Qed.

End generate_frame.


Lemma generate_validates_first_witness :
  generate (calm_world 1000) default_config None None
    (caller_progress (calm_world 1000) false) []
  = ([], Raise (ValueError "Must provide a topic or script.")).
Proof.
  apply (proj1 (generate_validates_first (calm_world 1000) default_config None None
                  false [])); reflexivity.
Defined.

Section cleanup.

Context (w : World).

(** Once the scratch directory and the output directory are there, the
    pipeline runs inside [try ... finally]: whether it returns or
    raises, the scratch directory is removed last and the outcome is
    the pipeline's. When creating the output directory fails, the run
    raises with the scratch directory left behind. *)
Theorem generate_removes_scratch
    (self_config : PodclawConfig) (topic_arg script_arg : option string)
    (on_progress : option stage_callback) (tr : trace) :
  let config := run_config self_config topic_arg in
  let work_dir := mkPath Scratch (mkdtemp w) [] in
  let out_dir := mkPath Output (output_dir config) [] in
  let tr1 := tr ++ [Done (Mkdtemp work_dir)] in
  truthy (topic config) = true ∨ opt_truthy script_arg = true
  ∨ opt_truthy (custom_script config) = true →
  raises w tr (Mkdtemp work_dir) = None →
  (raises w tr1 (Mkdir out_dir) = None →
   let body := _run_pipeline w config work_dir script_arg on_progress
                 (tr1 ++ [Done (Mkdir out_dir)]) in
   generate w self_config topic_arg script_arg on_progress tr
   = (body.1 ++ [Done (Rmtree work_dir)], body.2))
  ∧ (∀ e, raises w tr1 (Mkdir out_dir) = Some e →
       generate w self_config topic_arg script_arg on_progress tr
       = (tr1 ++ [Failed (Mkdir out_dir) e], Raise e)).
Proof.
  intros config work_dir out_dir tr1 Hvalid Hmk. subst config work_dir out_dir tr1.
  unfold generate. fold (run_config self_config topic_arg).
  assert (Hcond : negb (truthy (topic (run_config self_config topic_arg)))
                  && negb (opt_truthy script_arg)
                  && negb (opt_truthy (custom_script (run_config self_config topic_arg)))
                  = false).
  { destruct Hvalid as [H|[H|H]]; rewrite H; [done| |]; by rewrite ?andb_false_r. }
  rewrite Hcond.
  assert (H1 : perform w (Mkdtemp (mkPath Scratch (mkdtemp w) [])) tr
               = (tr ++ [Done (Mkdtemp (mkPath Scratch (mkdtemp w) []))], Ok tt)).
  { unfold perform. by rewrite Hmk. }
  rewrite (M_bind_Ok _ _ _ _ _ H1). split.
  - intros Hr.
    rewrite (M_bind_Ok _ _ _ (_ ++ [Done (Mkdir _)]) tt) by (unfold perform; by rewrite Hr).
    cbv zeta. unfold try_finally, perform_quiet.
    by destruct (_run_pipeline w _ _ script_arg on_progress _).
  - intros e Hr.
    by rewrite (M_bind_Raise _ _ _ (_ ++ [Failed (Mkdir _) e]) e)
      by (unfold perform; by rewrite Hr).
Qed.

(** [_get_api_key] never returns an empty key: it is the configured key
    when that is not empty, else the one of the environment; and with
    neither it raises. *)
Theorem get_api_key_never_empty (config_key : option string) :
  (∀ key, _get_api_key w config_key = Ok key →
     key ≠ ""
     ∧ (config_key = Some key
        ∨ (opt_truthy config_key = false ∧ environ_api_key w = Some key)))
  ∧ (∀ key, config_key = Some key → key ≠ "" → _get_api_key w config_key = Ok key)
  ∧ (opt_truthy config_key = false → opt_truthy (environ_api_key w) = false →
     _get_api_key w config_key
     = Raise (ValueError "ElevenLabs API key not found. Set ELEVENLABS_API_KEY environment variable or pass it in config.")).
Proof.
  unfold _get_api_key. split; [|split].
  - intros key. destruct config_key as [[|c k]|]; simpl.
    + destruct (environ_api_key w) as [[|c k]|]; [done| |done].
      intros [= <-]. split; [done|]. by right.
    + intros [= <-]. split; [done|]. by left.
    + destruct (environ_api_key w) as [[|c k]|]; [done| |done].
      intros [= <-]. split; [done|]. by right.
  - intros key -> Hne. by destruct key.
  - intros Hc He. destruct config_key as [[|c k]|]; [|done|];
      by destruct (environ_api_key w) as [[|c k]|].
Qed.




End cleanup.

Lemma generate_removes_scratch_witness :
  last calm_run.1 = Some (Done (Rmtree (mkPath Scratch "/tmp/podclaw_0" []))).
Proof.
  unfold calm_run.
  rewrite (proj1 (generate_removes_scratch (calm_world 1000) default_config (Some "x")
                    (Some "[A] hi") (caller_progress (calm_world 1000) true) []
                    ltac:(by left) eq_refl) eq_refl).
  apply last_snoc.
Defined.


(** ** Runs in which nothing fails *)

Section returns.

Context (w : World) (Hw : never_raises w).

Lemma returns_bind {A B} (m : M A) (k : A → M B) (P : A → Prop) (Q : B → Prop) :
  returns m P → (∀ a, P a → returns (k a) Q) → returns (m ≫= k) Q.
Proof.
  intros Hm Hk tr. destruct (Hm tr) as (tr1 & a & Hr & Ha).
  rewrite (M_bind_Ok _ _ _ _ _ Hr). by apply Hk.
Qed.

Lemma returns_ret {A} (a : A) (P : A → Prop) : P a → returns (mret a) P.
Proof. intros Ha tr. by exists tr, a. Qed.

Lemma returns_lift {A} (r : result A) (a : A) (P : A → Prop) :
  r = Ok a → P a → returns (lift r) P.
Proof. intros -> Ha tr. by exists tr, a. Qed.

Lemma returns_observe {A} (f : trace → A) : returns (observe f) (fun _ => True).
Proof. intros tr. by exists tr, (f tr). Qed.

Lemma returns_perform o : returns (perform w o) (fun _ => True).
Proof. intros tr. rewrite perform_calm by done. by eexists _, _. Qed.

Lemma returns_progress observed stage msg :
  returns (progress (caller_progress w observed) stage msg) (fun _ => True).
Proof. destruct observed; [apply returns_perform|by apply returns_ret]. Qed.

Lemma returns_weaken {A} (m : M A) (P Q : A → Prop) :
  returns m P → (∀ a, P a → Q a) → returns m Q.
Proof.
  intros Hm HPQ tr. destruct (Hm tr) as (tr1 & a & Hr & Ha). exists tr1, a. auto.
Qed.

Lemma returns_mmap {A B} (f : A → M B) (g : A → B) (l : list A) (P : A → Prop) :
  (∀ x, P x → returns (f x) (fun y => y = g x)) → Forall P l →
  returns (mmap f l) (fun ys => ys = g <$> l).
Proof.
  intros Hf. induction 1 as [|x l Hx _ IH]; [by apply returns_ret|].
  change (mmap f (x :: l)) with (f x ≫= (fun y => mmap f l ≫= (fun ys => mret (y :: ys)))).
  eapply returns_bind; [by apply Hf|]. intros y ->.
  eapply returns_bind; [exact IH|]. intros ys ->. by apply returns_ret.
Qed.

End returns.

Ltac returns_step Hw :=
  first
    [ apply returns_progress; exact Hw
    | apply returns_perform; exact Hw
    | apply returns_observe
    | eapply returns_bind; [|intros ? ?] ].

Section happy_path.

Context (w : World) (Hw : never_raises w).

Lemma voiced_ready seg : voiced seg → ready seg.
Proof.
  intros (sp & text & v & ->). exists text, v. split; [|by rewrite lookup_insert_eq].
  rewrite lookup_insert_ne by done. unfold mk_segment.
  rewrite lookup_insert_ne by done. by rewrite lookup_insert_eq.
Qed.

Lemma voiced_speaker seg : voiced seg → ∃ sp, getitem_str seg "speaker" = Ok sp.
Proof.
  intros (sp & text & v & ->). exists sp. unfold getitem_str, getitem.
  rewrite lookup_insert_ne by done. unfold mk_segment. by rewrite lookup_insert_eq.
Qed.

Lemma assign_voices_parsed (raw_script : string) (config : PodclawConfig) :
  voices config ≠ [] →
  ∃ out,
    assign_voices (parse_script raw_script) config = Ok out
    ∧ length out = length (parse_script raw_script)
    ∧ Forall voiced out.
Proof.
  intros Hne. pose proof (parse_script_parsed raw_script) as Hp.
  destruct (parsed_speakers _ Hp) as [speakers Hsp].
  destruct (assign_voices_total _ speakers config Hsp Hne) as (m & out & Hout & _ & Hf3).
  exists out. split; [done|]. clear Hout Hsp.
  revert Hf3 Hp. generalize (parse_script raw_script). intros segs0 Hf3.
  induction Hf3 as [|seg sp o segs sps outs (v & _ & ->) _ IH]; intros Hp.
  - by split.
  - inversion Hp as [|? ? (sp' & text & -> & _) Hp']; subst.
    destruct (IH Hp') as [Hlen Hready]. split; [simpl; by rewrite Hlen|].
    constructor; [|done]. by exists sp', text, v.
Qed.

Lemma returns_synthesize_one api_key work_dir observed total i seg :
  voiced seg →
  returns
    (synthesize_one w api_key work_dir
       (Some (fun current total seg =>
          speaker ← lift (getitem_str seg "speaker");
          progress (caller_progress w observed) "tts"
            ("Synthesizing segment " +:+ Py.fmt_d current +:+ "/" +:+ Py.fmt_d total
             +:+ " [" +:+ speaker +:+ "]")))
       total (i, seg))
    (fun o => o = with_audio_path work_dir (i, seg)).
Proof.
  intros Hv. destruct (voiced_speaker _ Hv) as [sp Hsp].
  destruct (voiced_ready _ Hv) as (text & v & Ht & Hvo).
  unfold synthesize_one, synthesize_segment.
  eapply returns_bind.
  { cbv beta iota. eapply returns_bind.
    - by apply (returns_lift _ sp (fun _ => True)).
    - intros ? _. apply returns_progress; exact Hw. }
  intros ? _. eapply returns_bind.
  { eapply (returns_lift _ text (fun _ => True)); [|done].
    unfold getitem_str, getitem. by rewrite Ht. }
  intros ? _. eapply returns_bind.
  { eapply (returns_lift _ v (fun _ => True)); [|done].
    unfold getitem_voice, getitem. by rewrite Hvo. }
  intros ? _. eapply returns_bind.
  { eapply returns_bind; [by apply returns_perform|]. intros ? _.
    eapply returns_bind; [by apply returns_perform|]. intros ? _.
    eapply returns_bind; [by apply returns_perform|]. intros ? _.
    by apply (returns_ret _ (fun _ => True)). }
  intros ? _. by apply returns_ret.
Qed.

Lemma audio_paths_total work_dir (l : list (nat * segment)) :
  ∃ paths, rmap (fun seg => getitem_str seg "audio_path") (with_audio_path work_dir <$> l)
           = Ok paths.
Proof.
  apply rmap_total, Forall_fmap, Forall_forall. intros [i seg] _. simpl.
  eexists. unfold getitem_str, getitem, with_audio_path. by rewrite lookup_insert_eq.
Qed.

Lemma returns_synthesize_all_segments segs api_key work_dir observed :
  Forall voiced segs →
  returns
    (synthesize_all_segments w segs api_key work_dir
       (Some (fun current total seg =>
          speaker ← lift (getitem_str seg "speaker");
          progress (caller_progress w observed) "tts"
            ("Synthesizing segment " +:+ Py.fmt_d current +:+ "/" +:+ Py.fmt_d total
             +:+ " [" +:+ speaker +:+ "]"))))
    (fun out => out = with_audio_path work_dir <$> enumerate segs).
Proof.
  intros Hv. unfold synthesize_all_segments.
  eapply returns_bind; [by apply returns_perform|]. intros ? _.
  apply (returns_mmap _ (with_audio_path work_dir) _ (fun iseg => voiced iseg.2)).
  - intros [i seg] Hseg. by apply returns_synthesize_one.
  - apply Forall_forall. intros [i seg] Hin. simpl.
    unfold enumerate in Hin. apply elem_of_zip_r in Hin.
    by eapply Forall_forall in Hv.
Qed.

Lemma returns_concatenate_audio paths out gap :
  returns (concatenate_audio w paths out gap) (fun ct => ct.1 = out).
Proof.
  intros tr. destruct (concatenate_audio_calm w paths out gap tr Hw) as (tr' & ts & H).
  by exists tr', (out, ts).
Qed.

Lemma returns_generate_srt work_dir (l : list (nat * segment)) timings out max_chars :
  Forall (fun iseg : nat * segment => voiced iseg.2) l →
  returns (generate_srt w (with_audio_path work_dir <$> l) timings out max_chars false)
          (fun p => p = out).
Proof.
  intros Hv. unfold generate_srt.
  destruct (caption_entries_total (with_audio_path work_dir <$> l) timings max_chars false)
    as [es Hes].
  { apply Forall_fmap, Forall_forall. intros [i seg] Hin.
    eapply Forall_forall in Hv; [|exact Hin].
    destruct (voiced_ready _ Hv) as (text & v & Ht & _).
    split; [|done]. exists text. unfold with_audio_path. simpl.
    by rewrite lookup_insert_ne. }
  eapply returns_bind; [by apply returns_perform|]. intros ? _.
  eapply returns_bind.
  { eapply (returns_lift _ _ (fun _ => True)); [|done].
    unfold srt_text. by rewrite Hes, bind_Ok. }
  intros ? _. eapply returns_bind; [by apply returns_perform|]. intros ? _.
  by apply returns_ret.
Qed.

Lemma returns_create_background out :
  returns (create_background w out) (fun p => p = out).
Proof.
  unfold create_background. repeat returns_step Hw. by apply returns_ret.
Qed.

Lemma returns_prepare config work_dir script_arg observed key :
  voices config ≠ [] →
  _get_api_key w (elevenlabs_api_key config) = Ok key →
  parse_script (select_script config script_arg) ≠ [] →
  returns (prepare w config work_dir script_arg (caller_progress w observed))
    (fun prepared =>
       length prepared.1.1.1.1
       = length (parse_script (select_script config script_arg))).
Proof.
  intros Hne Hkey Hparse. unfold prepare.
  destruct (assign_voices_parsed (select_script config script_arg) config Hne)
    as (out & Hout & Hlen & Hvoiced).
  eapply returns_bind; [by apply returns_progress|]. intros ? _. cbv zeta.
  eapply returns_bind; [by apply returns_perform|]. intros ? _.
  apply nonempty_true in Hparse. rewrite Hparse. cbn [negb].
  eapply returns_bind; [by apply (returns_lift _ out (fun a => a = out))|].
  intros ? ->.
  eapply returns_bind; [by apply returns_progress|]. intros ? _.
  eapply returns_bind; [by apply returns_progress|]. intros ? _.
  eapply returns_bind; [by apply (returns_lift _ key (fun _ => True))|]. intros ? _.
  eapply returns_bind; [by apply returns_synthesize_all_segments|]. intros ? ->.
  eapply returns_bind; [by apply returns_progress|]. intros ? _.
  destruct (audio_paths_total (pdiv work_dir "tts") (enumerate out)) as [paths Hpaths].
  eapply returns_bind; [by apply (returns_lift _ paths (fun _ => True))|]. intros ? _.
  eapply returns_bind; [apply returns_concatenate_audio|]. intros [combined timings] _.
  eapply returns_bind; [by apply returns_progress|]. intros ? _.
  eapply returns_bind; [by apply returns_progress|]. intros ? _.
  eapply returns_bind.
  { apply returns_generate_srt. apply Forall_forall. intros [i seg] Hin. simpl.
    unfold enumerate in Hin. apply elem_of_zip_r in Hin.
    by eapply Forall_forall in Hvoiced. }
  intros ? _.
  eapply returns_bind; [by apply returns_progress|]. intros ? _.
  eapply returns_bind; [by apply returns_progress|]. intros ? _.
  eapply returns_bind; [apply returns_create_background|]. intros ? _.
  eapply returns_bind; [by apply returns_progress|]. intros ? _.
  apply returns_ret. simpl. rewrite length_fmap. unfold enumerate.
  rewrite length_zip, length_seq. lia.
Qed.

Lemma returns_deliver config observed prepared :
  returns (deliver w config (caller_progress w observed) prepared)
    (fun m => segment_count m = Z.of_nat (length prepared.1.1.1.1)).
Proof.
  destruct prepared as [[[[segs script_path] combined] srt_path] bg_path].
  unfold deliver, get_audio_duration, assemble_video.
  repeat returns_step Hw. by apply returns_ret.
Qed.

Lemma returns_generate self_config topic_arg script_arg observed key :
  let config := run_config self_config topic_arg in
  has_subject config script_arg →
  voices config ≠ [] →
  _get_api_key w (elevenlabs_api_key config) = Ok key →
  parse_script (select_script config script_arg) ≠ [] →
  returns (generate w self_config topic_arg script_arg (caller_progress w observed))
    (fun m => segment_count m
              = Z.of_nat (length (parse_script (select_script config script_arg)))).
Proof.
  intros config Hsub Hne Hkey Hparse. unfold generate. fold (run_config self_config topic_arg).
  fold config. cbv zeta.
  assert (Hcheck : negb (truthy (topic config)) && negb (opt_truthy script_arg)
                   && negb (opt_truthy (custom_script config)) = false).
  { destruct Hsub as [Ht|[Hs|Hc]].
    - apply truthy_ne in Ht. by rewrite Ht.
    - rewrite Hs. by rewrite andb_false_r.
    - rewrite Hc. by rewrite andb_false_r. }
  rewrite Hcheck.
  eapply returns_bind; [by apply returns_perform|]. intros ? _.
  eapply returns_bind; [by apply returns_perform|]. intros ? _.
  intros tr.
  assert (Hrun : returns (_run_pipeline w config (mkPath Scratch (mkdtemp w) []) script_arg
                            (caller_progress w observed))
                   (fun m => segment_count m
                      = Z.of_nat (length (parse_script (select_script config script_arg))))).
  { unfold _run_pipeline. eapply returns_bind; [by eapply returns_prepare|].
    intros prepared Hp. eapply returns_weaken; [apply returns_deliver|].
    intros m ->. simpl. by rewrite Hp. }
  destruct (Hrun tr) as (tr1 & m & Hr & Hm).
  unfold try_finally, perform_quiet. rewrite Hr. by eexists _, m.
Qed.

End happy_path.

(** When no operation of the outside world fails, [generate] returns its
    manifest as soon as the call names a topic or a script, the roster of
    voices is not empty, an API key is found, and the script parses to at
    least one segment; the manifest counts the parsed segments. *)
Theorem generate_succeeds_in_calm_world
    (w : World) (self_config : PodclawConfig) (topic_arg script_arg : option string)
    (observed : bool) (key : string) (tr : trace) :
  let config := run_config self_config topic_arg in
  never_raises w →
  has_subject config script_arg →
  voices config ≠ [] →
  _get_api_key w (elevenlabs_api_key config) = Ok key →
  parse_script (select_script config script_arg) ≠ [] →
  ∃ tr' m,
    generate w self_config topic_arg script_arg (caller_progress w observed) tr
    = (tr', Ok m)
    ∧ segment_count m
      = Z.of_nat (length (parse_script (select_script config script_arg))).
Proof.
  intros config Hw Hsub Hne Hkey Hparse.
  by apply (returns_generate w Hw self_config topic_arg script_arg observed key).
Qed.

Lemma generate_succeeds_in_calm_world_witness :
  ∃ tr' m, calm_run = (tr', Ok m) ∧ segment_count m = 1.
Proof.
  apply (generate_succeeds_in_calm_world (calm_world 1000) default_config (Some "x")
           (Some "[A] hi") true "key" []).
  - done.
  - by left.
  - done.
  - reflexivity.
  - vm_compute. discriminate.
Defined.

(** With nothing but a topic, the pipeline runs on the demo script: for a
    topic that is not empty and holds no line break, a non-empty roster
    and an API key, a run in which no operation fails returns a manifest
    of eleven segments for the monologue, thirteen for the news recap and
    fourteen for the other formats. *)
Theorem generate_from_topic_alone
    (w : World) (self_config : PodclawConfig) (t : string)
    (observed : bool) (key : string) (tr : trace) :
  never_raises w →
  t ≠ "" → Py.contains_c "010" t = false →
  custom_script self_config = None →
  voices self_config ≠ [] →
  _get_api_key w (elevenlabs_api_key self_config) = Ok key →
  ∃ tr' m,
    generate w self_config (Some t) None (caller_progress w observed) tr = (tr', Ok m)
    ∧ segment_count m = match format self_config with
                        | MONOLOGUE => 11
                        | NEWS_RECAP => 13
                        | _ => 14
                        end.
Proof.
  intros Hw Ht Hnl Hcs Hne Hkey.
  assert (Hcfg : run_config self_config (Some t) = with_topic t self_config).
  { unfold run_config. simpl. apply truthy_ne in Ht. by rewrite Ht. }
  assert (Hsel : select_script (with_topic t self_config) None
                 = generate_demo_script (with_topic t self_config)).
  { unfold select_script. simpl. by rewrite Hcs. }
  destruct (demo_script_turns (with_topic t self_config) Hnl) as (texts & Hsegs & Hlen & _).
  assert (Hcount : length (parse_script (generate_demo_script (with_topic t self_config)))
                   = demo_lines (format self_config)).
  { rewrite Hsegs, length_zip_with. unfold roles_in_turn.
    rewrite length_fmap, length_seq, Hlen. simpl. lia. }
  destruct (returns_generate w Hw self_config (Some t) None observed key) with (tr := tr)
    as (tr' & m & Hr & Hm).
  - left. by rewrite Hcfg.
  - by rewrite Hcfg.
  - by rewrite Hcfg.
  - rewrite Hcfg, Hsel. intros Hnil. rewrite Hnil in Hcount.
    by destruct (format self_config).
  - exists tr', m. split; [done|]. rewrite Hm, Hcfg, Hsel, Hcount.
    by destruct (format self_config).
Qed.

Lemma generate_from_topic_alone_witness :
  ∃ tr' m,
    generate (calm_world 1000) default_config (Some "AI") None
      (caller_progress (calm_world 1000) false) [] = (tr', Ok m)
    ∧ segment_count m = 14.
Proof.
  apply (generate_from_topic_alone (calm_world 1000) default_config "AI" false "key" []);
    done.
Defined.

(** ** Captions from plain text *)

Section text_captions.

Lemma sentence_tag_line sentences sp first :
  plain_line sp → Py.contains_c "]" sp = false → plain_line first →
  sentence_step sentences ("[" +:+ sp +:+ "] " +:+ first) = sentences ++ [first].
Proof.
  intros Hsp Hbr Hfirst. unfold sentence_step.
  rewrite tag_line_plain by done. cbv zeta.
  change ("[" +:+ sp +:+ "] " +:+ first) with (String "[" (sp +:+ String "]" (String " " first))).
  assert (Hidx : Py.index_c "]" (String "[" (sp +:+ String "]" (String " " first)))
                 = Some (S (String.length sp))).
  { change (Py.index_c "]" (String "[" ?s)) with (S <$> Py.index_c "]" s).
    by rewrite index_c_app_here. }
  assert (Htag : is_tag_line (String "[" (sp +:+ String "]" (String " " first))) = true).
  { unfold is_tag_line, Py.contains_c. rewrite Hidx. done. }
  rewrite Htag, Hidx. simpl negb. cbv iota.
  assert (Hdrop : Py.drop (S (String.length sp) + 1)
                    (String "[" (sp +:+ String "]" (String " " first))) = String " " first).
  { replace (S (String.length sp) + 1)%nat with (S (S (String.length sp))) by lia.
    change (Py.drop (S ?n) (String ?c ?s)) with (Py.drop n s).
    apply drop_app_length_S. }
  rewrite Hdrop. rewrite strip_cons_space by done.
  pose proof (plain_line_truthy _ Hfirst) as Ht. destruct Hfirst as (Hne & -> & _).
  by rewrite Ht.
Qed.

Lemma sentence_more_line sentences l :
  plain_line l → is_tag_line l = false → sentence_step sentences l = sentences ++ [l].
Proof.
  intros Hl Htag. unfold sentence_step. pose proof (plain_line_truthy _ Hl) as Ht.
  destruct Hl as (Hne & Hs & Hnl). rewrite Hs, Htag, Ht. done.
Qed.

Lemma sentence_more_lines (more : list string) sentences :
  Forall (fun l => plain_line l ∧ is_tag_line l = false) more →
  fold_left sentence_step more sentences = sentences ++ more.
Proof.
  intros H. revert sentences. induction H as [|l more [Hl Htag] _ IH]; intros sentences.
  - by rewrite app_nil_r.
  - simpl. rewrite sentence_more_line by done. rewrite IH. by rewrite <- app_assoc.
Qed.

Lemma sentence_turns (turns : list Turn) sentences :
  Forall well_formed_turn turns →
  fold_left sentence_step (turns ≫= turn_lines) sentences
  = sentences ++ (turns ≫= turn_texts).
Proof.
  intros H. revert sentences.
  induction H as [|t turns (Hsp & Hbr & Hfirst & Hmore) _ IH]; intros sentences.
  - by rewrite app_nil_r.
  - rewrite !bind_cons, fold_left_app.
    change (fold_left sentence_step (turn_lines t) sentences)
      with (fold_left sentence_step (turn_more t)
              (sentence_step sentences
                 ("[" +:+ turn_speaker t +:+ "] " +:+ turn_first t))).
    rewrite sentence_tag_line by done.
    rewrite (sentence_more_lines (turn_more t)) by done. rewrite IH.
    unfold turn_texts at 2. by rewrite <- !app_assoc.
Qed.

Lemma sentences_of_script (turns : list Turn) :
  Forall well_formed_turn turns →
  sentences_of (script_of turns) = turns ≫= turn_texts.
Proof.
  intros Hwf. unfold sentences_of, script_of.
  destruct turns as [|t turns]; [done|].
  assert (Hlines : Forall (fun l => l ≠ "" ∧ Py.strip l = l ∧ Py.contains_c "010" l = false)
                     ((t :: turns) ≫= turn_lines)).
  { apply Forall_bind. eapply Forall_impl; [exact Hwf|]. apply turn_lines_plain. }
  assert (Hcons : ∃ l ls, (t :: turns) ≫= turn_lines = l :: ls).
  { rewrite bind_cons. unfold turn_lines at 1. by eexists _, _. }
  destruct Hcons as (l & ls & Hcons). rewrite Hcons in Hlines |- *.
  rewrite strip_join.
  2:{ eapply Forall_impl; [exact Hlines|]. by intros x (? & ? & _). }
  rewrite split_on_join.
  2:{ eapply Forall_impl; [exact Hlines|]. by intros x (? & ? & ?). }
  rewrite <- Hcons. by rewrite sentence_turns.
Qed.




Lemma text_sentence_short q entries i s :
  Py.len s ≤ 80 →
  text_sentence q entries (i, s)
  = entries ++ [mkEntry (Z.of_nat (length entries) + 1) (Z.of_nat i * q)
                        ((Z.of_nat i + 1) * q - 100) s].
Proof.
  intros Hs. unfold text_sentence, _split_long_text.
  rewrite (proj2 (Z.leb_le _ _) Hs). cbv zeta.
  change (enumerate [s]) with [(0%nat, s)]. cbn [fold_left text_chunk length].
  change (Z.of_nat 0 =? Z.of_nat 1 - 1) with true. cbv iota.
  do 3 f_equal. lia.
Qed.

Lemma text_sentences_short q (l : list string) :
  Forall (fun s => Py.len s ≤ 80) l →
  ∀ (k : nat) entries, length entries = k →
    fold_left (text_sentence q) (zip (seq k (length l)) l) entries
    = entries ++ (sentence_entry q <$> zip (seq k (length l)) l).
Proof.
  induction 1 as [|s l Hs _ IH]; intros k entries Hk.
  - by rewrite app_nil_r.
  - change (zip (seq k (length (s :: l))) (s :: l))
      with ((k, s) :: zip (seq (S k) (length l)) l).
    cbn [fold_left]. rewrite text_sentence_short by done.
    rewrite (IH (S k)) by (rewrite length_app; simpl; lia).
    rewrite fmap_cons, <- app_assoc. unfold sentence_entry at 2. simpl.
    by rewrite Hk.
Qed.

End text_captions.

(** [generate_srt_from_text] shows a tagged script line by line. For a
    script spelled out from well-formed turns, its sentences are the
    texts of all lines in order, each tag line without its tag: one
    sentence per line, where [parse_script] gives one segment per turn. *)
Theorem srt_from_text_sentences (turns : list Turn) :
  Forall well_formed_turn turns →
  sentences_of (script_of turns) = turns ≫= turn_texts.
Proof. apply sentences_of_script. Qed.

Lemma srt_from_text_sentences_witness :
  sentences_of (script_of [mkTurn "HOST_A" "Hello" ["world"]; mkTurn "HOST_B" "Hi" []])
  = ["Hello"; "world"; "Hi"].
Proof.
  apply (srt_from_text_sentences
           [mkTurn "HOST_A" "Hello" ["world"]; mkTurn "HOST_B" "Hi" []]).
  repeat constructor; done.
Defined.



(** When every sentence fits one caption of 80 characters, there is one
    caption per sentence: with [q = total_duration_ms // n] for [n]
    sentences, sentence [i] is shown from [i * q] to [(i + 1) * q - 100],
    so it lasts [q - 100] milliseconds. *)
Theorem srt_from_text_even_timing (full_text : string) (total_duration_ms : Z) :
  Forall (fun s => Py.len s ≤ 80) (sentences_of full_text) →
  let sentences := sentences_of full_text in
  let q := total_duration_ms / Z.of_nat (length sentences) in
  text_entries sentences total_duration_ms = sentence_entry q <$> enumerate sentences
  ∧ Forall (fun e => entry_end e - entry_start e = q - 100)
           (text_entries sentences total_duration_ms).
Proof.
  intros Hshort sentences q.
  assert (Heq : text_entries sentences total_duration_ms
                = sentence_entry q <$> enumerate sentences).
  { unfold text_entries, enumerate. cbv zeta. fold q.
    by rewrite (text_sentences_short q sentences Hshort 0 []). }
  split; [done|]. rewrite Heq. apply Forall_fmap, Forall_forall.
  intros [i s] _. simpl. lia.
Qed.

Lemma srt_from_text_even_timing_witness :
  text_entries ["a"; "b"] 1000 = [mkEntry 1 0 400 "a"; mkEntry 2 500 900 "b"].
Proof.
  apply (proj1 (srt_from_text_even_timing ("a" +:+ nl +:+ "b") 1000
                  ltac:(repeat constructor; vm_compute; discriminate))).
Defined.

(** ** Length of the wrapped chunks *)

Section chunk_length.

Context (max_chars : Z).

Lemma len_app s t : Py.len (s +:+ t) = Py.len s + Py.len t.
Proof. unfold Py.len. rewrite slength_app. lia. Qed.

Lemma len_join_snoc (l : list string) (w : string) :
  l ≠ [] → Py.len (Py.join " " (l ++ [w])) = Py.len (Py.join " " l) + 1 + Py.len w.
Proof.
  intros Hl. rewrite join_app by done. rewrite !len_app.
  change (Py.join " " [w]) with w. change (Py.len " ") with 1. lia.
Qed.

Lemma fits_current (st : wrap_state) :
  wrap_ok max_chars st → current st ≠ [] → fits max_chars (Py.join " " (current st)).
Proof.
  intros (_ & Hw & Hlen & Hmax) Hne.
  destruct (current st) as [|w [|w' l]] eqn:Hcur; [done| |].
  - right. by inversion Hw.
  - left. simpl in Hmax. lia.
Qed.

Lemma wrap_step_ok (st : wrap_state) (word : string) :
  is_word word = true → wrap_ok max_chars st → wrap_ok max_chars (wrap_step max_chars st word).
Proof.
  intros Hword Hst. pose proof Hst as (Hlines & Hw & Hlen & Hmax). unfold wrap_step.
  destruct ((current_len st + Py.len word + 1 >? max_chars) && nonempty (current st))
    eqn:Hc.
  - apply andb_true_iff in Hc as [_ Hne]. apply nonempty_true in Hne.
    split; [|split; [|split]]; cbn [lines current current_len].
    + apply Forall_app. split; [done|]. constructor; [|constructor].
      by apply fits_current.
    + by constructor.
    + change (Py.join " " [word]) with word. lia.
    + simpl. lia.
  - split; [|split; [|split]]; cbn [lines current current_len].
    + done.
    + apply Forall_app. split; [done|]. by constructor.
    + destruct (current st) as [|w l] eqn:Hcur.
      * change (Py.join " " ([] ++ [word])) with word.
        change (Py.join " " []) with "" in Hlen. change (Py.len "") with 0 in Hlen. lia.
      * rewrite len_join_snoc by done. lia.
    + rewrite length_app. simpl. intros Htwo.
      apply andb_false_iff in Hc as [Hc|Hc].
      * rewrite Z.gtb_ltb in Hc. apply Z.ltb_ge in Hc. lia.
      * destruct (current st); [simpl in Htwo; lia|done].
Qed.

Lemma wrap_fold_ok (words : list string) (st : wrap_state) :
  Forall (fun w => is_word w = true) words → wrap_ok max_chars st →
  wrap_ok max_chars (fold_left (wrap_step max_chars) words st).
Proof.
  intros H. revert st. induction H as [|w words Hw _ IH]; intros st Hst; [done|].
  simpl. by apply IH, wrap_step_ok.
Qed.

Lemma split_long_text_fits (text : string) :
  Forall (fits max_chars) (_split_long_text text max_chars).
Proof.
  unfold _split_long_text. destruct (Py.len text <=? max_chars) eqn:Hle.
  - apply Z.leb_le in Hle. constructor; [by left|constructor].
  - cbv zeta.
    pose proof (wrap_fold_ok (Py.split text) (mkWrap [] [] 0) (split_is_word text)) as Hok.
    destruct Hok as (Hlines & Hw & Hlen & Hmax).
    { split; [constructor|]. split; [constructor|]. split; [done|]. simpl. lia. }
    unfold wrap_finish.
    destruct (nonempty (current (fold_left _ _ _))) eqn:Hne; [|done].
    apply nonempty_true in Hne. apply Forall_app. split; [done|].
    constructor; [|constructor]. by apply fits_current.
Qed.

End chunk_length.

(** No chunk of [_split_long_text] is longer than [max_chars], except a
    chunk that is one single word: a word is never cut, and words are
    only put together while they fit. *)
Theorem split_long_text_chunk_length (text chunk : string) (max_chars : Z) :
  chunk ∈ _split_long_text text max_chars →
  Py.len chunk ≤ max_chars ∨ is_word chunk = true.
Proof.
  intros Hin. pose proof (split_long_text_fits max_chars text) as H.
  by eapply Forall_forall in H.
Qed.

Lemma split_long_text_chunk_length_witness :
  Py.len "b c" ≤ 3 ∨ is_word "b c" = true.
Proof.
  apply (split_long_text_chunk_length "a  b c" "b c" 3).
  vm_compute. right. left.
Defined.

(* ===================================================================== *)
(** * The package's own tests, replayed on the model                      *)
(* ===================================================================== *)

Example replace_ex : Py.replace ".mp4" ".mp3" "a.mp4.mp4" = "a.mp3.mp3".
Proof. reflexivity. Qed.

Example fmt_ex : Py.fmt_0d 3 (-5) = "-05" /\ Py.fmt_0d 2 7 = "07" /\ Py.fmt_0d 2 123 = "123".
Proof. vm_compute. auto. Qed.

Example test_builtin_voices :
  name (get_voice default_config "roger") = "Roger" /\
  voice_id (get_voice default_config "roger") = "CwhRBWXzGAHq8TQ4Fs17".
Proof. vm_compute. auto. Qed.

Example test_case_insensitive : name (get_voice default_config "ROGER") = "Roger".
Proof. vm_compute. reflexivity. Qed.

Example test_raw_voice_id_fallback :
  voice_id (get_voice default_config "some_random_id_123") = "some_random_id_123".
Proof. vm_compute. reflexivity. Qed.

Example test_basic_parsing :
  parse_script ("[HOST_A] Hello there!" +:+ nl +:+ "[HOST_B] Welcome to the show."
                +:+ nl +:+ "[HOST_A] Let's get started.")
  = [mk_segment "HOST_A" "Hello there!";
     mk_segment "HOST_B" "Welcome to the show.";
     mk_segment "HOST_A" "Let's get started."].
Proof. vm_compute. reflexivity. Qed.

Example test_multiline_text :
  parse_script ("[HOST] This is the first line." +:+ nl
                +:+ "And this continues on the next line." +:+ nl
                +:+ "[HOST] New segment.")
  = [mk_segment "HOST" "This is the first line. And this continues on the next line.";
     mk_segment "HOST" "New segment."].
Proof. vm_compute. reflexivity. Qed.

Example test_voice_assignment :
  assign_voices [mk_segment "HOST_A" "Hello"; mk_segment "HOST_B" "Hi";
                 mk_segment "HOST_A" "Let's go"]
                (with_voices ["roger"; "george"] default_config)
  = Ok [<["voice" := VVoice (get_voice default_config "roger")]> (mk_segment "HOST_A" "Hello");
        <["voice" := VVoice (get_voice default_config "george")]> (mk_segment "HOST_B" "Hi");
        <["voice" := VVoice (get_voice default_config "roger")]> (mk_segment "HOST_A" "Let's go")].
Proof. vm_compute. reflexivity. Qed.

Example test_hours : _format_srt_time 3661500 = "01:01:01,500".
Proof. vm_compute. reflexivity. Qed.

Example test_short_text : _split_long_text "Hello world" 80 = ["Hello world"].
Proof. vm_compute. reflexivity. Qed.

Example test_long_text :
  _split_long_text
    "This is a very long text that should be split into multiple lines for readability" 40
  = ["This is a very long text that should be"; "split into multiple lines for"; "readability"].
Proof. vm_compute. reflexivity. Qed.

Example test_basic_generation :
  caption_entries [mk_segment "HOST" "Hello there!"; mk_segment "HOST" "Welcome to the show."]
                  [mkTiming 0 3000 "a.mp3"; mkTiming 3000 6000 "b.mp3"] 80 false
  = Ok [mkEntry 1 0 3000 "Hello there!"; mkEntry 2 3000 6000 "Welcome to the show."].
Proof. vm_compute. reflexivity. Qed.

Example test_parse_duration :
  _parse_duration "90s" = Some 90 ∧ _parse_duration "30s" = Some 30
  ∧ _parse_duration "2m" = Some 120 ∧ _parse_duration "5m" = Some 300
  ∧ _parse_duration "1m30s" = Some 90 ∧ _parse_duration "2m15s" = Some 135
  ∧ _parse_duration "60" = Some 60 ∧ _parse_duration "  2m  " = Some 120.
Proof. vm_compute. repeat split. Qed.

Example test_srt_from_text_basic :
  text_entries (sentences_of ("[HOST] Hello!" +:+ nl +:+ "[HOST] World!")) 4000
  = [mkEntry 1 0 1900 "Hello!"; mkEntry 2 2000 3900 "World!"].
Proof. vm_compute. reflexivity. Qed.

Example int_whitespace :
  int_of_str (String "011" "5") = Some 5
  ∧ int_of_str (" +5" +:+ nl) = Some 5
  ∧ int_of_str ("5" +:+ String "031" "") = None
  ∧ _parse_duration ("5" +:+ String "031" "s") = None
  ∧ _parse_duration (String "031" "5s") = Some 5.
Proof. vm_compute. repeat split. Qed.
